(** * Event processor of the behavior analyzer: a shallow embedding

    The development follows [infrastructure/cdk/lambda/processor/handler.py]:
    [extract_features], [run_detection], [update_player_states],
    [store_events], [store_detections], [create_response] and
    [lambda_handler], in that dependency order.

    Conventions of the embedding.
    - Python [int] is [Z].  Python [float] is a type [F] with the operations
      of the class [PyFloat]; every definition is generic in it.  Its
      instance is IEEE binary64 (the kernel's primitive floats), on which
      the definitions run.
    - An event dictionary is a mutable object.  The objects of a request sit
      in a heap (a list of events); the Python lists [events],
      [p_events], [interesting_events] are lists of references into it.
    - Exceptions are values of [exn]; a computation that may raise returns
      a [result].
    - DynamoDB is a [store]; whether a call raises is decided by the
      oracles of [env], which also carries the clock and the UUID supply.
    - [json.loads] belongs to Python's library and is a Section variable;
      it returns the decoded value or the exception it raises. *)

From Stdlib Require Import ZArith Lia Floats.
From stdpp Require Import gmap strings list pretty.

Local Open Scope Z_scope.

(** ** Python floats *)

Class PyFloat (F : Type) := {
  of_int : Z -> F;                (* float(i), rounded; infinite when too large *)
  int_truediv : Z -> Z -> F;      (* i / j on ints, j <> 0: the quotient, rounded
                                     once; infinite when too large *)
  to_int : F -> option Z;         (* int(x); None when int() raises *)
  fadd : F -> F -> F;
  fsub : F -> F -> F;
  fmul : F -> F -> F;
  fdiv : F -> F -> F;             (* x / y for y <> 0 *)
  fpow_half : F -> F;             (* x ** 0.5 for x not a negative number *)
  fabs : F -> F;                  (* abs(x) *)
  flt : F -> F -> bool;           (* x < y *)
  fle : F -> F -> bool;           (* x <= y *)
  fis_zero : F -> bool;           (* x == 0 *)
  fis_nan : F -> bool;            (* x != x *)
  fis_finite : F -> bool;         (* neither an infinity nor a NaN *)
  flt_irrefl : forall x, flt x x = false
}.

(** The decimal literal [n/d] ([0.7] is [dec 7 10]): correctly rounded
    division of two small integers yields the double nearest to the
    literal, which is what Python's parser produces. *)
Definition dec `{PyFloat F} (n d : Z) : F := fdiv (of_int n) (of_int d).

(** *** Instance: IEEE binary64 *)

Definition b64_of_int (z : Z) : float :=
  SF2Prim (binary_normalize prec emax z 0 false).

(** The quotient of two integers, rounded to nearest even as Python's
    [int.__truediv__] rounds it: the division is carried out on the
    integers and rounded once. *)
Definition Z2SF (z : Z) : spec_float :=
  match z with
  | Z0 => S754_zero false
  | Zpos p => S754_finite false p 0
  | Zneg p => S754_finite true p 0
  end.

Definition b64_int_truediv (i j : Z) : float :=
  SF2Prim (SFdiv prec emax (Z2SF i) (Z2SF j)).

Definition b64_to_int (x : float) : option Z :=
  match Prim2SF x with
  | S754_zero _ => Some 0
  | S754_finite s m e =>
      let a := if 0 <=? e then Z.pos m * 2 ^ e else Z.pos m / 2 ^ (- e) in
      Some (if s then - a else a)
  | S754_infinity _ | S754_nan => None
  end.

Lemma b64_ltb_irrefl (x : float) : PrimFloat.ltb x x = false.
Proof.
  rewrite ltb_spec. unfold SFltb, SFcompare.
  destruct (Prim2SF x) as [s|s| |s m e]; try reflexivity;
    try (destruct s; reflexivity).
  destruct s; rewrite Z.compare_refl, ?Pos.compare_cont_refl; reflexivity.
Qed.

(** [x ** 0.5]: the square root, with the two cases in which C's [pow]
    departs from [sqrt]: [(-0.0) ** 0.5] is [0.0] and [(-inf) ** 0.5] is
    [inf].  ([pow] is taken as correctly rounded.  On a negative number
    Python's [**] yields a complex number, which no double stands for; the
    value here is then NaN, and the statements on the standard deviation
    leave that case out.) *)
Definition b64_pow_half (x : float) : float :=
  if PrimFloat.eqb x PrimFloat.zero then PrimFloat.zero
  else if PrimFloat.eqb x PrimFloat.neg_infinity then PrimFloat.infinity
  else PrimFloat.sqrt x.

#[export] Instance binary64 : PyFloat float := {|
  of_int := b64_of_int;
  int_truediv := b64_int_truediv;
  to_int := b64_to_int;
  fadd := PrimFloat.add;
  fsub := PrimFloat.sub;
  fmul := PrimFloat.mul;
  fdiv := PrimFloat.div;
  fpow_half := b64_pow_half;
  fabs := PrimFloat.abs;
  flt := PrimFloat.ltb;
  fle := PrimFloat.leb;
  fis_zero := fun x => PrimFloat.eqb x PrimFloat.zero;
  fis_nan := PrimFloat.is_nan;
  fis_finite := PrimFloat.is_finite;
  flt_irrefl := b64_ltb_irrefl
|}.

(** ** Exceptions *)

Inductive exn :=
  | AttributeError | TypeError | ValueError | OverflowError
  | ZeroDivisionError | JSONDecodeError | RecursionError | ClientError.

Inductive result (A : Type) :=
  | Ok (a : A)
  | Raise (e : exn).
Arguments Ok {A} a.
Arguments Raise {A} e.

#[export] Instance result_bind : MBind result := fun A B k r =>
  match r with Ok a => k a | Raise e => Raise e end.

Definition is_ok {A} (r : result A) : bool :=
  match r with Ok _ => true | Raise _ => false end.

(** ** Events *)

(** A value under a counter key of the metadata ([shots], [hits],
    [headshots], [damage]): a JSON integer, a JSON string or null.  JSON
    floats and booleans as counters are outside the modelled input type. *)
Inductive jval := JInt (z : Z) | JStr (s : string) | JNull.

(** The [metadata] field: a mapping, a string (JSON text still to be
    decoded), or one of the other JSON kinds. *)
Inductive meta :=
  | MDict (d : gmap string jval)
  | MStr (s : string)
  | MNull
  | MNum (z : Z)
  | MList
  | MBool (b : bool).

(** The value stored under ['_interesting_reason'].  The f-string's text is
    a function of the integers kept here: [high_accuracy h s] is
    [f'high_accuracy:{h/s:.2f}'], [high_headshot hs h] is
    [f'high_headshot:{hs/max(h,1):.2f}'], [high_damage d] is
    [f'high_damage:{d}']. *)
Inductive reason :=
  | high_accuracy (evt_hits evt_shots : Z)
  | high_headshot (evt_headshots evt_hits : Z)
  | high_damage (damage : Z).

(** An event dictionary; [None] is an absent key. *)
Record event := {
  ev_eventId : option string;
  ev_owner : option string;
  ev_playerId : option string;
  ev_actionType : option string;
  ev_timestamp : option Z;
  ev_sessionId : option string;
  ev_metadata : option meta;
  ev_interesting_reason : option reason
}.

#[export] Instance jval_eq_dec : EqDecision jval.
Proof. solve_decision. Defined.
#[export] Instance meta_eq_dec : EqDecision meta.
Proof. solve_decision. Defined.
#[export] Instance reason_eq_dec : EqDecision reason.
Proof. solve_decision. Defined.
#[export] Instance event_eq_dec : EqDecision event.
Proof. solve_decision. Defined.

Definition empty_event : event :=
  {| ev_eventId := None; ev_owner := None; ev_playerId := None;
     ev_actionType := None; ev_timestamp := None; ev_sessionId := None;
     ev_metadata := None; ev_interesting_reason := None |}.

(** [evt['_interesting_reason'] = r] *)
Definition set_reason (r : reason) (e : event) : event :=
  {| ev_eventId := ev_eventId e; ev_owner := ev_owner e;
     ev_playerId := ev_playerId e; ev_actionType := ev_actionType e;
     ev_timestamp := ev_timestamp e; ev_sessionId := ev_sessionId e;
     ev_metadata := ev_metadata e; ev_interesting_reason := Some r |}.

(** The heap of event objects and references into it. *)
Abbreviation loc := nat.
Abbreviation heap := (list event).

Definition heap_get (h : heap) (l : loc) : event := default empty_event (h !! l).

Definition heap_set_reason (h : heap) (l : loc) (r : reason) : heap :=
  <[l := set_reason r (heap_get h l)]> h.

(** [evt in lst]: some element is the same object or an equal dictionary. *)
Definition event_in (h : heap) (l : loc) (lst : list loc) : bool :=
  existsb (fun l' => bool_decide (heap_get h l' = heap_get h l)) lst.

(** ** Configuration and constants *)

(** The thresholds read from the environment at import time. *)
Record config (F : Type) := {
  ZSCORE_THRESHOLD : F;
  MIN_SAMPLES_FOR_DETECTION : Z;
  ACCURACY_INTERESTING_THRESHOLD : F;
  HEADSHOT_INTERESTING_THRESHOLD : F;
  MIN_SHOTS_FOR_INTERESTING : Z;
  EVENT_TTL_DAYS : Z
}.
Arguments ZSCORE_THRESHOLD {F} _.
Arguments MIN_SAMPLES_FOR_DETECTION {F} _.
Arguments ACCURACY_INTERESTING_THRESHOLD {F} _.
Arguments HEADSHOT_INTERESTING_THRESHOLD {F} _.
Arguments MIN_SHOTS_FOR_INTERESTING {F} _.
Arguments EVENT_TTL_DAYS {F} _.

(** The defaults of [os.environ.get]. *)
Definition default_config `{PyFloat F} : config F := {|
  ZSCORE_THRESHOLD := dec 30 10;
  MIN_SAMPLES_FOR_DETECTION := 100;
  ACCURACY_INTERESTING_THRESHOLD := dec 7 10;
  HEADSHOT_INTERESTING_THRESHOLD := dec 5 10;
  MIN_SHOTS_FOR_INTERESTING := 5;
  EVENT_TTL_DAYS := 90
|}.

Definition HIGH_DAMAGE_THRESHOLD : Z := 100.
Definition ACCURACY_RISK_THRESHOLD `{PyFloat F} : F := dec 5 10.
Definition HEADSHOT_RISK_THRESHOLD `{PyFloat F} : F := dec 3 10.

Definition ALWAYS_STORE_EVENTS : gset string :=
  {[ "SESSION_START"; "SESSION_END"; "PLAYER_KILLED";
     "PLAYER_REPORTED"; "PLAYER_VIOLATION" ]}.

(** ** Stored items *)

Inductive num (F : Type) := NInt (z : Z) | NFloat (x : F).
Arguments NInt {F} z.
Arguments NFloat {F} x.

(** Strings built by [json.dumps] and by the f-strings of the detector;
    each is kept as the value it renders. *)
Inductive text (F : Type) :=
  | json_dumps_metadata (m : meta)
  | json_dumps_features (s : gmap string (num F))
  | zscore_explanation (z_score threshold : F)
  | headshot_explanation (headshot_ratio : F).
Arguments json_dumps_metadata {F} m.
Arguments json_dumps_features {F} s.
Arguments zscore_explanation {F} z_score threshold.
Arguments headshot_explanation {F} headshot_ratio.

(** An attribute of a DynamoDB item.  A number written as
    [Decimal(str(x))] reads back through [float()] as [x], so a stored
    float is kept as the float ([ANum]); an integral number is [AInt]. *)
Inductive attr (F : Type) :=
  | AStr (s : string)
  | AText (t : text F)
  | AInt (z : Z)
  | ANum (x : F)
  | ANull.
Arguments AStr {F} s.
Arguments AText {F} t.
Arguments AInt {F} z.
Arguments ANum {F} x.
Arguments ANull {F}.

Abbreviation item F := (gmap string (attr F)).

(** The feature dictionary built by [extract_features]; all eleven keys
    are always set. *)
Record features (F : Type) := {
  totalShots : Z;
  totalHits : Z;
  totalHeadshots : Z;
  totalKills : Z;
  accuracy : F;
  headshotRatio : F;
  accuracySampleCount : Z;
  accuracyMean : F;
  accuracyM2 : F;
  accuracyStdDev : F;
  risk_score : F
}.
Arguments totalShots {F} _.
Arguments totalHits {F} _.
Arguments totalHeadshots {F} _.
Arguments totalKills {F} _.
Arguments accuracy {F} _.
Arguments headshotRatio {F} _.
Arguments accuracySampleCount {F} _.
Arguments accuracyMean {F} _.
Arguments accuracyM2 {F} _.
Arguments accuracyStdDev {F} _.
Arguments risk_score {F} _.

(** The local counters of [extract_features].  ([batch_shots],
    [batch_hits], [batch_headshots] receive the same additions and are
    never read.) *)
Record counters := {
  shots_fired : Z;
  shots_hit : Z;
  headshots : Z;
  kills : Z
}.

Record scan_state := {
  st_heap : heap;
  st_counts : counters;
  st_interesting : list loc
}.

Definition add_kill (c : counters) : counters :=
  {| shots_fired := shots_fired c; shots_hit := shots_hit c;
     headshots := headshots c; kills := kills c + 1 |}.

Definition add_shots (c : counters) (evt_shots evt_hits evt_headshots : Z) : counters :=
  {| shots_fired := shots_fired c + evt_shots;
     shots_hit := shots_hit c + evt_hits;
     headshots := headshots c + evt_headshots;
     kills := kills c |}.

(** [interesting_events.append(evt)] *)
Definition append_interesting (st : scan_state) (l : loc) : scan_state :=
  {| st_heap := st_heap st; st_counts := st_counts st;
     st_interesting := st_interesting st ++ [l] |}.

(** [evt['_interesting_reason'] = r; interesting_events.append(evt)] *)
Definition tag_interesting (st : scan_state) (l : loc) (r : reason) : scan_state :=
  {| st_heap := heap_set_reason (st_heap st) l r; st_counts := st_counts st;
     st_interesting := st_interesting st ++ [l] |}.

Definition with_counts (st : scan_state) (c : counters) : scan_state :=
  {| st_heap := st_heap st; st_counts := c; st_interesting := st_interesting st |}.

(** [metadata.get(key, dflt)]: an [AttributeError] unless [metadata] is a
    mapping. *)
Definition meta_get (m : meta) (key : string) (dflt : jval) : result jval :=
  match m with
  | MDict d => Ok (default dflt (d !! key))
  | _ => Raise AttributeError
  end.

(** Integer arithmetic and comparison on a metadata value: a [TypeError]
    on a string or on null. *)
Definition as_int (v : jval) : result Z :=
  match v with JInt z => Ok z | _ => Raise TypeError end.

(** A detection dictionary of [run_detection]. *)
Record detection (F : Type) := {
  d_playerId : string;
  d_detectorType : string;
  d_score : F;
  d_threshold : F;
  d_features : gmap string (num F);
  d_explanation : text F
}.
Arguments d_playerId {F} _.
Arguments d_detectorType {F} _.
Arguments d_score {F} _.
Arguments d_threshold {F} _.
Arguments d_features {F} _.
Arguments d_explanation {F} _.

(** ** The store and the environment of a request *)

(** A call made to DynamoDB, logged whether or not it raises. *)
Inductive call :=
  | get_item (table pk sk : string)
  | put_item (table pk sk : string).

Record store (F : Type) := {
  players_table : gmap (string * string) (item F);
  events_table : list (item F);
  detections_table : list (item F);
  calls : list call
}.
Arguments players_table {F} _.
Arguments events_table {F} _.
Arguments detections_table {F} _.
Arguments calls {F} _.

(** What a request takes from outside: the clock ([time.time()] in
    milliseconds and in seconds, read as one instant), the UUIDs drawn,
    the measured processing time, and which store calls raise. *)
Record env (F : Type) := {
  now_ms : Z;
  now_s : Z;
  request_uuid : string;
  event_uuid : nat -> string;
  detection_uuid : nat -> string;
  processing_time_ms : F;
  get_item_raises : string -> string -> bool;
  put_item_raises : string -> string -> bool;
  batch_put_raises : string -> nat -> bool
}.
Arguments now_ms {F} _.
Arguments now_s {F} _.
Arguments request_uuid {F} _.
Arguments event_uuid {F} _ _.
Arguments detection_uuid {F} _ _.
Arguments processing_time_ms {F} _.
Arguments get_item_raises {F} _ _ _.
Arguments put_item_raises {F} _ _ _.
Arguments batch_put_raises {F} _ _ _.

(** A value of the response body; [RExn e] is the text [str(e)] of an
    exception. *)
Inductive rval (F : Type) :=
  | RBool (b : bool)
  | RInt (z : Z)
  | RNum (x : F)
  | RStr (s : string)
  | RExn (e : exn).
Arguments RBool {F} b.
Arguments RInt {F} z.
Arguments RNum {F} x.
Arguments RStr {F} s.
Arguments RExn {F} e.

(** The API Gateway response; [body] is kept as the dictionary that
    [json.dumps] encodes. *)
Record response (F : Type) := {
  statusCode : Z;
  headers : gmap string string;
  body : gmap string (rval F)
}.
Arguments statusCode {F} _.
Arguments headers {F} _.
Arguments body {F} _.

(** The request body: JSON text, or an object with an optional [events]
    list. *)
Inductive request_body :=
  | BodyStr (s : string)
  | BodyObj (events : option (list event)).

(** What [json.loads] makes of a body text: an object with an optional
    [events] list, or a value of another JSON kind. *)
Inductive body_json :=
  | JObject (events : option (list event))
  | JOther.

Section Model.
Context `{PyFloat F}.

(** [json.loads] on a metadata string: the decoded value (of any JSON
    kind), or the exception raised: [JSONDecodeError] on a text that is
    not JSON, and also [RecursionError] on a text nested too deeply and
    [ValueError] on an integer literal with too many digits. *)
Variable json_loads : string -> result meta.

Variable cfg : config F.

(** *** [extract_features] *)

(** An int operand of a float operation is converted by [float(i)], which
    raises when [i] is too large for a double. *)
Definition float_of_int (i : Z) : result F :=
  if fis_finite (of_int i) then Ok (of_int i) else Raise OverflowError.

(** [i / j] on two ints, [j <> 0]: the rounded quotient, unless it is too
    large for a double. *)
Definition int_div (i j : Z) : result F :=
  if fis_finite (int_truediv i j) then Ok (int_truediv i j) else Raise OverflowError.

(** Lines 345-351: a string is decoded whatever the action type; the
    handler of the [try] catches [JSONDecodeError] and [TypeError] only. *)
Definition decode_metadata (evt : event) : result meta :=
  let metadata := default (MDict ∅) (ev_metadata evt) in
  match metadata with
  | MStr s =>
      match json_loads s with
      | Ok decoded => Ok decoded
      | Raise JSONDecodeError | Raise TypeError => Ok (MDict ∅)
      | Raise e => Raise e
      end
  | _ => Ok metadata
  end.

(** One iteration of the loop over [events] (lines 343-389).  Every
    raise of an iteration comes before its write to the event. *)
Definition scan_event (st : scan_state) (l : loc) : result scan_state :=
  let evt := heap_get (st_heap st) l in
  let action_type := default "" (ev_actionType evt) in
  metadata ← decode_metadata evt;
  if bool_decide (action_type ∈ ALWAYS_STORE_EVENTS) then
    let st := append_interesting st l in
    if String.eqb action_type "PLAYER_KILLED"
    then Ok (with_counts st (add_kill (st_counts st)))
    else Ok st
  else if String.eqb action_type "WEAPON_FIRED" then
    v_shots ← meta_get metadata "shots" (JInt 1);
    v_hits ← meta_get metadata "hits" (JInt 0);
    v_headshots ← meta_get metadata "headshots" (JInt 0);
    evt_shots ← as_int v_shots;
    evt_hits ← as_int v_hits;
    evt_headshots ← as_int v_headshots;
    let st := with_counts st (add_shots (st_counts st) evt_shots evt_hits evt_headshots) in
    if MIN_SHOTS_FOR_INTERESTING cfg <=? evt_shots then
      evt_accuracy ←
        (if 0 <? evt_shots then int_div evt_hits evt_shots else Ok (of_int 0));
      evt_hs_ratio ← int_div evt_headshots (Z.max evt_hits 1);
      if fle (ACCURACY_INTERESTING_THRESHOLD cfg) evt_accuracy then
        Ok (tag_interesting st l (high_accuracy evt_hits evt_shots))
      else if fle (HEADSHOT_INTERESTING_THRESHOLD cfg) evt_hs_ratio then
        Ok (tag_interesting st l (high_headshot evt_headshots evt_hits))
      else Ok st
    else Ok st
  else if String.eqb action_type "PLAYER_ATTACK" then
    v_damage ← meta_get metadata "damage" (JInt 0);
    damage ← as_int v_damage;
    if HIGH_DAMAGE_THRESHOLD <? damage then
      Ok (tag_interesting st l (high_damage damage))
    else Ok st
  else Ok st.

Lemma float_of_int_ok (i : Z) (x : F) : float_of_int i = Ok x -> x = of_int i.
Proof. unfold float_of_int. destruct (fis_finite _); congruence. Qed.

Lemma int_div_ok (i j : Z) (x : F) : int_div i j = Ok x -> x = int_truediv i j.
Proof. unfold int_div. destruct (fis_finite _); congruence. Qed.

(** The loop: the state reached, and the exception that ended it if
    one did. *)
Fixpoint scan_events (st : scan_state) (events : list loc) : scan_state * option exn :=
  match events with
  | [] => (st, None)
  | l :: rest =>
      match scan_event st l with
      | Ok st' => scan_events st' rest
      | Raise e => (st, Some e)
      end
  end.

(** [float(v)], [int(x)] for a float and [int(v)] on a value read from
    an item, whose numbers are [Decimal]s.  The text of a string is not
    parsed: a string attribute raises here, as Python does on a text that
    is not a numeral; a store that holds a numeral as a string under a
    numeric attribute is outside the embedding. *)
Definition py_float (v : attr F) : result F :=
  match v with
  | AInt z => Ok (of_int z)
  | ANum x => Ok x
  | AStr _ | AText _ => Raise ValueError
  | ANull => Raise TypeError
  end.

Definition int_of_float (x : F) : result Z :=
  match to_int x with
  | Some z => Ok z
  | None => Raise (if fis_nan x then ValueError else OverflowError)
  end.

Definition py_int (v : attr F) : result Z :=
  match v with
  | AInt z => Ok z
  | ANum x => int_of_float x
  | AStr _ | AText _ => Raise ValueError
  | ANull => Raise TypeError
  end.

(** [existing_state.get(key, dflt)] *)
Definition state_get (existing_state : item F) (key : string) (dflt : attr F) : attr F :=
  default dflt (existing_state !! key).

(** [max(x, 1)] and [min(x, 100.0)] as the built-ins compute them: the
    first argument is kept unless the second beats it. *)
Definition max_1 (x : F) : F := if flt x (of_int 1) then of_int 1 else x.
Definition min_100 (x : F) : F := if flt (of_int 100) x then of_int 100 else x.

(** Lines 413-434: the four Welford fields. *)
Definition welford (existing_state : item F) (c : counters) : result (Z * F * F * F) :=
  if 0 <? shots_fired c then
    session_accuracy ← int_div (shots_hit c) (shots_fired c);
    n ← py_float (state_get existing_state "accuracySampleCount" (AInt 0));
    mean ← py_float (state_get existing_state "accuracyMean" (ANum (of_int 0)));
    m2 ← py_float (state_get existing_state "accuracyM2" (ANum (of_int 0)));
    let n := fadd n (of_int 1) in
    let delta := fsub session_accuracy mean in
    if fis_zero n then Raise ZeroDivisionError else
    let mean := fadd mean (fdiv delta n) in
    let delta2 := fsub session_accuracy mean in
    let m2 := fadd m2 (fmul delta delta2) in
    count ← int_of_float n;
    Ok (count, mean, m2,
        if flt (of_int 1) n then fpow_half (fdiv m2 n) else of_int 0)
  else
    count ← py_int (state_get existing_state "accuracySampleCount" (AInt 0));
    mean ← py_float (state_get existing_state "accuracyMean" (ANum (of_int 0)));
    m2 ← py_float (state_get existing_state "accuracyM2" (ANum (of_int 0)));
    std_dev ← py_float (state_get existing_state "accuracyStdDev" (ANum (of_int 0)));
    Ok (count, mean, m2, std_dev).

(** Lines 436-443. *)
Definition risk (accuracy headshotRatio : F) : F :=
  let risk_score := of_int 0 in
  let risk_score :=
    if flt ACCURACY_RISK_THRESHOLD accuracy
    then fadd risk_score (fmul (fsub accuracy ACCURACY_RISK_THRESHOLD) (of_int 100))
    else risk_score in
  let risk_score :=
    if flt HEADSHOT_RISK_THRESHOLD headshotRatio
    then fadd risk_score (fmul (fsub headshotRatio HEADSHOT_RISK_THRESHOLD) (of_int 100))
    else risk_score in
  min_100 risk_score.

(** Lines 394-445: the merge of the local counters into the prior
    state. *)
Definition merge_features (existing_state : item F) (c : counters) : result (features F) :=
  existing_shots ← py_float (state_get existing_state "totalShots" (AInt 0));
  existing_hits ← py_float (state_get existing_state "totalHits" (AInt 0));
  batch_shots ← float_of_int (shots_fired c);
  let total_shots := fadd existing_shots batch_shots in
  batch_hits ← float_of_int (shots_hit c);
  let total_hits := fadd existing_hits batch_hits in
  f_totalShots ← int_of_float total_shots;
  f_totalHits ← int_of_float total_hits;
  prior_headshots ← py_int (state_get existing_state "totalHeadshots" (AInt 0));
  let f_totalHeadshots := prior_headshots + headshots c in
  prior_kills ← py_int (state_get existing_state "totalKills" (AInt 0));
  let f_totalKills := prior_kills + kills c in
  ratios ←
    (if flt (of_int 0) total_shots then
       all_headshots ← float_of_int f_totalHeadshots;
       Ok (fdiv total_hits total_shots, fdiv all_headshots (max_1 total_hits))
     else Ok (of_int 0, of_int 0));
  let '(f_accuracy, f_headshotRatio) := ratios in
  w ← welford existing_state c;
  let '(count, mean, m2, std_dev) := w in
  Ok {| totalShots := f_totalShots;
        totalHits := f_totalHits;
        totalHeadshots := f_totalHeadshots;
        totalKills := f_totalKills;
        accuracy := f_accuracy;
        headshotRatio := f_headshotRatio;
        accuracySampleCount := count;
        accuracyMean := mean;
        accuracyM2 := m2;
        accuracyStdDev := std_dev;
        risk_score := risk f_accuracy f_headshotRatio |}.

Definition no_counts : counters :=
  {| shots_fired := 0; shots_hit := 0; headshots := 0; kills := 0 |}.

(** [extract_features(events, existing_state)] on the heap [h]: the heap
    it leaves, and what it returns or raises. *)
Definition extract_features (h : heap) (events : list loc) (existing_state : item F)
  : heap * result (features F * list loc) :=
  let '(st, raised) :=
    scan_events {| st_heap := h; st_counts := no_counts; st_interesting := [] |} events in
  match raised with
  | Some e => (st_heap st, Raise e)
  | None =>
      (st_heap st,
       f ← merge_features existing_state (st_counts st);
       Ok (f, st_interesting st))
  end.

(** *** [run_detection] *)

(** The detections of one player (the body of the loop, lines 473-515). *)
Definition detect_player (player_id : string) (f : features F) : list (detection F) :=
  let sample_count := accuracySampleCount f in
  if sample_count <? MIN_SAMPLES_FOR_DETECTION cfg then []
  else
    let mean := accuracyMean f in
    let std_dev := accuracyStdDev f in
    let current := accuracy f in
    let zscore :=
      if flt (dec 1 100) std_dev then
        let z_score := fdiv (fsub current mean) std_dev in
        if flt (ZSCORE_THRESHOLD cfg) (fabs z_score) then
          [ {| d_playerId := player_id;
               d_detectorType := "ZSCORE_ACCURACY";
               d_score := fabs z_score;
               d_threshold := ZSCORE_THRESHOLD cfg;
               d_features :=
                 {[ "accuracy" := NFloat current; "mean" := NFloat mean;
                    "stdDev" := NFloat std_dev; "zScore" := NFloat z_score ]};
               d_explanation := zscore_explanation z_score (ZSCORE_THRESHOLD cfg) |} ]
        else []
      else [] in
    let headshot_ratio := headshotRatio f in
    let headshot :=
      if flt (dec 5 10) headshot_ratio then
        [ {| d_playerId := player_id;
             d_detectorType := "THRESHOLD_HEADSHOT";
             d_score := fmul headshot_ratio (of_int 100);
             d_threshold := of_int 50;
             d_features :=
               {[ "headshotRatio" := NFloat headshot_ratio;
                  "totalHeadshots" := NInt (totalHeadshots f);
                  "totalHits" := NInt (totalHits f) ]};
             d_explanation := headshot_explanation headshot_ratio |} ]
      else [] in
    zscore ++ headshot.

(** [player_updates] is a dictionary in insertion order: an association
    list with distinct keys. *)
Definition run_detection (player_updates : list (string * features F)) (owner : string)
  : list (detection F) :=
  flat_map (fun '(player_id, f) => detect_player player_id f) player_updates.

(** *** [update_player_states] *)

(** [player_events[player_id].append(evt)] on the [defaultdict], whose keys
    keep the order of first insertion. *)
Fixpoint group_append (player_id : string) (l : loc) (groups : list (string * list loc))
  : list (string * list loc) :=
  match groups with
  | [] => [(player_id, [l])]
  | (p, ls) :: rest =>
      if decide (p = player_id) then (p, ls ++ [l]) :: rest
      else (p, ls) :: group_append player_id l rest
  end.

(** Lines 244-247. *)
Definition group_by_player (h : heap) (events : list loc) : list (string * list loc) :=
  fold_left
    (fun groups l => group_append (default "unknown" (ev_playerId (heap_get h l))) l groups)
    events [].

Definition log_call (st : store F) (c : call) : store F :=
  {| players_table := players_table st; events_table := events_table st;
     detections_table := detections_table st; calls := calls st ++ [c] |}.

Definition put_player (st : store F) (pk sk : string) (it : item F) : store F :=
  {| players_table := <[(pk, sk) := it]> (players_table st);
     events_table := events_table st;
     detections_table := detections_table st; calls := calls st |}.

Definition profile_item (e : env F) (owner player_id : string) (existing : item F)
    (eventCount : Z) (f : features F) : item F :=
  list_to_map
    [ ("pk", AStr (owner +:+ "#" +:+ player_id));
      ("sk", AStr "PROFILE");
      ("owner", AStr owner);
      ("playerId", AStr player_id);
      ("lastSeen", AInt (now_ms e));
      ("firstSeen", state_get existing "firstSeen" (AInt (now_ms e)));
      ("eventCount", AInt eventCount);
      ("riskScore", ANum (risk_score f));
      ("status", state_get existing "status" (AStr "MONITOR")) ].

(** The feature dictionary as a mapping, floats as [Decimal]. *)
Definition features_attrs (f : features F) : list (string * attr F) :=
  [ ("totalShots", AInt (totalShots f));
    ("totalHits", AInt (totalHits f));
    ("totalHeadshots", AInt (totalHeadshots f));
    ("totalKills", AInt (totalKills f));
    ("accuracy", ANum (accuracy f));
    ("headshotRatio", ANum (headshotRatio f));
    ("accuracySampleCount", AInt (accuracySampleCount f));
    ("accuracyMean", ANum (accuracyMean f));
    ("accuracyM2", ANum (accuracyM2 f));
    ("accuracyStdDev", ANum (accuracyStdDev f));
    ("risk_score", ANum (risk_score f)) ].

Definition features_item (e : env F) (owner player_id : string) (f : features F) : item F :=
  list_to_map
    ([ ("pk", AStr (owner +:+ "#" +:+ player_id));
       ("sk", AStr "FEATURES");
       ("owner", AStr owner);
       ("playerId", AStr player_id);
       ("updatedAt", AInt (now_ms e)) ]
     ++ features_attrs f).

(** The state of the loop over the players. *)
Record players_state := {
  ps_store : store F;
  ps_heap : heap;
  ps_updates : list (string * features F);
  ps_interesting : list loc
}.

(** One iteration of the loop over [player_events.items()] (lines
    252-295).  Whatever raises inside the [try] ends the iteration; the
    writes made before it stay. *)
Definition update_player (e : env F) (owner : string) (ps : players_state)
    (group : string * list loc) : players_state :=
  let '(player_id, p_events) := group in
  let pk := owner +:+ "#" +:+ player_id in
  let st := log_call (ps_store ps) (get_item "players" pk "PROFILE") in
  if get_item_raises e pk "PROFILE" then
    {| ps_store := st; ps_heap := ps_heap ps;
       ps_updates := ps_updates ps; ps_interesting := ps_interesting ps |}
  else
    let existing := default ∅ (players_table st !! (pk, "PROFILE")) in
    let '(h, r) := extract_features (ps_heap ps) p_events existing in
    match r with
    | Raise _ =>
        {| ps_store := st; ps_heap := h;
           ps_updates := ps_updates ps; ps_interesting := ps_interesting ps |}
    | Ok (f, player_interesting) =>
        let interesting := ps_interesting ps ++ player_interesting in
        match py_int (state_get existing "eventCount" (AInt 0)) with
        | Raise _ =>
            {| ps_store := st; ps_heap := h;
               ps_updates := ps_updates ps; ps_interesting := interesting |}
        | Ok count =>
            let profile :=
              profile_item e owner player_id existing
                (count + Z.of_nat (length p_events)) f in
            let st := log_call st (put_item "players" pk "PROFILE") in
            if put_item_raises e pk "PROFILE" then
              {| ps_store := st; ps_heap := h;
                 ps_updates := ps_updates ps; ps_interesting := interesting |}
            else
              let st := put_player st pk "PROFILE" profile in
              let st := log_call st (put_item "players" pk "FEATURES") in
              if put_item_raises e pk "FEATURES" then
                {| ps_store := st; ps_heap := h;
                   ps_updates := ps_updates ps; ps_interesting := interesting |}
              else
                let st := put_player st pk "FEATURES" (features_item e owner player_id f) in
                {| ps_store := st; ps_heap := h;
                   ps_updates := ps_updates ps ++ [(player_id, f)];
                   ps_interesting := interesting |}
        end
    end.

Definition update_player_states (e : env F) (st : store F) (h : heap)
    (events : list loc) (owner : string) : players_state :=
  fold_left (update_player e owner) (group_by_player h events)
    {| ps_store := st; ps_heap := h; ps_updates := []; ps_interesting := [] |}.

(** *** [store_events] and [store_detections] *)

Definition event_item (e : env F) (owner : string) (i : nat) (evt : event) : item F :=
  let event_id :=
    match ev_eventId evt with
    | Some s => if String.eqb s "" then event_uuid e i else s
    | None => event_uuid e i
    end in
  let player_id := default "unknown" (ev_playerId evt) in
  let timestamp := default (now_ms e) (ev_timestamp evt) in
  let action_type := default "UNKNOWN" (ev_actionType evt) in
  list_to_map
    [ ("pk", AStr (owner +:+ "#" +:+ player_id));
      ("sk", AStr (pretty timestamp +:+ "#" +:+ event_id));
      ("eventId", AStr event_id);
      ("owner", AStr owner);
      ("playerId", AStr player_id);
      ("actionType", AStr action_type);
      ("timestamp", AInt timestamp);
      ("sessionId", match ev_sessionId evt with Some s => AStr s | None => ANull end);
      ("metadata", AText (json_dumps_metadata (default (MDict ∅) (ev_metadata evt))));
      ("ttl", AInt (now_s e + EVENT_TTL_DAYS cfg * 24 * 60 * 60)) ].

Definition attr_str (a : attr F) : string :=
  match a with AStr s => s | _ => "" end.

(** [batch.put_item(Item=item)] in [store_events]: the call is logged,
    and the item is stored and counted unless the oracle makes the call
    raise.  (A failure of the batch writer's final flush is outside the
    model.) *)
Definition put_event (e : env F) (i : nat) (it : item F) (acc : store F * Z)
  : store F * Z :=
  let '(st, stored) := acc in
  let st := log_call st
    (put_item "events" (attr_str (default ANull (it !! "pk")))
                       (attr_str (default ANull (it !! "sk")))) in
  if batch_put_raises e "events" i then (st, stored)
  else
    ({| players_table := players_table st;
        events_table := events_table st ++ [it];
        detections_table := detections_table st; calls := calls st |}, stored + 1).

(** The same in [store_detections]. *)
Definition put_detection (e : env F) (i : nat) (it : item F) (acc : store F * Z)
  : store F * Z :=
  let '(st, stored) := acc in
  let st := log_call st
    (put_item "detections" (attr_str (default ANull (it !! "pk")))
                           (attr_str (default ANull (it !! "sk")))) in
  if batch_put_raises e "detections" i then (st, stored)
  else
    ({| players_table := players_table st; events_table := events_table st;
        detections_table := detections_table st ++ [it]; calls := calls st |},
     stored + 1).

Fixpoint store_events_from (e : env F) (h : heap) (owner : string) (i : nat)
    (events : list loc) (acc : store F * Z) : store F * Z :=
  match events with
  | [] => acc
  | l :: rest =>
      store_events_from e h owner (S i) rest
        (put_event e i (event_item e owner i (heap_get h l)) acc)
  end.

Definition store_events (e : env F) (st : store F) (h : heap) (events : list loc)
    (owner : string) : store F * Z :=
  store_events_from e h owner 0%nat events (st, 0).

Definition detection_item (e : env F) (owner : string) (i : nat) (d : detection F) : item F :=
  let detection_id := detection_uuid e i in
  let player_id := d_playerId d in
  list_to_map
    [ ("pk", AStr (owner +:+ "#" +:+ player_id));
      ("sk", AStr (pretty (now_ms e) +:+ "#" +:+ detection_id));
      ("detectionId", AStr detection_id);
      ("owner", AStr owner);
      ("playerId", AStr player_id);
      ("detectorType", AStr (d_detectorType d));
      ("score", ANum (d_score d));
      ("threshold", ANum (d_threshold d));
      ("features", AText (json_dumps_features (d_features d)));
      ("explanation", AText (d_explanation d));
      ("status", AStr "OPEN");
      ("createdAt", AInt (now_ms e));
      ("ttl", AInt (now_s e + EVENT_TTL_DAYS cfg * 24 * 60 * 60)) ].

Fixpoint store_detections_from (e : env F) (owner : string) (i : nat)
    (detections : list (detection F)) (acc : store F * Z) : store F * Z :=
  match detections with
  | [] => acc
  | d :: rest =>
      store_detections_from e owner (S i) rest
        (put_detection e i (detection_item e owner i d) acc)
  end.

Definition store_detections (e : env F) (st : store F)
    (detections : list (detection F)) (owner : string) : store F * Z :=
  store_detections_from e owner 0%nat detections (st, 0).

(** *** [create_response] and [lambda_handler] *)

Definition create_response (status_code : Z) (b : gmap string (rval F)) : response F :=
  {| statusCode := status_code;
     headers := {[ "Content-Type" := "application/json";
                   "Access-Control-Allow-Origin" := "*" ]};
     body := b |}.

(** Lines 136-139: one step of the loop that adds the events of the
    players named by a detection. *)
Definition feedback (h : heap) (detection_player_ids : gset string)
    (interesting_events : list loc) (l : loc) : list loc :=
  match ev_playerId (heap_get h l) with
  | Some player_id =>
      if bool_decide (player_id ∈ detection_player_ids)
         && negb (event_in h l interesting_events)
      then interesting_events ++ [l]
      else interesting_events
  | None => interesting_events
  end.

(** What lines 123-154 compute for a non-empty batch. *)
Record outcome := {
  out_heap : heap;
  out_player_updates : list (string * features F);
  out_detections : list (detection F);
  out_interesting : list loc;
  out_events_stored : Z;
  out_detections_stored : Z;
  out_store : store F
}.

(** The batch allocates its events in order: the heap is the list itself
    and [events] is the list of its positions. *)
Definition process_events (e : env F) (st : store F) (batch : list event) : outcome :=
  let h := batch in
  let events := seq 0 (length batch) in
  let owner := default "unknown" (ev_owner (heap_get h 0%nat)) in
  let ps := update_player_states e st h events owner in
  let detections := run_detection (ps_updates ps) owner in
  let detection_player_ids : gset string := list_to_set (d_playerId <$> detections) in
  let interesting_events :=
    fold_left (feedback (ps_heap ps) detection_player_ids) events (ps_interesting ps) in
  let '(st, events_stored) :=
    match interesting_events with
    | [] => (ps_store ps, 0)
    | _ => store_events e (ps_store ps) (ps_heap ps) interesting_events owner
    end in
  let '(st, detections_stored) :=
    match detections with
    | [] => (st, 0)
    | _ => store_detections e st detections owner
    end in
  {| out_heap := ps_heap ps;
     out_player_updates := ps_updates ps;
     out_detections := detections;
     out_interesting := interesting_events;
     out_events_stored := events_stored;
     out_detections_stored := detections_stored;
     out_store := st |}.

(** [json.loads] on the request body: the decoded value, or the
    exception raised. *)
Variable json_loads_body : string -> result body_json.

(** [context] is the request id of the Lambda context, if there is one.
    A [JSONDecodeError] of the body is answered 400; any other exception
    of lines 109-113 (another raise of [json.loads], or the
    [AttributeError] of [body.get] on a value that is not an object) is
    answered 500 by the branch [except Exception].  On the typed events of
    this model every raise of lines 123-169 is caught per player or per
    item before it reaches the handler. *)
Definition lambda_handler (e : env F) (request : request_body) (context : option string)
    (st : store F) : response F * store F :=
  let request_id := default (request_uuid e) context in
  let parsed :=
    match request with
    | BodyStr s =>
        match json_loads_body s with
        | Ok (JObject evs) => Ok evs
        | Ok JOther => Raise AttributeError
        | Raise ex => Raise ex
        end
    | BodyObj evs => Ok evs
    end in
  match parsed with
  | Raise JSONDecodeError =>
      (create_response 400
         {[ "success" := RBool false;
            "error" := RStr "Invalid JSON in request body";
            "requestId" := RStr request_id ]}, st)
  | Raise ex =>
      (create_response 500
         {[ "success" := RBool false;
            "error" := RExn ex;
            "requestId" := RStr request_id ]}, st)
  | Ok evs =>
      let events := default [] evs in
      match events with
      | [] =>
          (create_response 200
             {[ "success" := RBool true;
                "eventsProcessed" := RInt 0;
                "detectionsCreated" := RInt 0;
                "requestId" := RStr request_id ]}, st)
      | _ =>
          let o := process_events e st events in
          let events_skipped :=
            Z.of_nat (length events) - Z.of_nat (length (out_interesting o)) in
          (create_response 200
             {[ "success" := RBool true;
                "eventsReceived" := RInt (Z.of_nat (length events));
                "eventsStored" := RInt (out_events_stored o);
                "eventsSkipped" := RInt events_skipped;
                "playersUpdated" := RInt (Z.of_nat (length (out_player_updates o)));
                "detectionsCreated" := RInt (out_detections_stored o);
                "processingTimeMs" := RNum (processing_time_ms e);
                "requestId" := RStr request_id ]}, out_store o)
      end
  end.

End Model.

(** * Properties *)

(** ** A quiet environment and an empty store, for closed examples *)

Definition quiet_env : env float := {|
  now_ms := 1700000000000;
  now_s := 1700000000;
  request_uuid := "req-0";
  event_uuid := fun i => "evt-" +:+ pretty i;
  detection_uuid := fun i => "det-" +:+ pretty i;
  processing_time_ms := 0%float;
  get_item_raises := fun _ _ => false;
  put_item_raises := fun _ _ => false;
  batch_put_raises := fun _ _ => false
|}.

Definition empty_store {F} : store F :=
  {| players_table := ∅; events_table := []; detections_table := []; calls := [] |}.

(** The default thresholds as doubles. *)
Definition config64 : config float := default_config.

(** A decoder that rejects every text as not being JSON, and one that
    raises [ex] on the text [bad] and rejects every other text. *)
Definition rejects {A} : string -> result A := fun _ => Raise JSONDecodeError.

Definition raises_on {A} (bad : string) (ex : exn) : string -> result A :=
  fun s => if String.eqb s bad then Raise ex else Raise JSONDecodeError.

(** An event of the tenant ["t1"]. *)
Definition make_event (player_id action_type : string) (m : option meta) : event :=
  {| ev_eventId := None; ev_owner := Some "t1"; ev_playerId := Some player_id;
     ev_actionType := Some action_type; ev_timestamp := None; ev_sessionId := None;
     ev_metadata := m; ev_interesting_reason := None |}.

Definition weapon_fired (player_id : string) (shots hits : Z) : event :=
  make_event player_id "WEAPON_FIRED"
    (Some (MDict {[ "shots" := JInt shots; "hits" := JInt hits ]})).

(** ** The empty batch *)

Section EmptyBatch.
Context `{PyFloat F}.
Variable json_loads : string -> result meta.
Variable json_loads_body : string -> result body_json.
Variable cfg : config F.

(** C2 (as amended).  On the body [{events: []}] the handler answers 200
    with [success], [eventsProcessed = 0], [detectionsCreated = 0] and the
    request id, and nothing else; the store it returns is the store it was
    given, call log included, so no read and no write was made. *)
Theorem empty_batch_response (e : env F) (context : option string) (st : store F) :
  lambda_handler json_loads cfg json_loads_body e (BodyObj (Some [])) context st
  = (create_response 200
       {[ "success" := RBool true;
          "eventsProcessed" := RInt 0;
          "detectionsCreated" := RInt 0;
          "requestId" := RStr (default (request_uuid e) context) ]},
     st)
  /\ dom (body (lambda_handler json_loads cfg json_loads_body e
                  (BodyObj (Some [])) context st).1)
     = ({[ "success"; "eventsProcessed"; "detectionsCreated"; "requestId" ]} : gset string).
Proof.
  split; [reflexivity|].
  cbn. rewrite !dom_insert_L, dom_singleton_L. set_solver.
Qed.

End EmptyBatch.

(** C2, as stated, fails: the response to the empty batch carries none of
    [eventsReceived], [eventsStored], [playersUpdated]. *)
Lemma empty_batch_lacks_counters :
  let r := (lambda_handler rejects config64 rejects quiet_env
              (BodyObj (Some [])) None empty_store).1 in
  statusCode r = 200
  /\ body r !! "eventsReceived" = None
  /\ body r !! "eventsStored" = None
  /\ body r !! "playersUpdated" = None
  /\ body r !! "eventsProcessed" = Some (RInt 0)
  /\ body r !! "detectionsCreated" = Some (RInt 0).
Proof. vm_compute. repeat split; reflexivity. Qed.

(** ** The detector *)

Section Detector.
Context `{PyFloat F}.
Variable cfg : config F.

(** [z_score] of line 484. *)
Definition z_score_of (f : features F) : F :=
  fdiv (fsub (accuracy f) (accuracyMean f)) (accuracyStdDev f).

(** The dictionary appended at lines 487-499. *)
Definition zscore_detection (player_id : string) (f : features F) : detection F :=
  {| d_playerId := player_id;
     d_detectorType := "ZSCORE_ACCURACY";
     d_score := fabs (z_score_of f);
     d_threshold := ZSCORE_THRESHOLD cfg;
     d_features :=
       {[ "accuracy" := NFloat (accuracy f); "mean" := NFloat (accuracyMean f);
          "stdDev" := NFloat (accuracyStdDev f); "zScore" := NFloat (z_score_of f) ]};
     d_explanation := zscore_explanation (z_score_of f) (ZSCORE_THRESHOLD cfg) |}.

(** The dictionary appended at lines 504-515. *)
Definition headshot_detection (player_id : string) (f : features F) : detection F :=
  {| d_playerId := player_id;
     d_detectorType := "THRESHOLD_HEADSHOT";
     d_score := fmul (headshotRatio f) (of_int 100);
     d_threshold := of_int 50;
     d_features :=
       {[ "headshotRatio" := NFloat (headshotRatio f);
          "totalHeadshots" := NInt (totalHeadshots f);
          "totalHits" := NInt (totalHits f) ]};
     d_explanation := headshot_explanation (headshotRatio f) |}.

(** The three guards of the z-score rule and the two of the headshot rule. *)
Definition zscore_fires (f : features F) : bool :=
  (MIN_SAMPLES_FOR_DETECTION cfg <=? accuracySampleCount f)
  && flt (dec 1 100) (accuracyStdDev f)
  && flt (ZSCORE_THRESHOLD cfg) (fabs (z_score_of f)).

Definition headshot_fires (f : features F) : bool :=
  (MIN_SAMPLES_FOR_DETECTION cfg <=? accuracySampleCount f)
  && flt (dec 5 10) (headshotRatio f).

Lemma detect_player_eq (player_id : string) (f : features F) :
  detect_player cfg player_id f
  = (if zscore_fires f then [zscore_detection player_id f] else [])
    ++ (if headshot_fires f then [headshot_detection player_id f] else []).
Proof.
  unfold detect_player, zscore_fires, headshot_fires.
  rewrite (Z.leb_antisym (accuracySampleCount f)).
  destruct (accuracySampleCount f <? MIN_SAMPLES_FOR_DETECTION cfg); [reflexivity|].
  cbn [negb andb].
  fold (z_score_of f).
  destruct (flt (dec 1 100) (accuracyStdDev f)); cbn [andb]; [|reflexivity].
  destruct (flt (ZSCORE_THRESHOLD cfg) (fabs (z_score_of f))); reflexivity.
Qed.

Lemma elem_of_run_detection (player_updates : list (string * features F))
    (owner : string) (d : detection F) :
  d ∈ run_detection cfg player_updates owner
  <-> exists player_id f,
        (player_id, f) ∈ player_updates /\ d ∈ detect_player cfg player_id f.
Proof.
  unfold run_detection. rewrite list_elem_of_In, in_flat_map. split.
  - intros [[p f] [Hin Hd]]. exists p, f.
    rewrite !list_elem_of_In. auto.
  - intros (p & f & Hin & Hd). exists (p, f).
    rewrite <- !list_elem_of_In. auto.
Qed.

Lemma elem_of_detect_player (player_id : string) (f : features F) (d : detection F) :
  d ∈ detect_player cfg player_id f
  <-> (zscore_fires f = true /\ d = zscore_detection player_id f)
      \/ (headshot_fires f = true /\ d = headshot_detection player_id f).
Proof.
  rewrite detect_player_eq, elem_of_app.
  destruct (zscore_fires f), (headshot_fires f);
    rewrite ?list_elem_of_singleton, ?elem_of_nil; intuition congruence.
Qed.

(** C4.  A ZSCORE_ACCURACY detection is emitted for an updated feature
    vector exactly when the sample count reaches
    MIN_SAMPLES_FOR_DETECTION, the standard deviation exceeds 0.01 and
    |z| exceeds ZSCORE_THRESHOLD; its score is |z|, its snapshot keeps z
    with its sign; and a feature vector below the sample floor yields no
    detection of either type. *)
Theorem zscore_detection_iff (player_updates : list (string * features F))
    (owner : string) (d : detection F) :
  (d ∈ run_detection cfg player_updates owner /\ d_detectorType d = "ZSCORE_ACCURACY"
   <-> exists player_id f,
         (player_id, f) ∈ player_updates
         /\ MIN_SAMPLES_FOR_DETECTION cfg <= accuracySampleCount f
         /\ flt (dec 1 100) (accuracyStdDev f) = true
         /\ flt (ZSCORE_THRESHOLD cfg) (fabs (z_score_of f)) = true
         /\ d = zscore_detection player_id f)
  /\ (forall player_id f,
        d_playerId (zscore_detection player_id f) = player_id
        /\ d_score (zscore_detection player_id f) = fabs (z_score_of f)
        /\ d_threshold (zscore_detection player_id f) = ZSCORE_THRESHOLD cfg
        /\ d_features (zscore_detection player_id f) !! "zScore"
           = Some (NFloat (z_score_of f)))
  /\ (forall player_id f,
        accuracySampleCount f < MIN_SAMPLES_FOR_DETECTION cfg ->
        detect_player cfg player_id f = [])
  /\ (d ∈ run_detection cfg player_updates owner ->
      exists f, (d_playerId d, f) ∈ player_updates
                /\ MIN_SAMPLES_FOR_DETECTION cfg <= accuracySampleCount f).
Proof.
  split; [|split; [|split]].
  - rewrite elem_of_run_detection. split.
    + intros [(p & f & Hin & Hd) Hty]. exists p, f.
      apply elem_of_detect_player in Hd as [[Hz ->]|[_ ->]]; [|discriminate Hty].
      unfold zscore_fires in Hz. apply andb_prop in Hz as [Hz Hthr].
      apply andb_prop in Hz as [Hn Hsd]. apply Z.leb_le in Hn. auto.
    + intros (p & f & Hin & Hn & Hsd & Hthr & ->). split; [|reflexivity].
      exists p, f. split; [assumption|].
      apply elem_of_detect_player. left. split; [|reflexivity].
      unfold zscore_fires. apply Z.leb_le in Hn. rewrite Hn, Hsd, Hthr. reflexivity.
  - intros p f. repeat split. 
  - intros p f Hlt. unfold detect_player.
    apply Z.ltb_lt in Hlt. rewrite Hlt. reflexivity.
  - rewrite elem_of_run_detection. intros (p & f & Hin & Hd).
    apply elem_of_detect_player in Hd as [[Hz ->]|[Hz ->]]; exists f; cbn;
      (split; [assumption|]).
    + unfold zscore_fires in Hz. apply andb_prop in Hz as [Hz _].
      apply andb_prop in Hz as [Hn _]. apply Z.leb_le in Hn. assumption.
    + unfold headshot_fires in Hz. apply andb_prop in Hz as [Hn _].
      apply Z.leb_le in Hn. assumption.
Qed.

(** C5.  For a feature vector that meets the sample floor, a
    THRESHOLD_HEADSHOT detection is emitted exactly when headshotRatio
    exceeds 0.5; a ratio equal to 0.5 emits none; the score is the ratio
    times 100 and the threshold is 50.0; below the sample floor the
    headshot rule is not evaluated at all. *)
Theorem headshot_detection_iff (player_updates : list (string * features F))
    (owner : string) (d : detection F) :
  (d ∈ run_detection cfg player_updates owner /\ d_detectorType d = "THRESHOLD_HEADSHOT"
   <-> exists player_id f,
         (player_id, f) ∈ player_updates
         /\ MIN_SAMPLES_FOR_DETECTION cfg <= accuracySampleCount f
         /\ flt (dec 5 10) (headshotRatio f) = true
         /\ d = headshot_detection player_id f)
  /\ (forall player_id f,
        headshotRatio f = dec 5 10 ->
        headshot_detection player_id f ∉ detect_player cfg player_id f)
  /\ ((forall player_id f, (player_id, f) ∈ player_updates -> headshotRatio f = dec 5 10) ->
      d ∈ run_detection cfg player_updates owner ->
      d_detectorType d = "ZSCORE_ACCURACY")
  /\ (forall player_id f,
        d_playerId (headshot_detection player_id f) = player_id
        /\ d_score (headshot_detection player_id f) = fmul (headshotRatio f) (of_int 100)
        /\ d_threshold (headshot_detection player_id f) = of_int 50)
  /\ (forall player_id f,
        accuracySampleCount f < MIN_SAMPLES_FOR_DETECTION cfg ->
        headshot_detection player_id f ∉ detect_player cfg player_id f).
Proof.
  assert (Hboundary : forall f, headshotRatio f = dec 5 10 -> headshot_fires f = false).
  { intros f Hf. unfold headshot_fires. rewrite Hf, flt_irrefl.
    apply andb_false_r. }
  split; [|split; [|split; [|split]]].
  - rewrite elem_of_run_detection. split.
    + intros [(p & f & Hin & Hd) Hty]. exists p, f.
      apply elem_of_detect_player in Hd as [[_ ->]|[Hz ->]]; [discriminate Hty|].
      unfold headshot_fires in Hz. apply andb_prop in Hz as [Hn Hhs].
      apply Z.leb_le in Hn. auto.
    + intros (p & f & Hin & Hn & Hhs & ->). split; [|reflexivity].
      exists p, f. split; [assumption|].
      apply elem_of_detect_player. right. split; [|reflexivity].
      unfold headshot_fires. apply Z.leb_le in Hn. rewrite Hn, Hhs. reflexivity.
  - intros p f Hf Hd.
    apply elem_of_detect_player in Hd as [[_ Heq]|[Hz _]]; [discriminate Heq|].
    rewrite (Hboundary f Hf) in Hz. discriminate Hz.
  - intros Hall Hd. apply elem_of_run_detection in Hd as (p & f & Hin & Hd).
    apply elem_of_detect_player in Hd as [[_ ->]|[Hz _]]; [reflexivity|].
    rewrite (Hboundary f (Hall p f Hin)) in Hz. discriminate Hz.
  - intros p f. repeat split.
  - intros p f Hlt Hd. unfold detect_player in Hd.
    apply Z.ltb_lt in Hlt. rewrite Hlt in Hd. apply elem_of_nil in Hd. exact Hd.
Qed.

End Detector.

(** ** The loop of [extract_features] *)

(** An event with its ['_interesting_reason'] key removed: what the loop
    never changes. *)
Definition erase_reason (e : event) : event :=
  {| ev_eventId := ev_eventId e; ev_owner := ev_owner e;
     ev_playerId := ev_playerId e; ev_actionType := ev_actionType e;
     ev_timestamp := ev_timestamp e; ev_sessionId := ev_sessionId e;
     ev_metadata := ev_metadata e; ev_interesting_reason := None |}.

(** What one iteration decides for its event. *)
Inductive verdict :=
  | Always (killed : bool)
  | Fired (evt_shots evt_hits evt_headshots : Z) (tag : option reason)
  | Attack (tag : option reason)
  | Routine.

Definition verdict_tag (v : verdict) : option reason :=
  match v with
  | Fired _ _ _ tag | Attack tag => tag
  | Always _ | Routine => None
  end.

Definition verdict_keeps (v : verdict) : bool :=
  match v with
  | Always _ => true
  | Fired _ _ _ tag | Attack tag => bool_decide (is_Some tag)
  | Routine => false
  end.

Definition verdict_counts (v : verdict) (c : counters) : counters :=
  match v with
  | Always true => add_kill c
  | Fired s h hs _ => add_shots c s h hs
  | _ => c
  end.

Definition apply_verdict (st : scan_state) (l : loc) (v : verdict) : scan_state :=
  {| st_heap :=
       match verdict_tag v with
       | Some r => heap_set_reason (st_heap st) l r
       | None => st_heap st
       end;
     st_counts := verdict_counts v (st_counts st);
     st_interesting :=
       if verdict_keeps v then st_interesting st ++ [l] else st_interesting st |}.

Lemma erase_set_reason (r : reason) (e : event) :
  erase_reason (set_reason r e) = erase_reason e.
Proof. reflexivity. Qed.

Lemma set_reason_twice (r r' : reason) (e : event) :
  set_reason r (set_reason r' e) = set_reason r e.
Proof. reflexivity. Qed.

Lemma heap_get_set_reason (h : heap) (l l' : loc) (r : reason) :
  heap_get (heap_set_reason h l r) l'
  = if decide (l = l' /\ (l < length h)%nat)
    then set_reason r (heap_get h l) else heap_get h l'.
Proof.
  unfold heap_set_reason, heap_get.
  destruct (decide (l = l')) as [<-|Hne].
  - destruct (decide (l < length h)%nat) as [Hlt|Hge].
    + rewrite list_lookup_insert_eq by assumption.
      rewrite decide_True by auto. reflexivity.
    + rewrite list_insert_ge by lia.
      rewrite decide_False by tauto. reflexivity.
  - rewrite list_lookup_insert_ne by assumption.
    rewrite decide_False by tauto. reflexivity.
Qed.

Lemma length_heap_set_reason (h : heap) (l : loc) (r : reason) :
  length (heap_set_reason h l r) = length h.
Proof. apply length_insert. Qed.

Section Scan.
Context `{PyFloat F}.
Variable json_loads : string -> result meta.
Variable cfg : config F.

(** The decision of lines 344-389 as a function of the event alone. *)
Definition classify (evt : event) : result verdict :=
  let action_type := default "" (ev_actionType evt) in
  metadata ← decode_metadata json_loads evt;
  if bool_decide (action_type ∈ ALWAYS_STORE_EVENTS) then
    Ok (Always (String.eqb action_type "PLAYER_KILLED"))
  else if String.eqb action_type "WEAPON_FIRED" then
    v_shots ← meta_get metadata "shots" (JInt 1);
    v_hits ← meta_get metadata "hits" (JInt 0);
    v_headshots ← meta_get metadata "headshots" (JInt 0);
    evt_shots ← as_int v_shots;
    evt_hits ← as_int v_hits;
    evt_headshots ← as_int v_headshots;
    if MIN_SHOTS_FOR_INTERESTING cfg <=? evt_shots then
      evt_accuracy ←
        (if 0 <? evt_shots then int_div evt_hits evt_shots else Ok (of_int 0));
      evt_hs_ratio ← int_div evt_headshots (Z.max evt_hits 1);
      Ok (Fired evt_shots evt_hits evt_headshots
            (if fle (ACCURACY_INTERESTING_THRESHOLD cfg) evt_accuracy
             then Some (high_accuracy evt_hits evt_shots)
             else if fle (HEADSHOT_INTERESTING_THRESHOLD cfg) evt_hs_ratio
             then Some (high_headshot evt_headshots evt_hits)
             else None))
    else Ok (Fired evt_shots evt_hits evt_headshots None)
  else if String.eqb action_type "PLAYER_ATTACK" then
    v_damage ← meta_get metadata "damage" (JInt 0);
    damage ← as_int v_damage;
    Ok (Attack (if HIGH_DAMAGE_THRESHOLD <? damage
                then Some (high_damage damage) else None))
  else Ok Routine.

Lemma scan_event_classify (st : scan_state) (l : loc) :
  scan_event json_loads cfg st l
  = v ← classify (heap_get (st_heap st) l); Ok (apply_verdict st l v).
Proof.
  unfold scan_event, classify.
  destruct st as [h c ints]; cbn [st_heap st_counts st_interesting].
  set (evt := heap_get h l).
  destruct (decode_metadata json_loads evt) as [metadata|ex]; [|reflexivity].
  cbn [mbind result_bind].
  destruct (bool_decide (default "" (ev_actionType evt) ∈ ALWAYS_STORE_EVENTS)).
  { cbn. destruct (String.eqb _ "PLAYER_KILLED"); reflexivity. }
  destruct (String.eqb _ "WEAPON_FIRED").
  { destruct (meta_get _ "shots" _) as [[s| |]|]; try reflexivity;
      cbn [mbind result_bind];
      (destruct (meta_get _ "hits" _) as [[hi| |]|]; try reflexivity);
      cbn [mbind result_bind];
      (destruct (meta_get _ "headshots" _) as [[hs| |]|]; try reflexivity).
    cbn [as_int mbind result_bind].
    destruct (MIN_SHOTS_FOR_INTERESTING cfg <=? s); [|reflexivity].
    destruct (if 0 <? s then int_div hi s else Ok (of_int 0)) as [evt_accuracy|ex];
      [|reflexivity].
    cbn [mbind result_bind].
    destruct (int_div hs (Z.max hi 1)) as [evt_hs_ratio|ex]; [|reflexivity].
    cbn [mbind result_bind].
    destruct (fle (ACCURACY_INTERESTING_THRESHOLD cfg) _); [reflexivity|].
    destruct (fle (HEADSHOT_INTERESTING_THRESHOLD cfg) _); reflexivity. }
  destruct (String.eqb _ "PLAYER_ATTACK"); [|reflexivity].
  destruct (meta_get _ "damage" _) as [[d| |]|]; try reflexivity.
  cbn. destruct (HIGH_DAMAGE_THRESHOLD <? d); reflexivity.
Qed.

Lemma classify_erase (e1 e2 : event) :
  erase_reason e1 = erase_reason e2 -> classify e1 = classify e2.
Proof.
  intros Heq. unfold classify, decode_metadata.
  assert (ev_actionType e1 = ev_actionType e2) as -> by exact (f_equal ev_actionType Heq).
  assert (ev_metadata e1 = ev_metadata e2) as -> by exact (f_equal ev_metadata Heq).
  reflexivity.
Qed.

Lemma classify_set_reason (r : reason) (e : event) :
  classify (set_reason r e) = classify e.
Proof. apply classify_erase, erase_set_reason. Qed.

Lemma classify_empty_event : classify empty_event = Ok Routine.
Proof. reflexivity. Qed.

(** A tagged event is an object of the heap. *)
Lemma classify_tag_in_heap (h : heap) (l : loc) (v : verdict) :
  classify (heap_get h l) = Ok v -> verdict_keeps v = true -> (l < length h)%nat.
Proof.
  intros Hc Hk. destruct (decide (l < length h)%nat) as [|Hge]; [assumption|].
  unfold heap_get in Hc. rewrite lookup_ge_None_2 in Hc by lia.
  cbn [default] in Hc. rewrite classify_empty_event in Hc.
  injection Hc as <-. discriminate Hk.
Qed.

End Scan.

Section ScanInvariant.
Context `{PyFloat F}.
Variable json_loads : string -> result meta.
Variable cfg : config F.

Abbreviation classify' := (classify json_loads cfg).

(** The verdict on an event that does not raise. *)
Definition event_verdict (evt : event) : verdict :=
  match classify' evt with Ok v => v | Raise _ => Routine end.

Definition tag_of (evt : event) : option reason := verdict_tag (event_verdict evt).
Definition keeps (evt : event) : bool := verdict_keeps (event_verdict evt).

(** [h] is [h0] after some iterations: same objects, each either as it
    was or carrying the reason its verdict gives it. *)
Definition evolves (h0 h : heap) : Prop :=
  length h = length h0
  /\ forall l, heap_get h l = heap_get h0 l
               \/ exists r, tag_of (heap_get h0 l) = Some r
                            /\ heap_get h l = set_reason r (heap_get h0 l).

(** Every event of [ls] that has a tag carries it in [h]. *)
Definition tagged (h0 h : heap) (ls : list loc) : Prop :=
  forall l r, l ∈ ls -> tag_of (heap_get h0 l) = Some r ->
    heap_get h l = set_reason r (heap_get h0 l).

Lemma evolves_refl (h : heap) : evolves h h.
Proof. split; [reflexivity|]. intros l. left. reflexivity. Qed.

Lemma evolves_erase (h0 h : heap) (l : loc) :
  evolves h0 h -> erase_reason (heap_get h l) = erase_reason (heap_get h0 l).
Proof.
  intros [_ Hev]. destruct (Hev l) as [->|(r & _ & ->)]; reflexivity.
Qed.

Lemma evolves_classify (h0 h : heap) (l : loc) :
  evolves h0 h -> classify' (heap_get h l) = classify' (heap_get h0 l).
Proof. intros Hev. apply classify_erase, evolves_erase, Hev. Qed.

Lemma evolves_erase_heap (h0 h : heap) :
  evolves h0 h -> erase_reason <$> h = erase_reason <$> h0.
Proof.
  intros Hev. apply list_eq. intros l. rewrite !list_lookup_fmap.
  pose proof (evolves_erase _ _ l Hev) as He. destruct Hev as [Hlen _].
  unfold heap_get in He.
  destruct (h !! l) as [e|] eqn:E1, (h0 !! l) as [e0|] eqn:E0; cbn in *.
  - congruence.
  - apply lookup_lt_Some in E1. apply lookup_ge_None in E0. lia.
  - apply lookup_lt_Some in E0. apply lookup_ge_None in E1. lia.
  - reflexivity.
Qed.

(** One iteration preserves both invariants and tags its own event. *)
Lemma apply_verdict_evolves (h0 : heap) (st : scan_state) (l : loc) (v : verdict)
    (seen : list loc) :
  evolves h0 (st_heap st) -> tagged h0 (st_heap st) seen ->
  classify' (heap_get h0 l) = Ok v ->
  evolves h0 (st_heap (apply_verdict st l v))
  /\ tagged h0 (st_heap (apply_verdict st l v)) (l :: seen).
Proof.
  intros Hev Htag Hc.
  assert (Hv : event_verdict (heap_get h0 l) = v) by (unfold event_verdict; rewrite Hc; reflexivity).
  unfold apply_verdict; cbn [st_heap].
  destruct (verdict_tag v) as [r|] eqn:Hr.
  - assert (Hlt : (l < length (st_heap st))%nat).
    { destruct Hev as [-> _]. eapply classify_tag_in_heap; [exact Hc|].
      destruct v; cbn in Hr |- *; try discriminate Hr; rewrite Hr; reflexivity. }
    assert (Hl : heap_get (heap_set_reason (st_heap st) l r) l
                 = set_reason r (heap_get h0 l)).
    { rewrite heap_get_set_reason, decide_True by auto.
      destruct Hev as [_ Hev]. destruct (Hev l) as [->|(r' & _ & ->)]; reflexivity. }
    split.
    + split; [rewrite length_heap_set_reason; apply Hev|].
      intros l'. destruct (decide (l = l')) as [<-|Hne].
      * right. exists r. split; [|exact Hl]. unfold tag_of. rewrite Hv. exact Hr.
      * rewrite heap_get_set_reason, decide_False by tauto. apply Hev.
    + intros l' r' Hin Hr'. destruct (decide (l = l')) as [<-|Hne].
      * unfold tag_of in Hr'. rewrite Hv, Hr in Hr'. injection Hr' as <-. exact Hl.
      * rewrite heap_get_set_reason, decide_False by tauto.
        apply Htag; [|assumption]. apply elem_of_cons in Hin as [->|Hin]; [done|assumption].
  - split; [assumption|]. intros l' r' Hin Hr'.
    apply elem_of_cons in Hin as [->|Hin]; [|apply Htag; assumption].
    unfold tag_of in Hr'. rewrite Hv, Hr in Hr'. discriminate Hr'.
Qed.

(** The summary of a run of the loop over [done], in terms of the heap
    [h0] it started from. *)
Definition counts_after (h0 : heap) (done : list loc) (c : counters) : counters :=
  fold_left (fun c l => verdict_counts (event_verdict (heap_get h0 l)) c) done c.

Definition kept (h0 : heap) (done : list loc) : list loc :=
  List.filter (fun l => keeps (heap_get h0 l)) done.

Lemma scan_events_inv (events : list loc) :
  forall (st st' : scan_state) (raised : option exn) (h0 : heap) (seen : list loc),
    evolves h0 (st_heap st) -> tagged h0 (st_heap st) seen ->
    scan_events json_loads cfg st events = (st', raised) ->
    exists done,
      evolves h0 (st_heap st')
      /\ tagged h0 (st_heap st') (done ++ seen)
      /\ st_interesting st' = st_interesting st ++ kept h0 done
      /\ st_counts st' = counts_after h0 done (st_counts st)
      /\ Forall (fun l => is_ok (classify' (heap_get h0 l)) = true) done
      /\ match raised with
         | None => done = events
         | Some e => exists l rest,
             events = done ++ l :: rest /\ classify' (heap_get h0 l) = Raise e
         end.
Proof.
  induction events as [|l rest IH]; intros st st' raised h0 seen Hev Htag Hscan.
  - injection Hscan as <- <-. exists []. cbn.
    rewrite app_nil_r. repeat (split; [solve [auto]|]). reflexivity.
  - cbn [scan_events] in Hscan. rewrite scan_event_classify in Hscan.
    rewrite (evolves_classify h0) in Hscan by assumption.
    destruct (classify' (heap_get h0 l)) as [v|e] eqn:Hc; cbn in Hscan.
    + destruct (apply_verdict_evolves h0 st l v seen Hev Htag Hc) as [Hev' Htag'].
      destruct (IH _ _ _ h0 (l :: seen) Hev' Htag' Hscan)
        as (done & Hev'' & Htag'' & Hint & Hcnt & Hok & Hraised).
      assert (Hv : event_verdict (heap_get h0 l) = v)
        by (unfold event_verdict; rewrite Hc; reflexivity).
      exists (l :: done). split; [assumption|]. split.
      { intros l' r Hin. apply Htag''. revert Hin. cbn [app].
        rewrite !elem_of_app, !elem_of_cons, elem_of_app. tauto. }
      split.
      { rewrite Hint. unfold apply_verdict, kept; cbn [st_interesting List.filter].
        unfold keeps. rewrite Hv.
        destruct (verdict_keeps v); [rewrite <- app_assoc|]; reflexivity. }
      split.
      { rewrite Hcnt. unfold apply_verdict, counts_after; cbn [st_counts fold_left].
        rewrite Hv. reflexivity. }
      split.
      { constructor; [rewrite Hc; reflexivity|assumption]. }
      destruct raised as [e|].
      * destruct Hraised as (l' & rest' & -> & Hl'). exists l', rest'. auto.
      * rewrite Hraised. reflexivity.
    + injection Hscan as <- <-. exists []. cbn.
      rewrite app_nil_r. repeat (split; [solve [auto]|]). exists l, rest. auto.
Qed.

(** What [extract_features] leaves and returns, in terms of the heap it
    was given. *)
Lemma extract_features_spec (h : heap) (events : list loc) (existing : item F)
    (h' : heap) (r : result (features F * list loc)) :
  extract_features json_loads cfg h events existing = (h', r) ->
  exists done,
    evolves h h' /\ tagged h h' done
    /\ Forall (fun l => is_ok (classify' (heap_get h l)) = true) done
    /\ match r with
       | Ok (f, interesting) =>
           done = events /\ interesting = kept h events
           /\ merge_features existing (counts_after h events no_counts) = Ok f
       | Raise e =>
           (done = events
            /\ merge_features existing (counts_after h events no_counts) = Raise e)
           \/ exists l rest,
                events = done ++ l :: rest /\ classify' (heap_get h l) = Raise e
       end.
Proof.
  unfold extract_features.
  destruct (scan_events _ _ _ events) as [st raised] eqn:Hscan.
  apply (scan_events_inv events _ _ _ h []) in Hscan;
    [|apply evolves_refl|intros l r' Hin; apply elem_of_nil in Hin; destruct Hin].
  destruct Hscan as (done & Hev & Htag & Hint & Hcnt & Hok & Hraised).
  rewrite app_nil_r in Htag. cbn in Hint, Hcnt.
  destruct raised as [e|]; intros Heq; injection Heq as <- <-.
  - exists done. repeat (split; [assumption|]). right. exact Hraised.
  - exists done. subst done. repeat (split; [assumption|]).
    rewrite Hcnt.
    destruct (merge_features existing _) as [f|e]; cbn.
    + rewrite Hint. auto.
    + left. auto.
Qed.

End ScanInvariant.

(** ** What [store_events] writes *)

(** The attribute names of lines 202-213. *)
Definition event_item_keys : gset string :=
  {[ "pk"; "sk"; "eventId"; "owner"; "playerId"; "actionType";
     "timestamp"; "sessionId"; "metadata"; "ttl" ]}.

Lemma reason_key_not_stored : "_interesting_reason" ∉ event_item_keys.
Proof.
  intros Hin. apply (bool_decide_pack _) in Hin. vm_compute in Hin. exact Hin.
Qed.

Section StoreEvents.
Context `{PyFloat F}.
Variable cfg : config F.

Lemma event_item_dom (e : env F) (owner : string) (i : nat) (evt : event) :
  dom (event_item cfg e owner i evt) = event_item_keys.
Proof.
  unfold event_item. rewrite dom_list_to_map_L. cbn [fmap list_fmap fst].
  unfold event_item_keys. cbn [list_to_set]. set_solver.
Qed.

Lemma store_events_from_items (e : env F) (h : heap) (owner : string)
    (events : list loc) :
  forall (i : nat) (st : store F) (n : Z),
    exists items,
      events_table (store_events_from cfg e h owner i events (st, n)).1
      = events_table st ++ items
      /\ Forall (fun it => exists i' l, l ∈ events /\ it = event_item cfg e owner i' (heap_get h l))
           items.
Proof.
  induction events as [|l rest IH]; intros i st n.
  - exists []. cbn. rewrite app_nil_r. auto.
  - cbn [store_events_from]. unfold put_event at 1.
    destruct (batch_put_raises e "events" i).
    + destruct (IH (S i) (log_call st (put_item "events" 
         (attr_str (default ANull (event_item cfg e owner i (heap_get h l) !! "pk")))
         (attr_str (default ANull (event_item cfg e owner i (heap_get h l) !! "sk"))))) n)
        as (items & Heq & Hall).
      exists items. split; [exact Heq|].
      eapply Forall_impl; [exact Hall|]. cbn. intros it (i' & l' & Hin & ->).
      exists i', l'. split; [apply elem_of_cons; auto|reflexivity].
    + match goal with |- context [store_events_from _ _ _ _ _ _ (?s, ?m)] =>
        destruct (IH (S i) s m) as (items & Heq & Hall) end.
      exists (event_item cfg e owner i (heap_get h l) :: items). split.
      * rewrite Heq. cbn [events_table log_call]. rewrite <- app_assoc. reflexivity.
      * constructor.
        -- exists i, l. split; [apply elem_of_cons; auto|reflexivity].
        -- eapply Forall_impl; [exact Hall|]. cbn. intros it (i' & l' & Hin & ->).
           exists i', l'. split; [apply elem_of_cons; auto|reflexivity].
Qed.

End StoreEvents.

(** ** The reason written into the event, and what reaches the table *)

Section Reasons.
Context `{PyFloat F}.
Variable json_loads : string -> result meta.
Variable cfg : config F.

Lemma classify_weapon_fired (evt : event) (v : verdict) :
  ev_actionType evt = Some "WEAPON_FIRED" ->
  classify json_loads cfg evt = Ok v ->
  exists s hi hs tag,
    v = Fired s hi hs tag
    /\ (tag = None \/ tag = Some (high_accuracy hi s) \/ tag = Some (high_headshot hs hi)).
Proof.
  intros Hact. unfold classify. rewrite Hact. cbn [from_option Datatypes.id].
  destruct (bool_decide _) eqn:Ealways; [vm_compute in Ealways; discriminate Ealways|].
  destruct (String.eqb _ "WEAPON_FIRED") eqn:Efired; [|vm_compute in Efired; discriminate Efired].
  destruct (decode_metadata json_loads evt) as [metadata|ex]; [|discriminate].
  cbn [mbind result_bind].
  destruct (meta_get _ "shots" _) as [[s| |]|]; try discriminate;
    cbn [mbind result_bind];
    (destruct (meta_get _ "hits" _) as [[hi| |]|]; try discriminate);
    cbn [mbind result_bind];
    (destruct (meta_get _ "headshots" _) as [[hs| |]|]; try discriminate).
  cbn [as_int mbind result_bind].
  destruct (MIN_SHOTS_FOR_INTERESTING cfg <=? s);
    [|intros Hv; injection Hv as <-; exists s, hi, hs; eauto].
  destruct (if 0 <? s then int_div hi s else Ok (of_int 0)) as [evt_accuracy|ex];
    [|discriminate].
  cbn [mbind result_bind].
  destruct (int_div hs (Z.max hi 1)) as [evt_hs_ratio|ex]; [|discriminate].
  cbn [mbind result_bind].
  intros Hv. injection Hv as <-. exists s, hi, hs. eexists. split; [reflexivity|].
  destruct (fle (ACCURACY_INTERESTING_THRESHOLD cfg) _); [auto|].
  destruct (fle (HEADSHOT_INTERESTING_THRESHOLD cfg) _); auto.
Qed.

Lemma classify_player_attack (evt : event) (d : gmap string jval) (x : Z) :
  ev_actionType evt = Some "PLAYER_ATTACK" ->
  decode_metadata json_loads evt = Ok (MDict d) ->
  default (JInt 0) (d !! "damage") = JInt x ->
  classify json_loads cfg evt
  = Ok (Attack (if HIGH_DAMAGE_THRESHOLD <? x then Some (high_damage x) else None)).
Proof.
  intros Hact Hmeta Hdamage. unfold classify. rewrite Hact, Hmeta.
  cbn [from_option Datatypes.id mbind result_bind].
  destruct (bool_decide _) eqn:Ealways; [vm_compute in Ealways; discriminate Ealways|].
  destruct (String.eqb _ "WEAPON_FIRED") eqn:Efired; [vm_compute in Efired; discriminate Efired|].
  destruct (String.eqb _ "PLAYER_ATTACK") eqn:Eattack; [|vm_compute in Eattack; discriminate Eattack].
  cbn [meta_get mbind result_bind]. rewrite Hdamage. reflexivity.
Qed.

Lemma elem_of_kept (h : heap) (events : list loc) (l : loc) :
  l ∈ kept json_loads cfg h events
  <-> l ∈ events /\ keeps json_loads cfg (heap_get h l) = true.
Proof. unfold kept. rewrite !list_elem_of_In, filter_In. reflexivity. Qed.

(** C9.  [extract_features] writes into the objects it is given: the heap
    it leaves holds the same events with nothing but
    ['_interesting_reason'] changed; every WEAPON_FIRED event it returns as
    interesting carries a [high_accuracy] or [high_headshot] reason there,
    and every PLAYER_ATTACK event whose damage exceeds
    HIGH_DAMAGE_THRESHOLD is returned and carries [high_damage].  Yet each
    item [store_events] appends to the events table for these events has
    exactly the ten attributes pk, sk, eventId, owner, playerId,
    actionType, timestamp, sessionId, metadata, ttl, and so no
    ['_interesting_reason']. *)
Theorem interesting_reason_written_not_stored (h : heap) (events : list loc)
    (existing : item F) (h' : heap) (f : features F) (interesting : list loc) :
  extract_features json_loads cfg h events existing = (h', Ok (f, interesting)) ->
  erase_reason <$> h' = erase_reason <$> h
  /\ (forall l,
        l ∈ interesting ->
        ev_actionType (heap_get h l) = Some "WEAPON_FIRED" ->
        exists a b,
          ev_interesting_reason (heap_get h' l) = Some (high_accuracy a b)
          \/ ev_interesting_reason (heap_get h' l) = Some (high_headshot a b))
  /\ (forall l d x,
        l ∈ events ->
        ev_actionType (heap_get h l) = Some "PLAYER_ATTACK" ->
        decode_metadata json_loads (heap_get h l) = Ok (MDict d) ->
        default (JInt 0) (d !! "damage") = JInt x ->
        HIGH_DAMAGE_THRESHOLD < x ->
        l ∈ interesting
        /\ ev_interesting_reason (heap_get h' l) = Some (high_damage x))
  /\ (forall (e : env F) (st : store F) (owner : string),
        exists items,
          events_table (store_events cfg e st h' interesting owner).1
          = events_table st ++ items
          /\ Forall (fun it => dom it = event_item_keys
                               /\ it !! "_interesting_reason" = None) items).
Proof.
  intros Hex. apply extract_features_spec in Hex
    as (done & Hev & Htag & Hok & -> & -> & _).
  split; [apply (evolves_erase_heap json_loads cfg); assumption|]. split; [|split].
  - intros l Hin Hact. apply elem_of_kept in Hin as [Hin Hkeep].
    rewrite Forall_forall in Hok. specialize (Hok l Hin).
    destruct (classify json_loads cfg (heap_get h l)) as [v|] eqn:Hc; [|discriminate Hok].
    destruct (classify_weapon_fired _ _ Hact Hc) as (s & hi & hs & tag & -> & Htagv).
    unfold keeps, event_verdict in Hkeep. rewrite Hc in Hkeep. cbn in Hkeep.
    destruct tag as [r|]; [|discriminate Hkeep].
    rewrite (Htag l r Hin) by (unfold tag_of, event_verdict; rewrite Hc; reflexivity).
    cbn. destruct Htagv as [Hr|[Hr|Hr]]; [discriminate Hr| |];
      injection Hr as ->; eauto.
  - intros l d x Hin Hact Hmeta Hdamage Hhigh.
    pose proof (classify_player_attack _ d x Hact Hmeta Hdamage) as Hc.
    apply Z.ltb_lt in Hhigh. rewrite Hhigh in Hc. split.
    + apply elem_of_kept. split; [assumption|].
      unfold keeps, event_verdict. rewrite Hc. reflexivity.
    + rewrite (Htag l (high_damage x) Hin)
        by (unfold tag_of, event_verdict; rewrite Hc; reflexivity).
      reflexivity.
  - intros e st owner. unfold store_events.
    destruct (store_events_from_items cfg e h' owner (kept json_loads cfg h events) 0%nat st 0)
      as (items & Heq & Hall).
    exists items. split; [exact Heq|].
    eapply Forall_impl; [exact Hall|]. cbn beta. intros it (i' & l & _ & ->).
    split; [apply event_item_dom|].
    apply (not_elem_of_dom (D:=gset string)). rewrite event_item_dom.
    apply reason_key_not_stored.
Qed.

End Reasons.

(** A batch of one player: an accurate burst and a heavy melee hit. *)
Definition burst_and_hit : list event :=
  [ weapon_fired "p1" 10 8;
    make_event "p1" "PLAYER_ATTACK" (Some (MDict {[ "damage" := JInt 150 ]})) ].

Lemma interesting_reason_witness :
  match extract_features (F := float) rejects config64 burst_and_hit
          [0%nat; 1%nat] ∅ with
  | (h', Ok (f, interesting)) =>
      erase_reason <$> h' = erase_reason <$> burst_and_hit
      /\ (exists a b,
            ev_interesting_reason (heap_get h' 0%nat) = Some (high_accuracy a b)
            \/ ev_interesting_reason (heap_get h' 0%nat) = Some (high_headshot a b))
      /\ ev_interesting_reason (heap_get h' 1%nat) = Some (high_damage 150)
      /\ (exists items,
            events_table (store_events config64 quiet_env empty_store h'
                            interesting "t1").1 = items
            /\ Forall (fun it => dom it = event_item_keys
                                 /\ it !! "_interesting_reason" = None) items)
  | (_, Raise _) => False
  end.
Proof.
  destruct (extract_features _ _ _ _ _) as [h' [[f interesting]|ex]] eqn:Hrun;
    [|vm_compute in Hrun; discriminate Hrun].
  pose proof (@interesting_reason_written_not_stored float binary64 rejects config64
                burst_and_hit [0%nat; 1%nat] ∅ h' f interesting Hrun)
    as (Hframe & Hfired & Hattack & Hstore).
  assert (Hints : interesting = [0%nat; 1%nat])
    by (vm_compute in Hrun; injection Hrun as _ _ <-; reflexivity).
  split; [exact Hframe|]. split; [|split].
  - apply Hfired; [rewrite Hints; apply list_elem_of_In; cbn; auto|].
    vm_compute; reflexivity.
  - refine (proj2 (Hattack 1%nat {[ "damage" := JInt 150 ]} 150 _ _ _ _ _)).
    + apply list_elem_of_In; cbn; auto.
    + vm_compute; reflexivity.
    + vm_compute; reflexivity.
    + vm_compute; reflexivity.
    + vm_compute; reflexivity.
  - destruct (Hstore quiet_env empty_store "t1") as (items & Heq & Hall).
    exists items. split; [exact Heq|exact Hall].
Defined.

(** ** Grouping by player *)

(** [evt.get('playerId', 'unknown')] *)
Definition player_of (h : heap) (l : loc) : string :=
  default "unknown" (ev_playerId (heap_get h l)).

Lemma filter_sublist {A} (p : A -> bool) (l : list A) : List.filter p l `sublist_of` l.
Proof.
  induction l as [|x l IH]; cbn; [constructor|].
  destruct (p x); [apply sublist_skip|apply sublist_cons]; exact IH.
Qed.

(** Every group holds events of its player, in the order of the input. *)
Definition well_grouped (h : heap) (events : list loc) (groups : list (string * list loc)) : Prop :=
  Forall (fun g => g.2 `sublist_of` events /\ Forall (fun l => player_of h l = g.1) g.2) groups.

Lemma group_append_well_grouped (h : heap) (events : list loc) (l : loc)
    (groups : list (string * list loc)) :
  well_grouped h events groups ->
  well_grouped h (events ++ [l]) (group_append (player_of h l) l groups).
Proof.
  unfold well_grouped. induction groups as [|[p ls] rest IH]; intros Hall.
  - cbn. constructor; [|constructor]. cbn. split.
    + apply sublist_inserts_l. reflexivity.
    + constructor; [reflexivity|constructor].
  - apply Forall_cons in Hall as [[Hsub Hpl] Hrest]. cbn in Hsub, Hpl.
    cbn [group_append]. destruct (decide (p = player_of h l)) as [->|Hne].
    + constructor.
      * cbn. split; [apply sublist_app; [exact Hsub|reflexivity]|].
        apply Forall_app. split; [exact Hpl|]. constructor; [reflexivity|constructor].
      * eapply Forall_impl; [exact Hrest|]. intros g [Hs Hp]. split; [|exact Hp].
        apply sublist_inserts_r. exact Hs.
    + constructor; [|apply IH; exact Hrest].
      cbn. split; [apply sublist_inserts_r; exact Hsub|exact Hpl].
Qed.

Lemma group_by_player_well_grouped (h : heap) (events : list loc) :
  well_grouped h events (group_by_player h events).
Proof.
  unfold group_by_player. induction events as [|l events IH] using rev_ind.
  - constructor.
  - rewrite fold_left_app. cbn [fold_left].
    apply (group_append_well_grouped h events l). exact IH.
Qed.

(** ** The loop over the players *)

Section Players.
Context `{PyFloat F}.
Variable json_loads : string -> result meta.
Variable cfg : config F.

Abbreviation evolves' := (evolves json_loads cfg).
Abbreviation kept' := (kept json_loads cfg).

Lemma keeps_erase (e1 e2 : event) :
  erase_reason e1 = erase_reason e2 -> keeps json_loads cfg e1 = keeps json_loads cfg e2.
Proof.
  intros Heq. unfold keeps, event_verdict.
  rewrite (classify_erase json_loads cfg e1 e2 Heq). reflexivity.
Qed.

Lemma tag_of_erase (e1 e2 : event) :
  erase_reason e1 = erase_reason e2 -> tag_of json_loads cfg e1 = tag_of json_loads cfg e2.
Proof.
  intros Heq. unfold tag_of, event_verdict.
  rewrite (classify_erase json_loads cfg e1 e2 Heq). reflexivity.
Qed.

Lemma evolves_trans (h0 h1 h2 : heap) :
  evolves' h0 h1 -> evolves' h1 h2 -> evolves' h0 h2.
Proof.
  intros H01 H12. split; [destruct H01 as [<- _]; apply H12|].
  intros l. pose proof (evolves_erase _ _ _ _ l H01) as Herase.
  destruct H01 as [_ H01], H12 as [_ H12].
  destruct (H12 l) as [->|(r & Hr & ->)]; [apply H01|].
  right. exists r. split; [rewrite <- (tag_of_erase _ _ Herase); exact Hr|].
  destruct (H01 l) as [->|(r0 & _ & ->)]; reflexivity.
Qed.

Lemma kept_evolves (h0 h : heap) (events : list loc) :
  evolves' h0 h -> kept' h events = kept' h0 events.
Proof.
  intros Hev. unfold kept. apply filter_ext. intros l.
  apply keeps_erase, (evolves_erase json_loads cfg), Hev.
Qed.

Lemma player_of_evolves (h0 h : heap) (l : loc) :
  evolves' h0 h -> player_of h l = player_of h0 l.
Proof.
  intros Hev. unfold player_of.
  exact (f_equal (fun e => default "unknown" (ev_playerId e))
           (evolves_erase json_loads cfg _ _ l Hev)).
Qed.

(** How an iteration of the loop over the players ends. *)
Inductive ending :=
  | skipped_before_extend     (* [get_item] or [extract_features] raised *)
  | skipped_after_extend      (* [int(eventCount)] or a [put_item] raised *)
  | updated (f : features F).

Definition ending_of (e : env F) (owner : string) (ps : players_state (F := F))
    (group : string * list loc) : ending :=
  let pk := owner +:+ "#" +:+ group.1 in
  if get_item_raises e pk "PROFILE" then skipped_before_extend
  else
    let existing := default ∅ (players_table (ps_store ps) !! (pk, "PROFILE")) in
    match (extract_features json_loads cfg (ps_heap ps) group.2 existing).2 with
    | Raise _ => skipped_before_extend
    | Ok (f, _) =>
        if is_ok (py_int (state_get existing "eventCount" (AInt 0)))
           && negb (put_item_raises e pk "PROFILE")
           && negb (put_item_raises e pk "FEATURES")
        then updated f else skipped_after_extend
    end.

(** One iteration, summarised in terms of the heap [h0] of the request. *)
Lemma update_player_spec (h0 : heap) (e : env F) (owner : string)
    (ps : players_state (F := F)) (group : string * list loc) :
  evolves' h0 (ps_heap ps) ->
  let ps' := update_player json_loads cfg e owner ps group in
  evolves' h0 (ps_heap ps')
  /\ match ending_of e owner ps group with
     | skipped_before_extend =>
         ps_interesting ps' = ps_interesting ps
         /\ ps_updates ps' = ps_updates ps
         /\ players_table (ps_store ps') = players_table (ps_store ps)
     | skipped_after_extend =>
         ps_interesting ps' = ps_interesting ps ++ kept' h0 group.2
         /\ ps_updates ps' = ps_updates ps
     | updated f =>
         ps_interesting ps' = ps_interesting ps ++ kept' h0 group.2
         /\ ps_updates ps' = ps_updates ps ++ [(group.1, f)]
     end.
Proof.
  intros Hev. destruct group as [player_id p_events].
  unfold ending_of, update_player. cbn [fst snd].
  destruct (get_item_raises e _ "PROFILE"); [cbn; auto|].
  cbn [log_call players_table].
  destruct (extract_features _ _ _ p_events _) as [h' r] eqn:Hrun.
  pose proof (extract_features_spec _ _ _ _ _ _ _ Hrun)
    as (done & Hev' & _ & _ & Hr).
  assert (Hev0 : evolves' h0 h') by (eapply evolves_trans; eassumption).
  cbn [snd]. destruct r as [[f ints]|ex]; [|cbn; auto].
  destruct Hr as (_ & -> & _). rewrite (kept_evolves h0) by assumption.
  destruct (py_int _) as [count|ex]; [|cbn; auto].
  cbn [is_ok andb].
  destruct (put_item_raises e _ "PROFILE"); [cbn; auto|].
  destruct (put_item_raises e _ "FEATURES"); cbn; auto.
Qed.

End Players.

Section PlayersLoop.
Context `{PyFloat F}.
Variable json_loads : string -> result meta.
Variable cfg : config F.
Variable e : env F.
Variable owner : string.

Abbreviation pk_of player_id := (owner +:+ "#" +:+ player_id).
Abbreviation ending_of' := (ending_of json_loads cfg e owner).
Abbreviation update_player' := (update_player json_loads cfg e owner).

(** No store call of the iteration raised. *)
Definition store_calls_pass (player_id : string) : Prop :=
  get_item_raises e (pk_of player_id) "PROFILE" = false
  /\ put_item_raises e (pk_of player_id) "PROFILE" = false
  /\ put_item_raises e (pk_of player_id) "FEATURES" = false.

Lemma ending_updated (ps : players_state (F := F)) (group : string * list loc)
    (f : features F) :
  ending_of' ps group = updated f -> store_calls_pass group.1.
Proof.
  unfold ending_of, store_calls_pass.
  destruct (get_item_raises e _ "PROFILE"); [discriminate|].
  destruct (extract_features _ _ _ _ _).2 as [[f' ints]|ex]; [|discriminate].
  destruct (is_ok _); [|discriminate].
  destruct (put_item_raises e _ "PROFILE"); [discriminate|].
  destruct (put_item_raises e _ "FEATURES"); [discriminate|]. auto.
Qed.

Lemma ending_after_extend (ps : players_state (F := F)) (group : string * list loc) :
  ending_of' ps group <> skipped_before_extend ->
  get_item_raises e (pk_of group.1) "PROFILE" = false.
Proof.
  unfold ending_of. destruct (get_item_raises e _ "PROFILE"); [congruence|reflexivity].
Qed.

(** The contribution of a group to [interesting_events]: nothing, or the
    events of the group that the loop keeps, when the read did not raise. *)
Definition contribution (h0 : heap) (group : string * list loc) (c : list loc) : Prop :=
  c = []
  \/ (c = kept json_loads cfg h0 group.2
      /\ get_item_raises e (pk_of group.1) "PROFILE" = false).

(** The loop over the players, summarised. *)
Lemma update_players_spec (h0 : heap) (groups : list (string * list loc)) :
  forall ps : players_state (F := F),
    evolves json_loads cfg h0 (ps_heap ps) ->
    let ps' := fold_left update_player' groups ps in
    evolves json_loads cfg h0 (ps_heap ps')
    /\ exists contributions news,
         ps_interesting ps' = ps_interesting ps ++ concat contributions
         /\ ps_updates ps' = ps_updates ps ++ news
         /\ Forall2 (contribution h0) groups contributions
         /\ Forall (fun u => u.1 ∈ groups.*1 /\ store_calls_pass u.1) news.
Proof.
  induction groups as [|g rest IH]; intros ps Hev; cbn [fold_left].
  - split; [assumption|]. exists [], []. cbn. rewrite !app_nil_r.
    repeat split; constructor.
  - pose proof (update_player_spec json_loads cfg h0 e owner ps g Hev) as [Hev1 Hend].
    cbv zeta in Hev1, Hend.
    destruct (IH _ Hev1) as (Hev2 & cs & news & Hint & Hupd & Hcs & Hnews).
    split; [exact Hev2|].
    assert (Hnews' : Forall (fun u : string * features F =>
                               u.1 ∈ (g :: rest).*1 /\ store_calls_pass u.1) news).
    { eapply Forall_impl; [exact Hnews|]. intros u [Hin Hpass].
      split; [|exact Hpass]. cbn. apply elem_of_cons. right. exact Hin. }
    destruct (ending_of' ps g) as [| |f] eqn:Hending.
    + destruct Hend as (Hi & Hu & _). exists ([] :: cs), news.
      rewrite Hint, Hupd, Hi, Hu. cbn. repeat split; try assumption.
      constructor; [left; reflexivity|assumption].
    + destruct Hend as (Hi & Hu). exists (kept json_loads cfg h0 g.2 :: cs), news.
      rewrite Hint, Hupd, Hi, Hu. cbn. rewrite <- app_assoc.
      repeat split; try assumption.
      constructor; [|assumption]. right. split; [reflexivity|].
      apply (ending_after_extend ps). rewrite Hending. discriminate.
    + destruct Hend as (Hi & Hu).
      exists (kept json_loads cfg h0 g.2 :: cs), ((g.1, f) :: news).
      rewrite Hint, Hupd, Hi, Hu. cbn. rewrite <- !app_assoc.
      repeat split; try assumption.
      * constructor; [|assumption]. right. split; [reflexivity|].
        apply (ending_after_extend ps). rewrite Hending. discriminate.
      * constructor; [|assumption]. cbn. split; [apply elem_of_cons; auto|].
        apply (ending_updated ps g f Hending).
Qed.

Lemma contribution_sublist (h0 : heap) (group : string * list loc) (c : list loc) :
  contribution h0 group c -> c `sublist_of` group.2.
Proof.
  intros [->|[-> _]]; [apply sublist_nil_l|apply filter_sublist].
Qed.

End PlayersLoop.

(** ** The feedback loop *)

(** From position [n] on, no entry of [lst] equals, as a dictionary, an
    entry before it. *)
Definition appended_fresh (h : heap) (n : nat) (lst : list loc) : Prop :=
  forall i j l l',
    (i < j)%nat -> (n <= j)%nat -> lst !! i = Some l -> lst !! j = Some l' ->
    heap_get h l <> heap_get h l'.

Lemma event_in_app (h : heap) (l : loc) (xs ys : list loc) :
  event_in h l (xs ++ ys) = event_in h l xs || event_in h l ys.
Proof. apply existsb_app. Qed.

Lemma event_in_self (h : heap) (l : loc) : event_in h l [l] = true.
Proof. unfold event_in. cbn. rewrite bool_decide_eq_true_2; reflexivity. Qed.

Lemma event_in_false (h : heap) (l l' : loc) (lst : list loc) :
  event_in h l lst = false -> l' ∈ lst -> heap_get h l' <> heap_get h l.
Proof.
  unfold event_in. intros Hno Hin Heq.
  assert (existsb (fun l' => bool_decide (heap_get h l' = heap_get h l)) lst = true) as Hyes.
  { apply existsb_exists. exists l'. split; [apply list_elem_of_In; exact Hin|].
    apply bool_decide_eq_true_2. exact Heq. }
  congruence.
Qed.

Lemma appended_fresh_snoc (h : heap) (n : nat) (lst : list loc) (l : loc) :
  appended_fresh h n lst -> event_in h l lst = false ->
  appended_fresh h n (lst ++ [l]).
Proof.
  intros Hfresh Hno i j a b Hij Hnj Hi Hj.
  assert (Hjlt : (j < length (lst ++ [l]))%nat) by (eapply lookup_lt_Some; exact Hj).
  rewrite length_app in Hjlt. cbn in Hjlt.
  rewrite lookup_app_l in Hi by lia.
  destruct (decide (j < length lst)%nat) as [Hlt|Hge].
  - rewrite lookup_app_l in Hj by lia. exact (Hfresh i j a b Hij Hnj Hi Hj).
  - rewrite lookup_app_r in Hj by lia.
    replace (j - length lst)%nat with 0%nat in Hj by lia. injection Hj as <-.
    apply (event_in_false h l a lst Hno). eapply list_elem_of_lookup_2. exact Hi.
Qed.

Lemma feedback_spec (h : heap) (ids : gset string) (events : list loc) :
  forall interesting : list loc,
    exists added,
      fold_left (feedback h ids) events interesting = interesting ++ added
      /\ added `sublist_of` events
      /\ (forall n, appended_fresh h n interesting ->
                    appended_fresh h n (interesting ++ added))
      /\ (forall l p, l ∈ events -> ev_playerId (heap_get h l) = Some p -> p ∈ ids ->
                      event_in h l (interesting ++ added) = true).
Proof.
  induction events as [|l rest IH]; intros interesting.
  - exists []. cbn. rewrite app_nil_r. repeat split; auto.
    intros l p Hin. apply elem_of_nil in Hin. destruct Hin.
  - cbn [fold_left].
    destruct (IH (feedback h ids interesting l)) as (added & Heq & Hsub & Hfresh & Hall).
    unfold feedback in Heq, Hfresh, Hall |- *.
    destruct (ev_playerId (heap_get h l)) as [p|] eqn:Hp.
    + destruct (bool_decide (p ∈ ids)) eqn:Hids; cbn [andb] in *.
      * destruct (event_in h l interesting) eqn:Hin; cbn [negb] in *.
        -- exists added. split; [exact Heq|]. split; [apply sublist_cons; exact Hsub|].
           split; [exact Hfresh|]. intros l' p' Hl' Hp' Hp'ids.
           apply elem_of_cons in Hl' as [->|Hl']; [|eapply Hall; eassumption].
           rewrite event_in_app, Hin. reflexivity.
        -- exists (l :: added). rewrite Heq, <- app_assoc. split; [reflexivity|].
           split; [apply sublist_skip; exact Hsub|]. split.
           ++ intros n Hn. change (interesting ++ l :: added)
                with (interesting ++ [l] ++ added). rewrite app_assoc.
              apply Hfresh, appended_fresh_snoc; assumption.
           ++ intros l' p' Hl' Hp' Hp'ids.
              change (interesting ++ l :: added) with (interesting ++ [l] ++ added).
              rewrite app_assoc.
              apply elem_of_cons in Hl' as [->|Hl']; [|eapply Hall; eassumption].
              rewrite !event_in_app, event_in_self, orb_true_r. reflexivity.
      * exists added. split; [exact Heq|]. split; [apply sublist_cons; exact Hsub|].
        split; [exact Hfresh|]. intros l' p' Hl' Hp' Hp'ids.
        apply elem_of_cons in Hl' as [->|Hl']; [|eapply Hall; eassumption].
        rewrite Hp in Hp'. injection Hp' as <-.
        apply bool_decide_eq_false in Hids. contradiction.
    + exists added. split; [exact Heq|]. split; [apply sublist_cons; exact Hsub|].
      split; [exact Hfresh|]. intros l' p' Hl' Hp' Hp'ids.
      apply elem_of_cons in Hl' as [->|Hl']; [|eapply Hall; eassumption].
      rewrite Hp in Hp'. discriminate Hp'.
Qed.

Lemma appended_fresh_init (h : heap) (lst : list loc) :
  appended_fresh h (length lst) lst.
Proof.
  intros i j l l' _ Hj _ Hl'. apply lookup_lt_Some in Hl'. lia.
Qed.

(** ** The batch *)

(** [events[0].get('owner', 'unknown')] *)
Definition batch_owner (batch : list event) : string :=
  default "unknown" (ev_owner (heap_get batch 0%nat)).

Section Batch.
Context `{PyFloat F}.
Variable json_loads : string -> result meta.
Variable cfg : config F.
Variable json_loads_body : string -> result body_json.

Abbreviation process_events' := (process_events json_loads cfg).

(** The state after the loop over the players of a batch. *)
Definition players_after (e : env F) (st : store F) (batch : list event)
  : players_state (F := F) :=
  update_player_states json_loads cfg e st batch (seq 0 (length batch)) (batch_owner batch).

Definition detection_ids (detections : list (detection F)) : gset string :=
  list_to_set (d_playerId <$> detections).

Lemma process_events_parts (e : env F) (st : store F) (batch : list event) :
  let ps := players_after e st batch in
  let o := process_events' e st batch in
  out_heap o = ps_heap ps
  /\ out_player_updates o = ps_updates ps
  /\ out_detections o = run_detection cfg (ps_updates ps) (batch_owner batch)
  /\ out_interesting o
     = fold_left (feedback (ps_heap ps) (detection_ids (out_detections o)))
         (seq 0 (length batch)) (ps_interesting ps).
Proof.
  cbv zeta. unfold process_events, players_after, batch_owner, detection_ids.
  set (ps := update_player_states _ _ _ _ _ _ _).
  set (detections := run_detection _ _ _).
  set (interesting := fold_left _ _ _).
  destruct (match interesting with [] => _ | _ => _ end) as [st1 n1].
  destruct (match detections with [] => _ | _ => _ end) as [st2 n2].
  cbn. auto.
Qed.

Lemma players_after_evolves (e : env F) (st : store F) (batch : list event) :
  evolves json_loads cfg batch (ps_heap (players_after e st batch)).
Proof.
  unfold players_after, update_player_states.
  apply (update_players_spec json_loads cfg e (batch_owner batch) batch).
  apply evolves_refl.
Qed.

Lemma lambda_handler_batch (e : env F) (st : store F) (context : option string)
    (first : event) (others : list event) :
  let batch := first :: others in
  let o := process_events' e st batch in
  lambda_handler json_loads cfg json_loads_body e (BodyObj (Some batch)) context st
  = (create_response 200
       {[ "success" := RBool true;
          "eventsReceived" := RInt (Z.of_nat (length batch));
          "eventsStored" := RInt (out_events_stored o);
          "eventsSkipped" :=
            RInt (Z.of_nat (length batch) - Z.of_nat (length (out_interesting o)));
          "playersUpdated" := RInt (Z.of_nat (length (out_player_updates o)));
          "detectionsCreated" := RInt (out_detections_stored o);
          "processingTimeMs" := RNum (processing_time_ms e);
          "requestId" := RStr (default (request_uuid e) context) ]},
     out_store o).
Proof. reflexivity. Qed.

(** C8 (as amended).  Every input event whose playerId is the player of a
    detection of the batch is in the final interesting list in the sense
    of Python's [in], which compares dictionaries by value: the list holds
    the event itself, or another event that is equal to it as a
    dictionary.  The final list is the list left by
    [update_player_states] followed by the events the loop appended, none
    of which equals an entry before it.  The response reports
    eventsReceived as the number of events and eventsSkipped as that
    number minus the length of the final list. *)
Theorem feedback_loop_complete (e : env F) (st : store F) (context : option string)
    (first : event) (others : list event) :
  let batch := first :: others in
  let o := process_events' e st batch in
  let r := (lambda_handler json_loads cfg json_loads_body e
              (BodyObj (Some batch)) context st).1 in
  (forall l evt p,
     batch !! l = Some evt -> ev_playerId evt = Some p ->
     p ∈ d_playerId <$> out_detections o ->
     event_in (out_heap o) l (out_interesting o) = true
     /\ (l ∈ out_interesting o
         \/ exists l', l' ∈ out_interesting o /\ l' <> l
                       /\ heap_get (out_heap o) l' = heap_get (out_heap o) l))
  /\ (exists added,
        out_interesting o = ps_interesting (players_after e st batch) ++ added
        /\ appended_fresh (out_heap o)
             (length (ps_interesting (players_after e st batch))) (out_interesting o))
  /\ statusCode r = 200
  /\ body r !! "eventsReceived" = Some (RInt (Z.of_nat (length batch)))
  /\ body r !! "eventsSkipped"
     = Some (RInt (Z.of_nat (length batch) - Z.of_nat (length (out_interesting o)))).
Proof.
  intros batch o r.
  destruct (process_events_parts e st batch) as (Hheap & _ & _ & Hint).
  fold o in Hheap, Hint.
  destruct (feedback_spec (ps_heap (players_after e st batch))
              (detection_ids (out_detections o)) (seq 0 (length batch))
              (ps_interesting (players_after e st batch)))
    as (added & Heq & _ & Hfresh & Hall).
  rewrite <- Hint, <- Hheap in *.
  split; [|split; [|split; [|split]]].
  - intros l evt p Hl Hp Hdet.
    assert (Hin : event_in (out_heap o) l (out_interesting o) = true); [|split; [exact Hin|]].
    2: { unfold event_in in Hin. apply existsb_exists in Hin as (l' & Hl' & Hsame).
         apply list_elem_of_In in Hl'. apply bool_decide_eq_true in Hsame.
         destruct (decide (l' = l)) as [->|Hne]; [left; exact Hl'|right; eauto]. }
    rewrite Heq. apply (Hall l p).
    + apply elem_of_seq. apply lookup_lt_Some in Hl. lia.
    + rewrite Hheap.
      assert (ev_playerId (heap_get (ps_heap (players_after e st batch)) l)
              = ev_playerId (heap_get batch l)) as ->
        by exact (f_equal ev_playerId
                    (evolves_erase json_loads cfg _ _ l (players_after_evolves e st batch))).
      unfold heap_get. rewrite Hl. exact Hp.
    + unfold detection_ids. apply elem_of_list_to_set. exact Hdet.
  - exists added. split; [exact Heq|]. rewrite Heq.
    apply Hfresh, appended_fresh_init.
  - subst r batch. rewrite lambda_handler_batch. reflexivity.
  - subst r batch. rewrite lambda_handler_batch. cbn [fst create_response body].
    rewrite lookup_insert_ne by discriminate. apply lookup_insert_eq.
  - subst r batch. rewrite lambda_handler_batch. cbn [fst create_response body].
    do 3 (rewrite lookup_insert_ne by discriminate). apply lookup_insert_eq.
Qed.

End Batch.

(** Scenario S7.  The PROFILE item of p1 carries a long accuracy history
    (150 samples, mean 0.2); p1 fires 10 shots with 6 hits, p2 fires 10
    with 1.  Neither event is interesting by itself; the accuracy z-score
    of p1 is about 3.79, so p1's event is added by the feedback loop and
    stored, and p2's is not. *)
Definition seasoned_store : store float :=
  {| players_table :=
       {[ ("t1#p1", "PROFILE") :=
            {[ "accuracySampleCount" := AInt 150;
               "accuracyMean" := ANum (dec 2 10);
               "accuracyM2" := ANum (dec 15 10) ]} ]};
     events_table := []; detections_table := []; calls := [] |}.

Example feedback_adds_detected_player :
  let batch := [weapon_fired "p1" 10 6; weapon_fired "p2" 10 1] in
  let o := process_events rejects config64 quiet_env seasoned_store batch in
  ps_interesting (players_after rejects config64 quiet_env seasoned_store batch) = []
  /\ d_playerId <$> out_detections o = ["p1"]
  /\ d_detectorType <$> out_detections o = ["ZSCORE_ACCURACY"]
  /\ out_interesting o = [0%nat]
  /\ out_events_stored o = 1
  /\ body (lambda_handler rejects config64 rejects quiet_env
             (BodyObj (Some batch)) None seasoned_store).1 !! "eventsSkipped"
     = Some (RInt 1).
Proof. vm_compute. repeat split; reflexivity. Qed.

(** C8, as stated, fails when two events of a detected player are equal
    as dictionaries.  p1 is detected as before, now on two identical shot
    events: the loop appends the first, finds the second equal to it and
    leaves it out, so the second event is not in the final list; one event
    is stored and one is reported as skipped. *)
Lemma equal_events_kept_once :
  let batch := [weapon_fired "p1" 10 6; weapon_fired "p1" 10 6] in
  let o := process_events rejects config64 quiet_env seasoned_store batch in
  ev_playerId <$> batch = [Some "p1"; Some "p1"]
  /\ d_playerId <$> out_detections o = ["p1"]
  /\ out_interesting o = [0%nat]
  /\ bool_decide (1%nat ∈ out_interesting o) = false
  /\ event_in (out_heap o) 1%nat (out_interesting o) = true
  /\ out_events_stored o = 1
  /\ length (events_table (out_store o)) = 1%nat
  /\ body (lambda_handler rejects config64 rejects quiet_env
             (BodyObj (Some batch)) None seasoned_store).1 !! "eventsSkipped"
     = Some (RInt 1).
Proof. vm_compute. repeat split; reflexivity. Qed.

(** ** Order and determinism of the interesting list *)

Lemma group_append_keys (p : string) (l : loc) (groups : list (string * list loc)) :
  (group_append p l groups).*1
  = if bool_decide (p ∈ groups.*1) then groups.*1 else groups.*1 ++ [p].
Proof.
  induction groups as [|[q ls] rest IH]; [reflexivity|].
  cbn [group_append]. destruct (decide (q = p)) as [->|Hne].
  - cbn. rewrite bool_decide_eq_true_2 by (apply elem_of_cons; auto). reflexivity.
  - cbn [fmap list_fmap fst]. change (list_fmap _ _ fst ?x) with (x.*1). rewrite IH.
    destruct (bool_decide (p ∈ rest.*1)) eqn:Hin.
    + apply bool_decide_eq_true in Hin.
      rewrite bool_decide_eq_true_2 by (apply elem_of_cons; auto). reflexivity.
    + apply bool_decide_eq_false in Hin.
      rewrite bool_decide_eq_false_2; [reflexivity|].
      intros [Heq|Hin']%elem_of_cons; [congruence|contradiction].
Qed.

Lemma group_by_player_NoDup (h : heap) (events : list loc) :
  NoDup (group_by_player h events).*1.
Proof.
  unfold group_by_player. induction events as [|l events IH] using rev_ind.
  - constructor.
  - rewrite fold_left_app. cbn [fold_left]. rewrite group_append_keys.
    destruct (bool_decide _) eqn:Hin; [exact IH|].
    apply bool_decide_eq_false in Hin. apply NoDup_app. split; [exact IH|].
    split; [|apply NoDup_singleton].
    intros x Hx Hx'. apply list_elem_of_singleton in Hx'. subst x. contradiction.
Qed.

Lemma append_inj_r (s a b : string) : s +:+ a = s +:+ b -> a = b.
Proof.
  induction s as [|c s IH]; cbn; [trivial|]. intros Heq. injection Heq as Heq. auto.
Qed.

Lemma pk_inj (owner p q : string) : owner +:+ "#" +:+ p = owner +:+ "#" +:+ q -> p = q.
Proof. intros Heq. apply append_inj_r in Heq. apply (append_inj_r "#"). exact Heq. Qed.

(** The events of player [p], in input order. *)
Definition events_of (h : heap) (p : string) (events : list loc) : list loc :=
  List.filter (fun l => bool_decide (player_of h l = p)) events.

Lemma events_of_snoc (h : heap) (p : string) (events : list loc) (l : loc) :
  events_of h p (events ++ [l])
  = events_of h p events ++ (if decide (player_of h l = p) then [l] else []).
Proof.
  unfold events_of. rewrite List.filter_app. cbn [List.filter].
  destruct (decide (player_of h l = p)) as [Heq|Hne].
  - rewrite bool_decide_eq_true_2 by exact Heq. reflexivity.
  - rewrite bool_decide_eq_false_2 by exact Hne. reflexivity.
Qed.

Lemma events_of_nil (h : heap) (p : string) (events : list loc) :
  (forall l, l ∈ events -> player_of h l <> p) -> events_of h p events = [].
Proof.
  intros Hnone. unfold events_of. induction events as [|l events IH]; [reflexivity|].
  cbn [List.filter]. rewrite bool_decide_eq_false_2.
  - apply IH. intros l' Hl'. apply Hnone. apply elem_of_cons. auto.
  - apply Hnone. apply elem_of_cons. auto.
Qed.

(** Each group is exactly its player's events and is not empty. *)
Definition exact_groups (h : heap) (events : list loc) (groups : list (string * list loc))
  : Prop :=
  Forall (fun g => g.2 = events_of h g.1 events /\ g.2 <> []) groups.

Lemma group_append_exact (h : heap) (events : list loc) (l : loc)
    (groups : list (string * list loc)) :
  NoDup groups.*1 ->
  (player_of h l ∉ groups.*1 -> events_of h (player_of h l) events = []) ->
  exact_groups h events groups ->
  exact_groups h (events ++ [l]) (group_append (player_of h l) l groups).
Proof.
  unfold exact_groups. set (q := player_of h l).
  induction groups as [|[p ls] rest IH]; intros Hnodup Hnew Hall.
  - cbn. constructor; [|constructor]. cbn. rewrite events_of_snoc.
    rewrite Hnew by apply not_elem_of_nil. fold q. rewrite decide_True by reflexivity.
    split; [reflexivity|discriminate].
  - apply Forall_cons in Hall as [[Hls Hne] Hrest]. cbn in Hls, Hne, Hnodup.
    apply NoDup_cons in Hnodup as [Hfresh Hnodup].
    cbn [group_append]. destruct (decide (p = q)) as [->|Hpq].
    + constructor.
      * cbn. rewrite events_of_snoc. fold q. rewrite decide_True by reflexivity.
        rewrite Hls. split; [reflexivity|]. intros Heq. apply app_eq_nil in Heq as [_ Heq].
        discriminate Heq.
      * rewrite Forall_forall in Hrest |- *. intros g Hg.
        destruct (Hrest g Hg) as [Hg2 Hgne]. split; [|exact Hgne].
        rewrite events_of_snoc. fold q. rewrite decide_False.
        -- rewrite app_nil_r. exact Hg2.
        -- intros Heq. apply Hfresh. rewrite Heq.
           apply list_elem_of_fmap. exists g. auto.
    + constructor.
      * cbn. rewrite events_of_snoc. fold q. rewrite decide_False by congruence.
        rewrite app_nil_r. auto.
      * apply IH; [exact Hnodup| |exact Hrest].
        intros Hq. apply Hnew. cbn. intros [Heq|Hin]%elem_of_cons; [congruence|contradiction].
Qed.

Lemma group_append_covers (p q : string) (l : loc) (groups : list (string * list loc)) :
  p ∈ groups.*1 \/ p = q -> p ∈ (group_append q l groups).*1.
Proof.
  rewrite group_append_keys. destruct (bool_decide (q ∈ groups.*1)) eqn:Hq.
  - apply bool_decide_eq_true in Hq. intros [Hp| ->]; assumption.
  - rewrite elem_of_app, list_elem_of_singleton. tauto.
Qed.

Lemma group_by_player_exact (h : heap) (events : list loc) :
  (forall l, l ∈ events -> player_of h l ∈ (group_by_player h events).*1)
  /\ exact_groups h events (group_by_player h events).
Proof.
  unfold group_by_player. induction events as [|l events [Hcover Hexact]] using rev_ind.
  - split; [|constructor]. intros l Hl. apply elem_of_nil in Hl. destruct Hl.
  - rewrite fold_left_app. cbn [fold_left]. split.
    + intros l' Hl'. apply group_append_covers.
      apply elem_of_app in Hl' as [Hl'|Hl']; [left; apply Hcover; exact Hl'|].
      apply list_elem_of_singleton in Hl'. subst l'. right. reflexivity.
    + apply (group_append_exact h events l); [apply group_by_player_NoDup| |exact Hexact].
      intros Hq. apply events_of_nil. intros l' Hl' Heq. apply Hq.
      rewrite <- Heq. apply Hcover. exact Hl'.
Qed.

(** The distinct values of a list, in order of first appearance. *)
Fixpoint first_seen (ps : list string) : list string :=
  match ps with
  | [] => []
  | p :: rest => p :: List.filter (fun q => negb (String.eqb q p)) (first_seen rest)
  end.

Lemma elem_of_filter_other (p q : string) (ps : list string) :
  q ∈ List.filter (fun q => negb (String.eqb q p)) ps <-> q ∈ ps /\ q <> p.
Proof.
  rewrite !list_elem_of_In, filter_In, negb_true_iff.
  split; intros [Hin Hne]; (split; [exact Hin|]).
  - intros ->. rewrite String.eqb_refl in Hne. discriminate Hne.
  - apply String.eqb_neq. exact Hne.
Qed.

Lemma elem_of_first_seen (q : string) (ps : list string) : q ∈ first_seen ps <-> q ∈ ps.
Proof.
  induction ps as [|p ps IH]; cbn [first_seen]; [reflexivity|].
  rewrite !elem_of_cons, elem_of_filter_other, IH.
  destruct (decide (q = p)); tauto.
Qed.

Lemma first_seen_NoDup (ps : list string) : NoDup (first_seen ps).
Proof.
  induction ps as [|p ps IH]; cbn [first_seen]; [constructor|].
  apply NoDup_cons. split.
  - rewrite elem_of_filter_other. tauto.
  - apply NoDup_ListNoDup, List.NoDup_filter, NoDup_ListNoDup. exact IH.
Qed.

Lemma first_seen_snoc (ps : list string) (q : string) :
  first_seen (ps ++ [q])
  = if bool_decide (q ∈ first_seen ps) then first_seen ps else first_seen ps ++ [q].
Proof.
  induction ps as [|p ps IH]; cbn [first_seen app].
  - rewrite bool_decide_eq_false_2 by apply not_elem_of_nil. reflexivity.
  - rewrite IH. destruct (decide (q = p)) as [->|Hne].
    + rewrite (bool_decide_eq_true_2 (p ∈ p :: _)) by (apply elem_of_cons; auto).
      destruct (bool_decide (p ∈ first_seen ps)); [reflexivity|].
      rewrite List.filter_app. cbn [List.filter].
      rewrite String.eqb_refl. cbn [negb]. rewrite app_nil_r. reflexivity.
    + destruct (bool_decide (q ∈ first_seen ps)) eqn:Hq.
      * apply bool_decide_eq_true in Hq.
        rewrite bool_decide_eq_true_2; [reflexivity|].
        apply elem_of_cons. right. apply elem_of_filter_other. auto.
      * apply bool_decide_eq_false in Hq.
        rewrite bool_decide_eq_false_2.
        -- rewrite List.filter_app. cbn [List.filter].
           apply String.eqb_neq in Hne. rewrite Hne. reflexivity.
        -- intros [Heq|Hin]%elem_of_cons; [contradiction|].
           apply elem_of_filter_other in Hin. tauto.
Qed.

(** The keys of the [defaultdict] are the players of the batch in order of
    first appearance. *)
Lemma group_by_player_keys (h : heap) (events : list loc) :
  (group_by_player h events).*1 = first_seen (player_of h <$> events).
Proof.
  unfold group_by_player. induction events as [|l events IH] using rev_ind; [reflexivity|].
  rewrite fold_left_app. cbn [fold_left]. rewrite group_append_keys, IH.
  rewrite fmap_app. cbn [fmap list_fmap]. rewrite first_seen_snoc. reflexivity.
Qed.

Lemma Forall2_with_l {A B} (P : A -> B -> Prop) (Q : A -> Prop) (l : list A) (k : list B) :
  Forall2 P l k -> Forall Q l -> Forall2 (fun x y => P x y /\ Q x) l k.
Proof.
  induction 1 as [|x y l k Hxy _ IH]; intros Hall; [constructor|].
  apply Forall_cons in Hall as [Hx Hall]. constructor; auto.
Qed.

Section Determinism.
Context `{PyFloat F}.
Variable json_loads : string -> result meta.
Variable cfg : config F.

(** Two environments in which the same calls to the players table raise;
    clock, UUIDs, measured time and the batch writers may differ. *)
Definition same_player_faults (e1 e2 : env F) : Prop :=
  (forall pk sk, get_item_raises e1 pk sk = get_item_raises e2 pk sk)
  /\ (forall pk sk, put_item_raises e1 pk sk = put_item_raises e2 pk sk).

(** Two loop states that differ in the store only. *)
Definition agree (ps1 ps2 : players_state (F := F)) : Prop :=
  ps_heap ps1 = ps_heap ps2
  /\ ps_updates ps1 = ps_updates ps2
  /\ ps_interesting ps1 = ps_interesting ps2.

Lemma update_player_frame (e : env F) (owner : string) (ps : players_state (F := F))
    (group : string * list loc) (pk' sk : string) :
  pk' <> owner +:+ "#" +:+ group.1 ->
  players_table (ps_store (update_player json_loads cfg e owner ps group)) !! (pk', sk)
  = players_table (ps_store ps) !! (pk', sk).
Proof.
  intros Hne. destruct group as [player_id p_events]. unfold update_player. cbn [fst] in Hne.
  destruct (get_item_raises e _ "PROFILE"); [reflexivity|].
  destruct (extract_features _ _ _ _ _) as [h' [[f ints]|ex]]; [|reflexivity].
  destruct (py_int _) as [count|ex]; [|reflexivity].
  destruct (put_item_raises e _ "PROFILE"); [reflexivity|].
  destruct (put_item_raises e _ "FEATURES"); cbn;
    rewrite ?lookup_insert_ne by congruence; reflexivity.
Qed.

Lemma update_player_agree (e1 e2 : env F) (owner : string)
    (ps1 ps2 : players_state (F := F)) (group : string * list loc) :
  same_player_faults e1 e2 -> agree ps1 ps2 ->
  players_table (ps_store ps1) !! (owner +:+ "#" +:+ group.1, "PROFILE")
  = players_table (ps_store ps2) !! (owner +:+ "#" +:+ group.1, "PROFILE") ->
  agree (update_player json_loads cfg e1 owner ps1 group)
        (update_player json_loads cfg e2 owner ps2 group).
Proof.
  intros [Hget Hput] (Hh & Hu & Hi) Hprofile. destruct group as [player_id p_events].
  destruct ps1 as [st1 h1 u1 i1], ps2 as [st2 h2 u2 i2]. cbn in Hh, Hu, Hi, Hprofile.
  subst h2 u2 i2. unfold update_player, agree.
  cbn [ps_store ps_heap ps_updates ps_interesting log_call players_table].
  rewrite <- !Hget, <- !Hput, <- Hprofile.
  destruct (get_item_raises e1 _ "PROFILE"); [cbn; auto|].
  destruct (extract_features _ _ _ _ _) as [h' [[f ints]|ex]]; [|cbn; auto].
  destruct (py_int _) as [count|ex]; [|cbn; auto].
  destruct (put_item_raises e1 _ "PROFILE"); [cbn; auto|].
  destruct (put_item_raises e1 _ "FEATURES"); cbn; auto.
Qed.

Lemma update_players_agree (e1 e2 : env F) (owner : string)
    (groups : list (string * list loc)) :
  same_player_faults e1 e2 -> NoDup groups.*1 ->
  forall ps1 ps2 : players_state (F := F),
    agree ps1 ps2 ->
    (forall p, p ∈ groups.*1 ->
       players_table (ps_store ps1) !! (owner +:+ "#" +:+ p, "PROFILE")
       = players_table (ps_store ps2) !! (owner +:+ "#" +:+ p, "PROFILE")) ->
    agree (fold_left (update_player json_loads cfg e1 owner) groups ps1)
          (fold_left (update_player json_loads cfg e2 owner) groups ps2).
Proof.
  intros Hfaults. induction groups as [|g rest IH]; intros Hnodup ps1 ps2 Hagree Hprofiles.
  - exact Hagree.
  - cbn [fold_left]. cbn in Hnodup. apply NoDup_cons in Hnodup as [Hfresh Hnodup].
    apply IH; [exact Hnodup| |].
    + apply update_player_agree; [exact Hfaults|exact Hagree|].
      apply Hprofiles. cbn. apply elem_of_cons. auto.
    + intros p Hp.
      assert (Hne : owner +:+ "#" +:+ p <> owner +:+ "#" +:+ g.1).
      { intros Heq. apply pk_inj in Heq. subst p. contradiction. }
      rewrite !update_player_frame by exact Hne.
      apply Hprofiles. cbn. apply elem_of_cons. auto.
Qed.

Lemma process_events_agree (e1 e2 : env F) (st : store F) (batch : list event) :
  same_player_faults e1 e2 ->
  out_interesting (process_events json_loads cfg e1 st batch)
  = out_interesting (process_events json_loads cfg e2 st batch).
Proof.
  intros Hfaults.
  destruct (process_events_parts json_loads cfg e1 st batch) as (_ & _ & Hd1 & ->).
  destruct (process_events_parts json_loads cfg e2 st batch) as (_ & _ & Hd2 & ->).
  rewrite Hd1, Hd2.
  destruct (update_players_agree e1 e2 (batch_owner batch)
              (group_by_player batch (seq 0 (length batch))) Hfaults
              (group_by_player_NoDup _ _)
              {| ps_store := st; ps_heap := batch; ps_updates := []; ps_interesting := [] |}
              {| ps_store := st; ps_heap := batch; ps_updates := []; ps_interesting := [] |})
    as (Hh & Hu & Hi); [repeat split|reflexivity|].
  unfold players_after, update_player_states. rewrite Hh, Hu, Hi. reflexivity.
Qed.

End Determinism.

Section InterestingOrder.
Context `{PyFloat F}.
Variable json_loads : string -> result meta.
Variable cfg : config F.

(** C7 (as amended).  The interesting list of a batch is determined by the
    events, the store and the calls to the players table that raise: two
    runs that differ in clock, UUIDs, measured time or batch-writer
    failures produce the same list.  The list is not in input order but
    made of one block per player: the players are taken in order of first
    appearance in the batch, the block of a player is empty or holds the
    events of that player that [extract_features] keeps, in input order,
    and the events added for detections follow, as a subsequence of the
    input. *)
Theorem interesting_grouped_by_player (e : env F) (st : store F) (batch : list event) :
  let events := seq 0 (length batch) in
  let players := first_seen (player_of batch <$> events) in
  let o := process_events json_loads cfg e st batch in
  (forall e2, same_player_faults e e2 ->
     out_interesting (process_events json_loads cfg e2 st batch) = out_interesting o)
  /\ exists contributions added,
       out_interesting o = concat contributions ++ added
       /\ Forall2
            (fun p c =>
               (c = [] \/ c = kept json_loads cfg batch (events_of batch p events))
               /\ c `sublist_of` events_of batch p events)
            players contributions
       /\ added `sublist_of` events.
Proof.
  intros events players o. split.
  - intros e2 Hfaults. symmetry. apply process_events_agree. exact Hfaults.
  - destruct (process_events_parts json_loads cfg e st batch) as (_ & _ & _ & Hint).
    fold o in Hint.
    destruct (update_players_spec json_loads cfg e (batch_owner batch) batch
                (group_by_player batch events)
                {| ps_store := st; ps_heap := batch; ps_updates := []; ps_interesting := [] |}
                (evolves_refl json_loads cfg batch))
      as (_ & contributions & news & Hpre & _ & Hcontrib & _).
    destruct (feedback_spec (ps_heap (players_after json_loads cfg e st batch))
                (detection_ids (out_detections o)) events
                (ps_interesting (players_after json_loads cfg e st batch)))
      as (added & Heq & Hsub & _).
    exists contributions, added. split; [|split].
    + rewrite Hint. fold events. rewrite Heq. f_equal. exact Hpre.
    + subst players. rewrite <- group_by_player_keys. apply Forall2_fmap_l.
      destruct (group_by_player_exact batch events) as [_ Hexact].
      eapply Forall2_impl; [exact (Forall2_with_l _ _ _ _ Hcontrib Hexact)|].
      intros g c [Hc [Hg _]]. unfold compose. rewrite <- Hg. split.
      * destruct Hc as [->|[-> _]]; auto.
      * eapply contribution_sublist. exact Hc.
    + exact Hsub.
Qed.

End InterestingOrder.

(** A test for [sublist_of] on lists of references: each element of
    [xs] is matched with its first occurrence left in [ys]. *)
Fixpoint is_subsequence (xs ys : list loc) : bool :=
  match xs, ys with
  | [], _ => true
  | _ :: _, [] => false
  | x :: xs', y :: ys' =>
      if decide (x = y) then is_subsequence xs' ys' else is_subsequence xs ys'
  end.

Lemma sublist_is_subsequence (xs ys : list loc) :
  xs `sublist_of` ys -> is_subsequence xs ys = true.
Proof.
  revert xs. induction ys as [|y ys IH]; intros xs Hsub.
  - apply sublist_nil_r in Hsub. subst xs. reflexivity.
  - destruct xs as [|x xs]; [reflexivity|]. cbn [is_subsequence].
    apply sublist_cons_r in Hsub as [Hsub|(xs' & Heq & Hsub)].
    + destruct (decide (x = y)) as [_|_]; [|apply IH; exact Hsub].
      apply IH. etransitivity; [apply sublist_cons; reflexivity|exact Hsub].
    + injection Heq as -> ->. rewrite decide_True by reflexivity. apply IH. exact Hsub.
Qed.

(** Three session events of two players, interleaved. *)
Definition interleaved_sessions : list event :=
  [ make_event "p1" "SESSION_START" None;
    make_event "p2" "SESSION_START" None;
    make_event "p1" "SESSION_END" None ].

(** The quiet environment, except that reading the PROFILE item of p1
    raises. *)
Definition failing_profile_get : env float := {|
  now_ms := now_ms quiet_env;
  now_s := now_s quiet_env;
  request_uuid := request_uuid quiet_env;
  event_uuid := event_uuid quiet_env;
  detection_uuid := detection_uuid quiet_env;
  processing_time_ms := processing_time_ms quiet_env;
  get_item_raises := fun pk sk => String.eqb pk "t1#p1" && String.eqb sk "PROFILE";
  put_item_raises := fun _ _ => false;
  batch_put_raises := fun _ _ => false
|}.

(** C7, as stated, fails twice.  On interleaved players the interesting
    list leaves the input order; and the same batch on the same store
    gives another list when a read of the players table raises. *)
Lemma interesting_not_in_input_order :
  out_interesting (process_events rejects config64 quiet_env empty_store interleaved_sessions)
  = [0%nat; 2%nat; 1%nat]
  /\ ~ ([0%nat; 2%nat; 1%nat] `sublist_of` seq 0 (length interleaved_sessions))
  /\ out_interesting
       (process_events rejects config64 failing_profile_get empty_store interleaved_sessions)
     = [1%nat].
Proof.
  split; [vm_compute; reflexivity|]. split; [|vm_compute; reflexivity].
  intros Hsub. apply sublist_is_subsequence in Hsub.
  vm_compute in Hsub. discriminate Hsub.
Qed.

(** ** A store failure in the middle of an iteration *)

Section StoreFailure.
Context `{PyFloat F}.
Variable json_loads : string -> result meta.
Variable cfg : config F.
Variable e : env F.
Variable owner : string.

(** A [put_item] that raises after [extract_features] returned: the
    events are already in the list and the player is not recorded. *)
Lemma update_player_put_failure (ps : players_state (F := F)) (player_id : string)
    (p_events : list loc) (h' : heap) (f : features F) (interesting : list loc) :
  let pk := owner +:+ "#" +:+ player_id in
  get_item_raises e pk "PROFILE" = false ->
  extract_features json_loads cfg (ps_heap ps) p_events
    (default ∅ (players_table (ps_store ps) !! (pk, "PROFILE")))
  = (h', Ok (f, interesting)) ->
  put_item_raises e pk "PROFILE" = true \/ put_item_raises e pk "FEATURES" = true ->
  let ps' := update_player json_loads cfg e owner ps (player_id, p_events) in
  ps_interesting ps' = ps_interesting ps ++ interesting
  /\ ps_updates ps' = ps_updates ps
  /\ ps_heap ps' = h'.
Proof.
  intros pk Hget Hrun Hput. unfold update_player. fold pk. rewrite Hget.
  cbn [log_call players_table]. rewrite Hrun.
  destruct (py_int _) as [count|ex]; [|cbn; auto].
  destruct (put_item_raises e pk "PROFILE"); [cbn; auto|].
  destruct Hput as [Hput|Hput]; [discriminate Hput|]. rewrite Hput. cbn. auto.
Qed.

Lemma update_players_interesting (groups : list (string * list loc))
    (ps : players_state (F := F)) :
  exists later,
    ps_interesting (fold_left (update_player json_loads cfg e owner) groups ps)
    = ps_interesting ps ++ later.
Proof.
  destruct (update_players_spec json_loads cfg e owner (ps_heap ps) groups ps
              (evolves_refl json_loads cfg _))
    as (_ & contributions & _ & Hint & _).
  exists (concat contributions). exact Hint.
Qed.

(** Only players whose three store calls passed are in [player_updates]. *)
Lemma updated_players_passed (st : store F) (h : heap) (events : list loc)
    (player_id : string) :
  player_id ∈ (ps_updates (update_player_states json_loads cfg e st h events owner)).*1 ->
  store_calls_pass e owner player_id.
Proof.
  unfold update_player_states.
  destruct (update_players_spec json_loads cfg e owner h (group_by_player h events)
              {| ps_store := st; ps_heap := h; ps_updates := []; ps_interesting := [] |}
              (evolves_refl json_loads cfg h))
    as (_ & _ & news & _ & Hupd & _ & Hnews).
  rewrite Hupd. cbn [ps_updates app]. intros Hin.
  apply list_elem_of_fmap in Hin as ([p f] & -> & Hin).
  rewrite Forall_forall in Hnews. apply (Hnews (p, f) Hin).
Qed.

(** Only events of players whose read did not raise are in the list. *)
Lemma interesting_players_read (st : store F) (h : heap) (events : list loc) (l : loc) :
  l ∈ ps_interesting (update_player_states json_loads cfg e st h events owner) ->
  get_item_raises e (owner +:+ "#" +:+ player_of h l) "PROFILE" = false.
Proof.
  unfold update_player_states.
  destruct (update_players_spec json_loads cfg e owner h (group_by_player h events)
              {| ps_store := st; ps_heap := h; ps_updates := []; ps_interesting := [] |}
              (evolves_refl json_loads cfg h))
    as (_ & contributions & _ & Hint & _ & Hcontrib & _).
  rewrite Hint. cbn [ps_interesting app]. intros Hin.
  apply list_elem_of_In, in_concat in Hin as (c & Hc & Hl).
  apply list_elem_of_In in Hc, Hl.
  pose proof (group_by_player_well_grouped h events) as Hgroups.
  unfold well_grouped in Hgroups. rewrite Forall_forall in Hgroups.
  apply list_elem_of_lookup in Hc as [i Hi].
  destruct (Forall2_lookup_r _ _ _ _ _ Hcontrib Hi) as (g & Hg & [->|[-> Hget]]).
  - apply elem_of_nil in Hl. destruct Hl.
  - apply list_elem_of_lookup_2 in Hg. destruct (Hgroups g Hg) as [_ Hplayers].
    apply list_elem_of_In, filter_In in Hl as [Hl _]. apply list_elem_of_In in Hl.
    rewrite Forall_forall in Hplayers. rewrite (Hplayers l Hl). exact Hget.
Qed.

Lemma detection_player_updated (player_updates : list (string * features F))
    (d : detection F) :
  d ∈ run_detection cfg player_updates owner -> d_playerId d ∈ player_updates.*1.
Proof.
  intros Hd. apply elem_of_run_detection in Hd as (p & f & Hin & Hd).
  apply elem_of_detect_player in Hd as [[_ ->]|[_ ->]]; cbn;
    apply list_elem_of_fmap; exists (p, f); auto.
Qed.

(** C10.  The skip of a player is not atomic with respect to the
    interesting list.  When the read of the prior state passes,
    [extract_features] returns and the write of PROFILE or of FEATURES
    raises, the player's interesting events are already in the batch's
    list, the player is not in [player_updates], and no detection names
    it.  When the read of the prior state raises, no event of the player
    is in the list and the player is not in [player_updates]. *)
Theorem skip_not_atomic (st : store F) (h : heap) (events : list loc)
    (player_id : string) (p_events : list loc)
    (before after : list (string * list loc)) :
  group_by_player h events = before ++ (player_id, p_events) :: after ->
  let pk := owner +:+ "#" +:+ player_id in
  let ps0 :=
    fold_left (update_player json_loads cfg e owner) before
      {| ps_store := st; ps_heap := h; ps_updates := []; ps_interesting := [] |} in
  let ps := update_player_states json_loads cfg e st h events owner in
  (forall h' f interesting,
     get_item_raises e pk "PROFILE" = false ->
     extract_features json_loads cfg (ps_heap ps0) p_events
       (default ∅ (players_table (ps_store ps0) !! (pk, "PROFILE")))
     = (h', Ok (f, interesting)) ->
     put_item_raises e pk "PROFILE" = true \/ put_item_raises e pk "FEATURES" = true ->
     (exists later, ps_interesting ps = ps_interesting ps0 ++ interesting ++ later)
     /\ (player_id ∉ (ps_updates ps).*1)
     /\ (forall d, d ∈ run_detection cfg (ps_updates ps) owner ->
                   d_playerId d <> player_id))
  /\ (get_item_raises e pk "PROFILE" = true ->
      (forall l, l ∈ ps_interesting ps -> player_of h l <> player_id)
      /\ player_id ∉ (ps_updates ps).*1).
Proof.
  intros Hgroups pk ps0 ps. split.
  - intros h' f interesting Hget Hrun Hput.
    assert (Hnot : player_id ∉ (ps_updates ps).*1).
    { intros Hin. apply updated_players_passed in Hin as (_ & HputP & HputF).
      fold pk in HputP, HputF. destruct Hput; congruence. }
    split; [|split; [exact Hnot|]].
    + subst ps. unfold update_player_states. rewrite Hgroups, fold_left_app.
      cbn [fold_left]. fold ps0.
      destruct (update_player_put_failure ps0 player_id p_events h' f interesting
                  Hget Hrun Hput) as (Hint & _ & _).
      destruct (update_players_interesting after
                  (update_player json_loads cfg e owner ps0 (player_id, p_events)))
        as (later & Hlater).
      exists later. rewrite Hlater, Hint, <- app_assoc. reflexivity.
    + intros d Hd Heq. apply detection_player_updated in Hd. rewrite Heq in Hd.
      contradiction.
  - intros Hget. split.
    + intros l Hl Heq. apply interesting_players_read in Hl. rewrite Heq in Hl.
      fold pk in Hl. congruence.
    + intros Hin. apply updated_players_passed in Hin as (Hget' & _).
      fold pk in Hget'. congruence.
Qed.

End StoreFailure.

(** Two players open a session; the write of p1's FEATURES item raises. *)
Definition two_sessions : list event :=
  [ make_event "p1" "SESSION_START" None; make_event "p2" "SESSION_START" None ].

Definition failing_features_put : env float := {|
  now_ms := now_ms quiet_env;
  now_s := now_s quiet_env;
  request_uuid := request_uuid quiet_env;
  event_uuid := event_uuid quiet_env;
  detection_uuid := detection_uuid quiet_env;
  processing_time_ms := processing_time_ms quiet_env;
  get_item_raises := fun _ _ => false;
  put_item_raises := fun pk sk => String.eqb pk "t1#p1" && String.eqb sk "FEATURES";
  batch_put_raises := fun _ _ => false
|}.

Lemma skip_not_atomic_witness :
  let ps := update_player_states rejects config64 failing_features_put empty_store
              two_sessions [0%nat; 1%nat] "t1" in
  (exists later, ps_interesting ps = [0%nat] ++ later)
  /\ ("p1" ∉ (ps_updates ps).*1)
  /\ (forall d, d ∈ run_detection config64 (ps_updates ps) "t1" -> d_playerId d <> "p1").
Proof.
  cbv zeta.
  destruct (@skip_not_atomic float binary64 rejects config64 failing_features_put "t1"
              empty_store two_sessions [0%nat; 1%nat] "p1" [0%nat] [] [("p2", [1%nat])])
    as [Hput _]; [vm_compute; reflexivity|].
  destruct (extract_features rejects config64 two_sessions [0%nat]
              (default ∅ (players_table (empty_store (F := float)) !! ("t1#p1", "PROFILE"))))
    as [h' [[f interesting]|ex]] eqn:Hrun; [|vm_compute in Hrun; discriminate Hrun].
  assert (Hints : interesting = [0%nat])
    by (vm_compute in Hrun; injection Hrun as _ _ <-; reflexivity).
  destruct (Hput h' f interesting eq_refl Hrun (or_intror eq_refl))
    as ([later Hlater] & Hnot & Hdet).
  split; [|split; [exact Hnot|exact Hdet]].
  exists later. rewrite Hlater, Hints. reflexivity.
Defined.

(** ** Welford's recurrence *)

(** Inversion of a successful bind. *)
Ltac bind_ok H :=
  match type of H with
  | mbind _ ?r = Ok _ =>
      let E := fresh "E" in
      destruct r eqn:E; cbn [mbind result_bind] in H; [|discriminate H]
  end.

(** The binds of [merge_features] up to the one of [welford]. *)
Ltac merge_ok H :=
  unfold merge_features in H; do 9 bind_ok H;
  match type of H with
  | context [let '(_, _) := ?p in _] => destruct p as [? ?]
  end.

Section ShotTotals.
Context `{PyFloat F}.
Variable json_loads : string -> result meta.
Variable cfg : config F.

(** What an event reports under a counter key: the integer held there by
    the metadata of a WEAPON_FIRED event ([dflt] when the key is absent),
    and nothing for any other event. *)
Definition reported (key : string) (dflt : Z) (evt : event) : Z :=
  if String.eqb (default "" (ev_actionType evt)) "WEAPON_FIRED" then
    match decode_metadata json_loads evt with
    | Ok (MDict d) =>
        match default (JInt dflt) (d !! key) with JInt z => z | _ => 0 end
    | _ => 0
    end
  else 0.

(** The sum of a counter key over the events of a batch. *)
Definition batch_total (key : string) (dflt : Z) (h : heap) (events : list loc) : Z :=
  foldr Z.add 0 ((fun l => reported key dflt (heap_get h l)) <$> events).

Lemma verdict_counts_reported (evt : event) (c : counters) :
  is_ok (classify json_loads cfg evt) = true ->
  let c' := verdict_counts (event_verdict json_loads cfg evt) c in
  shots_fired c' = shots_fired c + reported "shots" 1 evt
  /\ shots_hit c' = shots_hit c + reported "hits" 0 evt.
Proof.
  intros Hok. cbv zeta. unfold event_verdict, reported.
  unfold classify in Hok |- *.
  destruct (decode_metadata json_loads evt) as [metadata|ex]; [|discriminate Hok].
  cbn [mbind result_bind] in Hok |- *.
  destruct (bool_decide (default "" (ev_actionType evt) ∈ ALWAYS_STORE_EVENTS)) eqn:Ealways.
  - assert (String.eqb (default "" (ev_actionType evt)) "WEAPON_FIRED" = false) as ->.
    { destruct (String.eqb _ "WEAPON_FIRED") eqn:Ef; [|reflexivity].
      apply String.eqb_eq in Ef. rewrite Ef in Ealways.
      vm_compute in Ealways. discriminate Ealways. }
    destruct (String.eqb _ "PLAYER_KILLED"); cbn; lia.
  - destruct (String.eqb _ "WEAPON_FIRED").
    + destruct metadata as [d|s| |z| |b]; try discriminate Hok.
      cbn [meta_get mbind result_bind] in Hok |- *.
      destruct (default (JInt 1) (d !! "shots")) as [s| |]; try discriminate Hok.
      destruct (default (JInt 0) (d !! "hits")) as [hi| |]; try discriminate Hok.
      destruct (default (JInt 0) (d !! "headshots")) as [hs| |]; try discriminate Hok.
      cbn [as_int mbind result_bind] in Hok |- *.
      destruct (MIN_SHOTS_FOR_INTERESTING cfg <=? s); [|cbn; lia].
      destruct (if 0 <? s then int_div hi s else Ok (of_int 0)) as [evt_accuracy|ex];
        [|discriminate Hok].
      cbn [mbind result_bind] in Hok |- *.
      destruct (int_div hs (Z.max hi 1)) as [evt_hs_ratio|ex]; [|discriminate Hok].
      cbn. lia.
    + destruct (String.eqb _ "PLAYER_ATTACK"); [|cbn; lia].
      destruct (meta_get _ "damage" _) as [[d| |]|]; cbn; lia.
Qed.

Lemma counts_after_totals (h : heap) (events : list loc) :
  Forall (fun l => is_ok (classify json_loads cfg (heap_get h l)) = true) events ->
  forall c,
    shots_fired (counts_after json_loads cfg h events c)
    = shots_fired c + batch_total "shots" 1 h events
    /\ shots_hit (counts_after json_loads cfg h events c)
       = shots_hit c + batch_total "hits" 0 h events.
Proof.
  induction 1 as [|l rest Hl _ IH]; intros c.
  - cbn. lia.
  - unfold counts_after in IH |- *. cbn [fold_left].
    destruct (IH (verdict_counts (event_verdict json_loads cfg (heap_get h l)) c))
      as [-> ->].
    destruct (verdict_counts_reported _ c Hl) as [-> ->].
    unfold batch_total. cbn [fmap list_fmap foldr]. lia.
Qed.

(** The four fields when the batch fired shots. *)
Lemma welford_update (existing : item F) (c : counters) (count : Z) (mean' m2' std_dev : F) :
  0 < shots_fired c ->
  welford existing c = Ok (count, mean', m2', std_dev) ->
  exists n mean m2 : F,
    py_float (state_get existing "accuracySampleCount" (AInt 0)) = Ok n
    /\ py_float (state_get existing "accuracyMean" (ANum (of_int 0))) = Ok mean
    /\ py_float (state_get existing "accuracyM2" (ANum (of_int 0))) = Ok m2
    /\ to_int (fadd n (of_int 1)) = Some count
    /\ fis_finite (int_truediv (shots_hit c) (shots_fired c)) = true
    /\ mean'
       = fadd mean
           (fdiv (fsub (int_truediv (shots_hit c) (shots_fired c)) mean)
                 (fadd n (of_int 1)))
    /\ m2'
       = fadd m2
           (fmul (fsub (int_truediv (shots_hit c) (shots_fired c)) mean)
                 (fsub (int_truediv (shots_hit c) (shots_fired c)) mean'))
    /\ std_dev
       = (if flt (of_int 1) (fadd n (of_int 1))
          then fpow_half (fdiv m2' (fadd n (of_int 1))) else of_int 0).
Proof.
  intros Hshots Hw. unfold welford in Hw. apply Z.ltb_lt in Hshots. rewrite Hshots in Hw.
  unfold int_div in Hw.
  destruct (fis_finite (int_truediv (shots_hit c) (shots_fired c))) eqn:Hfinite;
    [|discriminate Hw].
  cbn [mbind result_bind] in Hw.
  do 3 bind_ok Hw. cbv zeta in Hw.
  destruct (fis_zero _); [discriminate Hw|].
  unfold int_of_float in Hw.
  destruct (to_int (fadd a (of_int 1))) as [k|] eqn:Hk; [|discriminate Hw].
  cbn [mbind result_bind] in Hw. injection Hw as <- <- <- <-.
  exists a, a0, a1. repeat (split; [first [reflexivity | eassumption]|]). reflexivity.
Qed.

(** The four fields when it fired none. *)
Lemma welford_carry (existing : item F) (c : counters) (count : Z) (mean m2 std_dev : F) :
  shots_fired c <= 0 ->
  welford existing c = Ok (count, mean, m2, std_dev) ->
  py_int (state_get existing "accuracySampleCount" (AInt 0)) = Ok count
  /\ py_float (state_get existing "accuracyMean" (ANum (of_int 0))) = Ok mean
  /\ py_float (state_get existing "accuracyM2" (ANum (of_int 0))) = Ok m2
  /\ py_float (state_get existing "accuracyStdDev" (ANum (of_int 0))) = Ok std_dev.
Proof.
  intros Hshots Hw. unfold welford in Hw.
  apply Z.ltb_ge in Hshots. rewrite Hshots in Hw.
  do 4 bind_ok Hw. injection Hw as <- <- <- <-.
  repeat (split; [first [reflexivity | eassumption]|]). first [reflexivity | eassumption].
Qed.

Lemma merge_features_welford (existing : item F) (c : counters) (f : features F) :
  merge_features existing c = Ok f ->
  welford existing c
  = Ok (accuracySampleCount f, accuracyMean f, accuracyM2 f, accuracyStdDev f).
Proof.
  intros Hm. merge_ok Hm.
  destruct (welford existing c) as [[[[count mean] m2] std_dev]|]; [|discriminate Hm].
  cbn in Hm. injection Hm as <-. reflexivity.
Qed.

(** The Welford fields of a returned feature dictionary, in terms of the
    events of the batch. *)
Lemma extract_features_welford (h : heap) (events : list loc) (existing : item F)
    (h' : heap) (f : features F) (interesting : list loc) :
  extract_features json_loads cfg h events existing = (h', Ok (f, interesting)) ->
  exists c,
    shots_fired c = batch_total "shots" 1 h events
    /\ shots_hit c = batch_total "hits" 0 h events
    /\ welford existing c
       = Ok (accuracySampleCount f, accuracyMean f, accuracyM2 f, accuracyStdDev f).
Proof.
  intros Hrun.
  apply extract_features_spec in Hrun as (done & _ & _ & Hok & -> & _ & Hmerge).
  exists (counts_after json_loads cfg h events no_counts).
  destruct (counts_after_totals h events Hok no_counts) as [Hs Hh].
  cbn [no_counts shots_fired shots_hit] in Hs, Hh.
  split; [lia|]. split; [lia|]. apply merge_features_welford. exact Hmerge.
Qed.

End ShotTotals.

(** Scenario S4: one shot event of 10 shots with 8 hits, then one of 10
    shots with 6 hits, the features of the first batch being the prior
    state of the second. *)
Definition second_batch_features : option (features float) :=
  match extract_features rejects config64 [weapon_fired "p1" 10 8] [0%nat] ∅ with
  | (_, Ok (f1, _)) =>
      match extract_features rejects config64 [weapon_fired "p1" 10 6] [0%nat]
              (list_to_map (features_attrs f1)) with
      | (_, Ok (f2, _)) => Some f2
      | (_, Raise _) => None
      end
  | (_, Raise _) => None
  end.

(** The same two events in one batch. *)
Definition one_batch_features : option (features float) :=
  match extract_features rejects config64
          [weapon_fired "p1" 10 8; weapon_fired "p1" 10 6] [0%nat; 1%nat] ∅ with
  | (_, Ok (f, _)) => Some f
  | (_, Raise _) => None
  end.

(** C3 (as amended).  In double arithmetic, every operation rounded.  Let
    [shots] and [hits] be the sums, over the WEAPON_FIRED events of the
    batch, of the integers under [shots] (1 when absent) and [hits] (0
    when absent).  When [shots > 0] the four Welford fields are those of
    one step of the recurrence, whatever the number of events of the
    batch: with (n, mean, M2) the prior state as floats (0 where absent)
    and x = hits / shots, n' = n + 1, mean' = mean + (x - mean)/n', M2' =
    M2 + (x - mean)(x - mean'); the sample count is int(n'); the standard
    deviation is 0 unless n' > 1, and then (M2'/n') ** 0.5, the square
    root when M2'/n' is not negative.  When [shots <= 0] the four fields
    are the values of the prior state.  Two successive batches of one
    event each, shots 10 hits 8 then shots 10 hits 6, give sample count 2,
    mean 0.7, standard deviation 0.1, and an M2 within 1e-9 of 0.02; the
    two events in one batch give sample count 1.  ([hits / shots] is the
    quotient of the two integers rounded once, and it is finite, the
    division raising otherwise.) *)
Theorem welford_once_per_batch :
  (forall (F : Type) (HF : PyFloat F) (json_loads : string -> result meta)
          (cfg : config F) h events existing h' (f : features F) interesting,
     extract_features json_loads cfg h events existing = (h', Ok (f, interesting)) ->
     let shots := batch_total json_loads "shots" 1 h events in
     let hits := batch_total json_loads "hits" 0 h events in
     (0 < shots ->
      exists n mean m2 : F,
        py_float (state_get existing "accuracySampleCount" (AInt 0)) = Ok n
        /\ py_float (state_get existing "accuracyMean" (ANum (of_int 0))) = Ok mean
        /\ py_float (state_get existing "accuracyM2" (ANum (of_int 0))) = Ok m2
        /\ fis_finite (int_truediv hits shots) = true
        /\ let x := int_truediv hits shots in
           let n' := fadd n (of_int 1) in
           let mean' := fadd mean (fdiv (fsub x mean) n') in
           let m2' := fadd m2 (fmul (fsub x mean) (fsub x mean')) in
           to_int n' = Some (accuracySampleCount f)
           /\ accuracyMean f = mean'
           /\ accuracyM2 f = m2'
           /\ (flt (of_int 1) n' = false -> accuracyStdDev f = of_int 0)
           /\ (flt (of_int 1) n' = true -> flt (fdiv m2' n') (of_int 0) = false ->
               accuracyStdDev f = fpow_half (fdiv m2' n')))
     /\ (shots <= 0 ->
         py_int (state_get existing "accuracySampleCount" (AInt 0))
         = Ok (accuracySampleCount f)
         /\ py_float (state_get existing "accuracyMean" (ANum (of_int 0)))
            = Ok (accuracyMean f)
         /\ py_float (state_get existing "accuracyM2" (ANum (of_int 0)))
            = Ok (accuracyM2 f)
         /\ py_float (state_get existing "accuracyStdDev" (ANum (of_int 0)))
            = Ok (accuracyStdDev f)))
  /\ (exists f2,
        second_batch_features = Some f2
        /\ accuracySampleCount f2 = 2
        /\ accuracyMean f2 = dec 7 10
        /\ accuracyStdDev f2 = dec 1 10
        /\ flt (fabs (fsub (accuracyM2 f2) (dec 2 100))) (dec 1 1000000000) = true)
  /\ (exists f,
        one_batch_features = Some f
        /\ accuracySampleCount f = 1
        /\ accuracyMean f = dec 7 10
        /\ accuracyStdDev f = of_int 0).
Proof.
  split; [|split].
  - intros F HF json_loads cfg h events existing h' f interesting Hrun shots hits.
    destruct (extract_features_welford json_loads cfg _ _ _ _ _ _ Hrun)
      as (c & Hs & Hh & Hw).
    fold shots in Hs. fold hits in Hh. split.
    + intros Hshots. rewrite <- Hs in Hshots.
      destruct (welford_update _ _ _ _ _ _ Hshots Hw)
        as (n & mean & m2 & Hn & Hmean & Hm2 & Hcount & Hfinite & Hmean' & Hm2' & Hsd).
      rewrite Hs, Hh in Hmean', Hm2', Hfinite.
      exists n, mean, m2. cbv zeta. rewrite <- Hmean', <- Hm2'.
      split; [exact Hn|]. split; [exact Hmean|]. split; [exact Hm2|].
      split; [exact Hfinite|]. split; [exact Hcount|]. split; [reflexivity|]. split; [reflexivity|].
      split; intros Hn'; rewrite Hn' in Hsd; [exact Hsd|intros _; exact Hsd].
    + intros Hshots. rewrite <- Hs in Hshots.
      exact (welford_carry _ _ _ _ _ _ Hshots Hw).
  - vm_compute. eexists. repeat split; reflexivity.
  - vm_compute. eexists. repeat split; reflexivity.
Qed.

(** C3, as stated, fails in the arithmetic the code runs in: after the two
    batches M2 is not 0.02 (the double nearest to it) but the next double
    above it, which prints as 0.020000000000000004. *)
Lemma welford_m2_not_exact :
  exists f2,
    second_batch_features = Some f2
    /\ PrimFloat.eqb (accuracyM2 f2) (dec 2 100) = false
    /\ accuracyM2 f2 = PrimFloat.next_up (dec 2 100).
Proof. vm_compute. eexists. repeat split; reflexivity. Qed.

(** ** The prior state that [update_player_states] passes on *)

(** The attribute names of a PROFILE item (lines 267-277). *)
Definition profile_keys : gset string :=
  {[ "pk"; "sk"; "owner"; "playerId"; "lastSeen"; "firstSeen";
     "eventCount"; "riskScore"; "status" ]}.

(** The keys that [extract_features] reads from its prior state. *)
Definition feature_keys : list string :=
  [ "totalShots"; "totalHits"; "totalHeadshots"; "totalKills";
    "accuracySampleCount"; "accuracyMean"; "accuracyM2"; "accuracyStdDev" ].

Lemma feature_keys_not_profile : Forall (fun k => k ∉ profile_keys) feature_keys.
Proof.
  repeat constructor; intros Hin; apply (bool_decide_pack _) in Hin;
    vm_compute in Hin; exact Hin.
Qed.

Section PriorState.
Context `{PyFloat F}.

Lemma profile_item_dom (e : env F) (owner player_id : string) (existing : item F)
    (count : Z) (f : features F) :
  dom (profile_item e owner player_id existing count f) = profile_keys.
Proof.
  unfold profile_item. rewrite dom_list_to_map_L. cbn [fmap list_fmap fst].
  unfold profile_keys. cbn [list_to_set]. set_solver.
Qed.

Lemma state_get_profile (e : env F) (owner player_id : string) (existing : item F)
    (count : Z) (f : features F) (key : string) (dflt : attr F) :
  key ∈ feature_keys ->
  state_get (profile_item e owner player_id existing count f) key dflt = dflt.
Proof.
  intros Hkey. unfold state_get.
  rewrite (proj1 (not_elem_of_dom (D := gset string) _ key)); [reflexivity|].
  rewrite profile_item_dom.
  pose proof feature_keys_not_profile as Hall. rewrite Forall_forall in Hall.
  apply Hall. exact Hkey.
Qed.

Lemma merge_features_profile (e : env F) (owner player_id : string) (existing : item F)
    (count : Z) (f : features F) (c : counters) :
  merge_features (profile_item e owner player_id existing count f) c
  = merge_features ∅ c.
Proof.
  assert (Hget : forall key dflt, key ∈ feature_keys ->
            state_get (profile_item e owner player_id existing count f) key dflt
            = state_get ∅ key dflt).
  { intros key dflt Hkey. rewrite state_get_profile by exact Hkey.
    unfold state_get. rewrite lookup_empty. reflexivity. }
  unfold merge_features, welford.
  rewrite !Hget by (apply list_elem_of_In; cbn; tauto). reflexivity.
Qed.

End PriorState.

(** C1 fails on the code.  [update_player_states] reads the PROFILE item
    only and hands it to [extract_features] as the prior state; a PROFILE
    item holds none of the keys the extractor reads, so the features of a
    batch are merged into an empty state.  Two batches of player p1, 10
    shots with 8 hits and then 5 shots with 1 hit: the stored totalShots
    goes from 10 to 5 and totalHits from 8 to 1, the sample count stays 1,
    and no FEATURES item is ever read. *)
Theorem totals_reset_between_batches :
  (forall (e : env float) owner player_id existing count f c,
     merge_features (profile_item e owner player_id existing count f) c
     = merge_features ∅ c)
  /\ let o1 := process_events rejects config64 quiet_env empty_store
                 [weapon_fired "p1" 10 8] in
     let o2 := process_events rejects config64 quiet_env (out_store o1)
                 [weapon_fired "p1" 5 1] in
     let stored (o : outcome) key :=
       players_table (out_store o) !! ("t1#p1", "FEATURES") ≫= (.!! key) in
     stored o1 "totalShots" = Some (AInt 10)
     /\ stored o2 "totalShots" = Some (AInt 5)
     /\ stored o1 "totalHits" = Some (AInt 8)
     /\ stored o2 "totalHits" = Some (AInt 1)
     /\ stored o1 "accuracySampleCount" = Some (AInt 1)
     /\ stored o2 "accuracySampleCount" = Some (AInt 1)
     /\ calls (out_store o2)
        = [ get_item "players" "t1#p1" "PROFILE";
            put_item "players" "t1#p1" "PROFILE";
            put_item "players" "t1#p1" "FEATURES";
            put_item "events" "t1#p1" "1700000000000#evt-0";
            get_item "players" "t1#p1" "PROFILE";
            put_item "players" "t1#p1" "PROFILE";
            put_item "players" "t1#p1" "FEATURES" ].
Proof.
  split.
  - intros. apply merge_features_profile.
  - vm_compute. repeat split; reflexivity.
Qed.

(** * Further properties of the pipeline *)

(** ** What the loop of [extract_features] does with each kind of event *)

(** An action type that none of the three branches of the loop handles
    (PLAYER_TICK, PLAYER_INPUT, a missing action type, ...). *)
Definition routine_action (evt : event) : bool :=
  let action_type := default "" (ev_actionType evt) in
  negb (bool_decide (action_type ∈ ALWAYS_STORE_EVENTS))
  && negb (String.eqb action_type "WEAPON_FIRED")
  && negb (String.eqb action_type "PLAYER_ATTACK").

(** [action_type == 'PLAYER_KILLED'] *)
Definition is_kill (evt : event) : bool :=
  String.eqb (default "" (ev_actionType evt)) "PLAYER_KILLED".

Section Verdicts.
Context `{PyFloat F}.
Variable json_loads : string -> result meta.
Variable cfg : config F.

(** The metadata is decoded first, whatever the action type. *)
Lemma classify_always (evt : event) :
  default "" (ev_actionType evt) ∈ ALWAYS_STORE_EVENTS ->
  classify json_loads cfg evt
  = _ ← decode_metadata json_loads evt; Ok (Always (is_kill evt)).
Proof.
  intros Hin. unfold classify. rewrite bool_decide_eq_true_2 by exact Hin. reflexivity.
Qed.

Lemma classify_routine (evt : event) :
  routine_action evt = true ->
  classify json_loads cfg evt = _ ← decode_metadata json_loads evt; Ok Routine.
Proof.
  unfold routine_action, classify. intros Hr.
  apply andb_prop in Hr as [Hr Hattack]. apply andb_prop in Hr as [Halways Hfired].
  apply negb_true_iff in Halways, Hfired, Hattack.
  rewrite Halways, Hfired, Hattack. reflexivity.
Qed.

Lemma classify_decoded (evt : event) :
  is_ok (classify json_loads cfg evt) = true ->
  exists metadata, decode_metadata json_loads evt = Ok metadata.
Proof.
  unfold classify. destruct (decode_metadata json_loads evt) as [metadata|ex];
    [eauto|discriminate].
Qed.

(** A kill is an always-stored event; nothing else raises the counter. *)
Lemma verdict_counts_kills (evt : event) (c : counters) :
  is_ok (classify json_loads cfg evt) = true ->
  kills (verdict_counts (event_verdict json_loads cfg evt) c)
  = kills c + (if is_kill evt then 1 else 0).
Proof.
  intros Hok. destruct (classify_decoded _ Hok) as [metadata Hmeta]. clear Hok.
  unfold event_verdict, classify, is_kill. rewrite Hmeta. cbn [mbind result_bind].
  destruct (bool_decide (default "" (ev_actionType evt) ∈ ALWAYS_STORE_EVENTS)) eqn:Ealways.
  - cbn. destruct (String.eqb _ "PLAYER_KILLED"); cbn; lia.
  - assert (String.eqb (default "" (ev_actionType evt)) "PLAYER_KILLED" = false) as ->.
    { destruct (String.eqb _ "PLAYER_KILLED") eqn:Ek; [|reflexivity].
      apply String.eqb_eq in Ek. rewrite Ek in Ealways.
      vm_compute in Ealways. discriminate Ealways. }
    destruct (String.eqb _ "WEAPON_FIRED").
    { repeat first
        [ progress cbn [mbind result_bind verdict_counts kills add_shots]
        | match goal with
          | |- context [mbind _ ?r] => destruct r
          | |- context [if ?b then _ else _] => destruct b
          end ]; lia. }
    destruct (String.eqb _ "PLAYER_ATTACK"); [|cbn; lia].
    destruct (meta_get _ "damage" _) as [[d| |]|]; cbn; lia.
Qed.

Lemma counts_after_kills (h : heap) (events : list loc) :
  Forall (fun l => is_ok (classify json_loads cfg (heap_get h l)) = true) events ->
  forall c,
    kills (counts_after json_loads cfg h events c)
    = kills c + Z.of_nat (length (List.filter (fun l => is_kill (heap_get h l)) events)).
Proof.
  induction 1 as [|l rest Hl _ IH]; intros c; cbn [counts_after fold_left List.filter].
  - cbn. lia.
  - unfold counts_after in IH. rewrite IH, verdict_counts_kills by exact Hl.
    destruct (is_kill (heap_get h l)); cbn [length]; lia.
Qed.

End Verdicts.

Section MergeInversion.
Context `{PyFloat F}.

(** The fields of a feature dictionary that the merge returned. *)
Lemma merge_features_inv (existing : item F) (c : counters) (f : features F) :
  merge_features existing c = Ok f ->
  exists (es eh : F) (ph pk : Z),
    py_float (state_get existing "totalShots" (AInt 0)) = Ok es
    /\ py_float (state_get existing "totalHits" (AInt 0)) = Ok eh
    /\ py_int (state_get existing "totalHeadshots" (AInt 0)) = Ok ph
    /\ py_int (state_get existing "totalKills" (AInt 0)) = Ok pk
    /\ int_of_float (fadd es (of_int (shots_fired c))) = Ok (totalShots f)
    /\ int_of_float (fadd eh (of_int (shots_hit c))) = Ok (totalHits f)
    /\ totalHeadshots f = ph + headshots c
    /\ totalKills f = pk + kills c
    /\ accuracy f
       = (if flt (of_int 0) (fadd es (of_int (shots_fired c)))
          then fdiv (fadd eh (of_int (shots_hit c))) (fadd es (of_int (shots_fired c)))
          else of_int 0)
    /\ headshotRatio f
       = (if flt (of_int 0) (fadd es (of_int (shots_fired c)))
          then fdiv (of_int (ph + headshots c)) (max_1 (fadd eh (of_int (shots_hit c))))
          else of_int 0)
    /\ risk_score f = risk (accuracy f) (headshotRatio f).
Proof.
  intros Hm. unfold merge_features in Hm.
  destruct (py_float (state_get existing "totalShots" (AInt 0))) as [es|] eqn:Hes;
    [|discriminate Hm].
  destruct (py_float (state_get existing "totalHits" (AInt 0))) as [eh|] eqn:Heh;
    [|discriminate Hm].
  cbn [mbind result_bind] in Hm.
  destruct (float_of_int (shots_fired c)) as [bs|] eqn:Hbs; [|discriminate Hm].
  apply float_of_int_ok in Hbs. subst bs. cbn [mbind result_bind] in Hm.
  destruct (float_of_int (shots_hit c)) as [bh|] eqn:Hbh; [|discriminate Hm].
  apply float_of_int_ok in Hbh. subst bh. cbn [mbind result_bind] in Hm.
  destruct (int_of_float (fadd es _)) as [ts|] eqn:Hts; [|discriminate Hm].
  destruct (int_of_float (fadd eh _)) as [th|] eqn:Hth; [|discriminate Hm].
  destruct (py_int (state_get existing "totalHeadshots" (AInt 0))) as [ph|] eqn:Hph;
    [|discriminate Hm].
  destruct (py_int (state_get existing "totalKills" (AInt 0))) as [pk|] eqn:Hpk;
    [|discriminate Hm].
  cbn [mbind result_bind] in Hm.
  assert (Hratios : exists a hsr,
            (if flt (of_int 0) (fadd es (of_int (shots_fired c)))
             then all_headshots ← float_of_int (ph + headshots c);
                  Ok (fdiv (fadd eh (of_int (shots_hit c)))
                           (fadd es (of_int (shots_fired c))),
                      fdiv all_headshots (max_1 (fadd eh (of_int (shots_hit c)))))
             else Ok (of_int 0, of_int 0)) = Ok (a, hsr)
            /\ a = (if flt (of_int 0) (fadd es (of_int (shots_fired c)))
                    then fdiv (fadd eh (of_int (shots_hit c)))
                              (fadd es (of_int (shots_fired c)))
                    else of_int 0)
            /\ hsr = (if flt (of_int 0) (fadd es (of_int (shots_fired c)))
                      then fdiv (of_int (ph + headshots c))
                                (max_1 (fadd eh (of_int (shots_hit c))))
                      else of_int 0)).
  { destruct (flt (of_int 0) (fadd es (of_int (shots_fired c)))); [|eauto].
    destruct (float_of_int (ph + headshots c)) as [ah|] eqn:Hah; [|discriminate Hm].
    apply float_of_int_ok in Hah. subst ah. cbn [mbind result_bind]. eauto. }
  destruct Hratios as (a & hsr & Hr & Ha & Hhsr). rewrite Hr in Hm.
  cbn [mbind result_bind] in Hm.
  destruct (welford existing c) as [[[[count mean] m2] std_dev]|]; [|discriminate Hm].
  cbn in Hm. injection Hm as <-. cbn.
  exists es, eh, ph, pk. rewrite <- Ha, <- Hhsr.
  repeat (split; [first [reflexivity|eassumption]|]). reflexivity.
Qed.

End MergeInversion.

Section Kinds.
Context `{PyFloat F}.
Variable json_loads : string -> result meta.
Variable cfg : config F.

(** X1.  Every event of an always-stored type is returned as interesting
    whatever its metadata, and is left as it was; [totalKills] grows by
    the number of PLAYER_KILLED events of the batch. *)
Theorem always_store_events_kept (h : heap) (events : list loc) (existing : item F)
    (h' : heap) (f : features F) (interesting : list loc) (prior_kills : Z) :
  extract_features json_loads cfg h events existing = (h', Ok (f, interesting)) ->
  py_int (state_get existing "totalKills" (AInt 0)) = Ok prior_kills ->
  (forall l, l ∈ events ->
     default "" (ev_actionType (heap_get h l)) ∈ ALWAYS_STORE_EVENTS ->
     l ∈ interesting /\ heap_get h' l = heap_get h l)
  /\ totalKills f
     = prior_kills
       + Z.of_nat (length (List.filter (fun l => is_kill (heap_get h l)) events)).
Proof.
  intros Hrun Hprior.
  apply extract_features_spec in Hrun as (done & Hev & _ & Hok & -> & -> & Hmerge).
  split.
  - intros l Hin Halways.
    pose proof (classify_always json_loads cfg _ Halways) as Hc.
    rewrite Forall_forall in Hok.
    destruct (classify_decoded json_loads cfg _ (Hok l Hin)) as [metadata Hmeta].
    rewrite Hmeta in Hc. cbn [mbind result_bind] in Hc. split.
    + apply elem_of_kept. split; [exact Hin|].
      unfold keeps, event_verdict. rewrite Hc. reflexivity.
    + destruct Hev as [_ Hev]. destruct (Hev l) as [Heq|(r & Hr & _)]; [exact Heq|].
      unfold tag_of, event_verdict in Hr. rewrite Hc in Hr. discriminate Hr.
  - apply merge_features_inv in Hmerge
      as (es & eh & ph & pk & _ & _ & _ & Hpk & _ & _ & _ & Hkills & _).
    rewrite Hprior in Hpk. injection Hpk as <-.
    rewrite Hkills, counts_after_kills by exact Hok. reflexivity.
Qed.

End Kinds.

Section Routine.
Context `{PyFloat F}.
Variable json_loads : string -> result meta.
Variable cfg : config F.

(** The exception that decoding the metadata of the first event of
    [events] that does not decode raises, if there is one. *)
Fixpoint first_decode_error (h : heap) (events : list loc) : option exn :=
  match events with
  | [] => None
  | l :: rest =>
      match decode_metadata json_loads (heap_get h l) with
      | Ok _ => first_decode_error h rest
      | Raise ex => Some ex
      end
  end.

Lemma scan_events_routine (events : list loc) :
  forall st : scan_state,
    Forall (fun l => routine_action (heap_get (st_heap st) l) = true) events ->
    scan_events json_loads cfg st events = (st, first_decode_error (st_heap st) events).
Proof.
  induction events as [|l rest IH]; intros st Hall; [reflexivity|].
  apply Forall_cons in Hall as [Hl Hrest].
  cbn [scan_events first_decode_error].
  rewrite scan_event_classify, (classify_routine _ _ _ Hl).
  destruct (decode_metadata json_loads (heap_get (st_heap st) l)) as [metadata|ex];
    cbn [mbind result_bind]; [|reflexivity].
  replace (apply_verdict st l Routine) with st by (destruct st; reflexivity).
  apply IH. exact Hrest.
Qed.

Lemma first_decode_error_None (h : heap) (events : list loc) :
  first_decode_error h events = None
  <-> Forall (fun l => is_ok (decode_metadata json_loads (heap_get h l)) = true) events.
Proof.
  induction events as [|l rest IH]; cbn [first_decode_error].
  - split; [constructor|reflexivity].
  - rewrite Forall_cons.
    destruct (decode_metadata json_loads (heap_get h l)) as [metadata|ex]; cbn [is_ok].
    + rewrite IH. tauto.
    + split; [discriminate|intros [Hno _]; discriminate Hno].
Qed.

(** X2.  A batch of routine events only (no always-stored type, no
    WEAPON_FIRED, no PLAYER_ATTACK).  The loop uses no metadata, but it
    still decodes every metadata string.  No event is written to in any
    case.  If no decoding raises (a [JSONDecodeError] is caught and does
    not count), no event is returned and the features are the prior state
    merged with zero counters; otherwise [extract_features] raises the
    exception of the first event whose metadata [json.loads] fails on. *)
Theorem routine_batch_leaves_no_trace (h : heap) (events : list loc) (existing : item F) :
  Forall (fun l => routine_action (heap_get h l) = true) events ->
  extract_features json_loads cfg h events existing
  = (h, match first_decode_error h events with
        | None => f ← merge_features existing no_counts; Ok (f, [])
        | Some ex => Raise ex
        end)
  /\ (first_decode_error h events = None
      <-> Forall (fun l => is_ok (decode_metadata json_loads (heap_get h l)) = true)
            events).
Proof.
  intros Hall. split; [|apply first_decode_error_None].
  unfold extract_features.
  rewrite scan_events_routine by exact Hall. cbn [st_heap].
  destruct (first_decode_error h events); reflexivity.
Qed.

Lemma classify_fired_tag (evt : event) (d : gmap string jval) (s hi hs : Z) :
  ev_actionType evt = Some "WEAPON_FIRED" ->
  decode_metadata json_loads evt = Ok (MDict d) ->
  default (JInt 1) (d !! "shots") = JInt s ->
  default (JInt 0) (d !! "hits") = JInt hi ->
  default (JInt 0) (d !! "headshots") = JInt hs ->
  is_ok (classify json_loads cfg evt) = true ->
  classify json_loads cfg evt
  = Ok (Fired s hi hs
          (if MIN_SHOTS_FOR_INTERESTING cfg <=? s then
             if fle (ACCURACY_INTERESTING_THRESHOLD cfg)
                  (if 0 <? s then int_truediv hi s else of_int 0)
             then Some (high_accuracy hi s)
             else if fle (HEADSHOT_INTERESTING_THRESHOLD cfg)
                       (int_truediv hs (Z.max hi 1))
             then Some (high_headshot hs hi)
             else None
           else None)).
Proof.
  intros Hact Hmeta Hs Hhi Hhs. unfold classify.
  rewrite Hact, Hmeta. cbn [from_option Datatypes.id mbind result_bind].
  destruct (bool_decide _) eqn:Ealways; [vm_compute in Ealways; discriminate Ealways|].
  destruct (String.eqb _ "WEAPON_FIRED") eqn:Efired;
    [|vm_compute in Efired; discriminate Efired].
  cbn [meta_get mbind result_bind]. rewrite Hs, Hhi, Hhs.
  cbn [as_int mbind result_bind].
  destruct (MIN_SHOTS_FOR_INTERESTING cfg <=? s); [|reflexivity].
  unfold int_div.
  destruct (0 <? s); [destruct (fis_finite (int_truediv hi s)); [|discriminate]|];
    cbn [mbind result_bind];
    (destruct (fis_finite (int_truediv hs (Z.max hi 1))); [|discriminate]);
    reflexivity.
Qed.

(** X3.  A WEAPON_FIRED event is returned as interesting exactly when it
    reports at least MIN_SHOTS_FOR_INTERESTING shots and its accuracy or
    its headshot ratio reaches the threshold; the accuracy test comes
    first, so an event that passes both carries [high_accuracy]. *)
Theorem weapon_fired_kept_iff (h : heap) (events : list loc) (existing : item F)
    (h' : heap) (f : features F) (interesting : list loc)
    (l : loc) (d : gmap string jval) (s hi hs : Z) :
  extract_features json_loads cfg h events existing = (h', Ok (f, interesting)) ->
  l ∈ events ->
  ev_actionType (heap_get h l) = Some "WEAPON_FIRED" ->
  decode_metadata json_loads (heap_get h l) = Ok (MDict d) ->
  default (JInt 1) (d !! "shots") = JInt s ->
  default (JInt 0) (d !! "hits") = JInt hi ->
  default (JInt 0) (d !! "headshots") = JInt hs ->
  let evt_accuracy := if 0 <? s then int_truediv hi s else of_int 0 in
  let evt_hs_ratio := int_truediv hs (Z.max hi 1) in
  let accurate := fle (ACCURACY_INTERESTING_THRESHOLD cfg) evt_accuracy in
  let headshot := fle (HEADSHOT_INTERESTING_THRESHOLD cfg) evt_hs_ratio in
  (l ∈ interesting
   <-> MIN_SHOTS_FOR_INTERESTING cfg <= s /\ (accurate = true \/ headshot = true))
  /\ (MIN_SHOTS_FOR_INTERESTING cfg <= s -> accurate = true ->
      ev_interesting_reason (heap_get h' l) = Some (high_accuracy hi s))
  /\ (MIN_SHOTS_FOR_INTERESTING cfg <= s -> accurate = false -> headshot = true ->
      ev_interesting_reason (heap_get h' l) = Some (high_headshot hs hi))
  /\ (s < MIN_SHOTS_FOR_INTERESTING cfg -> heap_get h' l = heap_get h l).
Proof.
  intros Hrun Hin Hact Hmeta Hs Hhi Hhs evt_accuracy evt_hs_ratio accurate headshot.
  apply extract_features_spec in Hrun as (done & Hev & Htag & Hok & -> & -> & _).
  rewrite Forall_forall in Hok.
  pose proof (classify_fired_tag _ d s hi hs Hact Hmeta Hs Hhi Hhs (Hok l Hin)) as Hc.
  fold evt_accuracy evt_hs_ratio in Hc. fold accurate headshot in Hc.
  assert (Hreason : forall r, tag_of json_loads cfg (heap_get h l) = Some r ->
            ev_interesting_reason (heap_get h' l) = Some r).
  { intros r Hr. rewrite (Htag l r Hin Hr). reflexivity. }
  unfold tag_of, event_verdict in Hreason. rewrite Hc in Hreason. cbn in Hreason.
  split; [|split; [|split]].
  - rewrite elem_of_kept. unfold keeps, event_verdict. rewrite Hc. cbn.
    destruct (Z.leb_spec (MIN_SHOTS_FOR_INTERESTING cfg) s) as [Hmin|Hmin].
    + destruct accurate; [rewrite bool_decide_eq_true_2 by eauto; tauto|].
      destruct headshot; [rewrite bool_decide_eq_true_2 by eauto; tauto|].
      rewrite bool_decide_eq_false_2 by (intros [? ?]; discriminate).
      split; [intros [_ ?]; discriminate|intros [_ [?|?]]; discriminate].
    + rewrite bool_decide_eq_false_2 by (intros [? ?]; discriminate).
      split; [intros [_ ?]; discriminate|intros [? _]; lia].
  - intros Hmin Hacc. apply Hreason.
    apply Z.leb_le in Hmin. rewrite Hmin, Hacc. reflexivity.
  - intros Hmin Hacc Hhead. apply Hreason.
    apply Z.leb_le in Hmin. rewrite Hmin, Hacc, Hhead. reflexivity.
  - intros Hmin. destruct Hev as [_ Hev].
    destruct (Hev l) as [Heq|(r & Hr & _)]; [exact Heq|].
    unfold tag_of, event_verdict in Hr. rewrite Hc in Hr. cbn in Hr.
    apply Z.leb_gt in Hmin. rewrite Hmin in Hr. discriminate Hr.
Qed.

End Routine.

(** A kill whose metadata is null, then the end of the session. *)
Definition kill_then_leave : list event :=
  [ make_event "p1" "PLAYER_KILLED" (Some MNull); make_event "p1" "SESSION_END" None ].

Lemma always_store_events_kept_witness :
  match extract_features (F := float) rejects config64 kill_then_leave
          [0%nat; 1%nat] ∅ with
  | (h', Ok (f, interesting)) =>
      (forall l, l ∈ [0%nat; 1%nat] ->
         default "" (ev_actionType (heap_get kill_then_leave l)) ∈ ALWAYS_STORE_EVENTS ->
         l ∈ interesting /\ heap_get h' l = heap_get kill_then_leave l)
      /\ totalKills f
         = 0 + Z.of_nat (length (List.filter (fun l => is_kill (heap_get kill_then_leave l))
                                   [0%nat; 1%nat]))
  | (_, Raise _) => False
  end.
Proof.
  destruct (extract_features (F := float) rejects config64 kill_then_leave
              [0%nat; 1%nat] ∅) as [h' [[f interesting]|ex]] eqn:Hrun;
    [|vm_compute in Hrun; discriminate Hrun].
  exact (@always_store_events_kept float binary64 rejects config64
           kill_then_leave [0%nat; 1%nat] ∅ h' f interesting 0 Hrun eq_refl).
Defined.

(** A tick whose metadata is null, and an input whose metadata is a
    text. *)
Definition ticks : list event :=
  [ make_event "p1" "PLAYER_TICK" (Some MNull);
    make_event "p1" "PLAYER_INPUT" (Some (MStr "[[[[")) ].

(** With a decoder that rejects the text as not being JSON the batch
    leaves no trace; with one that raises [RecursionError] on it,
    [extract_features] raises. *)
Lemma routine_batch_leaves_no_trace_witness :
  Forall (fun l => routine_action (heap_get ticks l) = true) [0%nat; 1%nat]
  /\ extract_features (F := float) rejects config64 ticks [0%nat; 1%nat] ∅
     = (ticks, f ← merge_features ∅ no_counts; Ok (f, []))
  /\ extract_features (F := float) (raises_on "[[[[" RecursionError) config64 ticks
       [0%nat; 1%nat] ∅
     = (ticks, Raise RecursionError).
Proof.
  assert (Hall : Forall (fun l => routine_action (heap_get ticks l) = true) [0%nat; 1%nat])
    by (repeat constructor).
  split; [exact Hall|]. split.
  - exact (proj1 (@routine_batch_leaves_no_trace float binary64 rejects config64
                    ticks [0%nat; 1%nat] ∅ Hall)).
  - exact (proj1 (@routine_batch_leaves_no_trace float binary64
                    (raises_on "[[[[" RecursionError) config64
                    ticks [0%nat; 1%nat] ∅ Hall)).
Defined.

(** Ten shots, nine hits, nine headshots: both tests pass. *)
Definition sharp_burst : list event :=
  [ make_event "p1" "WEAPON_FIRED"
      (Some (MDict {[ "shots" := JInt 10; "hits" := JInt 9; "headshots" := JInt 9 ]})) ].

Lemma weapon_fired_kept_iff_witness :
  match extract_features (F := float) rejects config64 sharp_burst [0%nat] ∅ with
  | (h', Ok (f, interesting)) =>
      0%nat ∈ interesting
      /\ ev_interesting_reason (heap_get h' 0%nat) = Some (high_accuracy 9 10)
  | (_, Raise _) => False
  end.
Proof.
  destruct (extract_features (F := float) rejects config64 sharp_burst [0%nat] ∅)
    as [h' [[f interesting]|ex]] eqn:Hrun; [|vm_compute in Hrun; discriminate Hrun].
  destruct (@weapon_fired_kept_iff float binary64 rejects config64
              sharp_burst [0%nat] ∅ h' f interesting 0%nat
              {[ "shots" := JInt 10; "hits" := JInt 9; "headshots" := JInt 9 ]} 10 9 9
              Hrun ltac:(apply list_elem_of_singleton; reflexivity)
              eq_refl eq_refl eq_refl eq_refl eq_refl)
    as (Hiff & Hacc & _ & _).
  split.
  - apply Hiff. split; [vm_compute; discriminate|left; vm_compute; reflexivity].
  - apply Hacc; [vm_compute; discriminate|vm_compute; reflexivity].
Defined.

(** ** The cap of the risk score *)

Section RiskCap.
Context `{PyFloat F}.
Variable json_loads : string -> result meta.
Variable cfg : config F.

Lemma risk_capped (a hs : F) : flt (of_int 100) (risk a hs) = false.
Proof.
  unfold risk, min_100.
  match goal with |- context [if flt (of_int 100) ?x then _ else _] =>
    destruct (flt (of_int 100) x) eqn:E end; [apply flt_irrefl|exact E].
Qed.

(** X4.  In any float arithmetic, the risk score of a returned feature
    dictionary is never greater than 100, and it is the score computed
    from the accuracy and the headshot ratio of the same dictionary. *)
Theorem risk_score_capped (h : heap) (events : list loc) (existing : item F)
    (h' : heap) (f : features F) (interesting : list loc) :
  extract_features json_loads cfg h events existing = (h', Ok (f, interesting)) ->
  flt (of_int 100) (risk_score f) = false
  /\ risk_score f = risk (accuracy f) (headshotRatio f).
Proof.
  intros Hrun.
  apply extract_features_spec in Hrun as (done & _ & _ & _ & _ & _ & Hmerge).
  apply merge_features_inv in Hmerge
    as (es & eh & ph & pk & _ & _ & _ & _ & _ & _ & _ & _ & _ & _ & Hrisk).
  split; [rewrite Hrisk; apply risk_capped|exact Hrisk].
Qed.

End RiskCap.

Lemma risk_score_capped_witness :
  match extract_features (F := float) rejects config64 sharp_burst [0%nat] ∅ with
  | (h', Ok (f, interesting)) =>
      flt (of_int 100) (risk_score f) = false
      /\ risk_score f = risk (accuracy f) (headshotRatio f)
  | (_, Raise _) => False
  end.
Proof.
  destruct (extract_features (F := float) rejects config64 sharp_burst [0%nat] ∅)
    as [h' [[f interesting]|ex]] eqn:Hrun; [|vm_compute in Hrun; discriminate Hrun].
  exact (@risk_score_capped float binary64 rejects config64
           sharp_burst [0%nat] ∅ h' f interesting Hrun).
Defined.

(** ** The groups of [update_player_states] *)

(** X7.  The grouping is a partition of the batch by player id, a missing id
    counting as the player "unknown": the keys are distinct, every event's
    player has a group, and each group is exactly the events of its player
    in input order, so it is never empty. *)
Theorem group_by_player_partition (h : heap) (events : list loc) :
  let groups := group_by_player h events in
  NoDup groups.*1
  /\ (forall l, l ∈ events -> player_of h l ∈ groups.*1)
  /\ Forall (fun g => g.2 = events_of h g.1 events /\ g.2 <> []) groups.
Proof.
  cbv zeta. split; [apply group_by_player_NoDup|]. apply group_by_player_exact.
Qed.

(** ** What [update_player_states] leaves in the players table *)

Section Persisted.
Context `{PyFloat F}.
Variable json_loads : string -> result meta.
Variable cfg : config F.
Variable e : env F.
Variable owner : string.

(** The two items of player [p] after an iteration over [n] events that
    recorded [f], [before] being the store the iteration read. *)
Definition persisted (before after : store F) (p : string) (n : nat) (f : features F)
  : Prop :=
  let pk := owner +:+ "#" +:+ p in
  let existing := default ∅ (players_table before !! (pk, "PROFILE")) in
  exists count,
    py_int (state_get existing "eventCount" (AInt 0)) = Ok count
    /\ players_table after !! (pk, "PROFILE")
       = Some (profile_item e owner p existing (count + Z.of_nat n) f)
    /\ players_table after !! (pk, "FEATURES") = Some (features_item e owner p f).

Lemma update_player_persisted (ps : players_state (F := F)) (p : string) (ls : list loc) :
  let ps' := update_player json_loads cfg e owner ps (p, ls) in
  ps_updates ps' = ps_updates ps
  \/ exists f, ps_updates ps' = ps_updates ps ++ [(p, f)]
               /\ persisted (ps_store ps) (ps_store ps') p (length ls) f.
Proof.
  cbv zeta. unfold update_player, persisted.
  destruct (get_item_raises e _ "PROFILE"); [left; reflexivity|].
  cbn [log_call players_table].
  destruct (extract_features _ _ _ _ _) as [h' [[f ints]|ex]]; [|left; reflexivity].
  destruct (py_int _) as [count|ex] eqn:Hcount; [|left; reflexivity].
  destruct (put_item_raises e _ "PROFILE"); [left; reflexivity|].
  destruct (put_item_raises e _ "FEATURES"); [left; reflexivity|].
  right. exists f. split; [reflexivity|]. exists count. split; [reflexivity|].
  cbn [ps_store put_player log_call players_table]. split.
  - rewrite lookup_insert_ne by congruence. apply lookup_insert_eq.
  - apply lookup_insert_eq.
Qed.

Lemma update_player_tables (ps : players_state (F := F)) (group : string * list loc) :
  let ps' := update_player json_loads cfg e owner ps group in
  events_table (ps_store ps') = events_table (ps_store ps)
  /\ detections_table (ps_store ps') = detections_table (ps_store ps).
Proof.
  cbv zeta. destruct group as [p ls]. unfold update_player.
  destruct (get_item_raises e _ "PROFILE"); [cbn; auto|].
  destruct (extract_features _ _ _ _ _) as [h' [[f ints]|ex]]; [|cbn; auto].
  destruct (py_int _) as [count|ex]; [|cbn; auto].
  destruct (put_item_raises e _ "PROFILE"); [cbn; auto|].
  destruct (put_item_raises e _ "FEATURES"); cbn; auto.
Qed.

Lemma update_player_frame_sk (ps : players_state (F := F)) (group : string * list loc)
    (pk sk : string) :
  sk <> "PROFILE" -> sk <> "FEATURES" ->
  players_table (ps_store (update_player json_loads cfg e owner ps group)) !! (pk, sk)
  = players_table (ps_store ps) !! (pk, sk).
Proof.
  intros Hp Hf. destruct group as [p ls]. unfold update_player.
  destruct (get_item_raises e _ "PROFILE"); [reflexivity|].
  destruct (extract_features _ _ _ _ _) as [h' [[f ints]|ex]]; [|reflexivity].
  destruct (py_int _) as [count|ex]; [|reflexivity].
  destruct (put_item_raises e _ "PROFILE"); [reflexivity|].
  destruct (put_item_raises e _ "FEATURES"); cbn;
    rewrite ?lookup_insert_ne by congruence; reflexivity.
Qed.

Lemma update_players_frame (groups : list (string * list loc)) (pk sk : string) :
  (forall p, p ∈ groups.*1 -> pk <> owner +:+ "#" +:+ p)
  \/ (sk <> "PROFILE" /\ sk <> "FEATURES") ->
  forall ps : players_state (F := F),
    players_table (ps_store (fold_left (update_player json_loads cfg e owner) groups ps))
      !! (pk, sk)
    = players_table (ps_store ps) !! (pk, sk).
Proof.
  induction groups as [|g rest IH]; intros Hother ps; [reflexivity|].
  cbn [fold_left]. rewrite IH.
  - destruct Hother as [Hpk|[Hp Hf]].
    + apply update_player_frame. apply Hpk. cbn. apply elem_of_cons. auto.
    + apply update_player_frame_sk; assumption.
  - destruct Hother as [Hpk|Hsk]; [left|right; exact Hsk].
    intros p Hp. apply Hpk. cbn. apply elem_of_cons. auto.
Qed.

Lemma update_players_tables (groups : list (string * list loc)) :
  forall ps : players_state (F := F),
    let ps' := fold_left (update_player json_loads cfg e owner) groups ps in
    events_table (ps_store ps') = events_table (ps_store ps)
    /\ detections_table (ps_store ps') = detections_table (ps_store ps).
Proof.
  induction groups as [|g rest IH]; intros ps; [cbn; auto|].
  cbn [fold_left]. cbv zeta in IH |- *. destruct (IH (update_player json_loads cfg e owner ps g)) as [-> ->].
  apply update_player_tables.
Qed.

Lemma update_players_persisted (groups : list (string * list loc)) :
  NoDup groups.*1 ->
  forall (ps : players_state (F := F)) (p : string) (f : features F),
    let ps' := fold_left (update_player json_loads cfg e owner) groups ps in
    (p, f) ∈ ps_updates ps' ->
    (p, f) ∈ ps_updates ps
    \/ exists ls, (p, ls) ∈ groups /\ persisted (ps_store ps) (ps_store ps') p (length ls) f.
Proof.
  induction groups as [|[q ls] rest IH]; intros Hnodup ps p f; cbv zeta; [auto|].
  cbn in Hnodup. apply NoDup_cons in Hnodup as [Hfresh Hnodup].
  cbn [fold_left]. intros Hin.
  set (ps1 := update_player json_loads cfg e owner ps (q, ls)) in *.
  destruct (IH Hnodup ps1 p f Hin) as [Hin1|(ls' & Hls' & Hpers)].
  - pose proof (update_player_persisted ps q ls) as Hstep. cbv zeta in Hstep.
    fold ps1 in Hstep. destruct Hstep as [Hsame|(f' & Hupd & Hpers)].
    + left. rewrite <- Hsame. exact Hin1.
    + rewrite Hupd in Hin1. apply elem_of_app in Hin1 as [Hin1|Hin1]; [left; exact Hin1|].
      apply list_elem_of_singleton in Hin1. injection Hin1 as -> ->.
      right. exists ls. split; [apply elem_of_cons; auto|].
      destruct Hpers as (count & Hcount & Hprofile & Hfeatures).
      exists count. split; [exact Hcount|].
      rewrite !update_players_frame; [auto| |]; left; intros p Hp Heq;
        apply pk_inj in Heq; subst p; contradiction.
  - right. exists ls'. split; [apply elem_of_cons; auto|].
    assert (Hne : owner +:+ "#" +:+ p <> owner +:+ "#" +:+ q).
    { intros Heq. apply pk_inj in Heq. subst p. apply Hfresh.
      apply list_elem_of_fmap. exists (q, ls'). auto. }
    unfold persisted in Hpers |- *. subst ps1.
    rewrite !(update_player_frame json_loads cfg e owner ps (q, ls)) in Hpers by exact Hne.
    exact Hpers.
Qed.

End Persisted.

Section PersistedBatch.
Context `{PyFloat F}.
Variable json_loads : string -> result meta.
Variable cfg : config F.
Variable e : env F.
Variable owner : string.

(** X8.  Every player of [player_updates] has its two items in the table when
    the loop ends.  The PROFILE item is built from the PROFILE item read at
    the start: [eventCount] is the old count plus the number of the
    player's events in the batch, [firstSeen] and [status] are kept if
    present and set to the clock and to MONITOR if not, [lastSeen] is the
    clock and [riskScore] the new risk score.  The FEATURES item holds the
    features that [player_updates] reports. *)
Theorem updated_players_persisted (st : store F) (h : heap) (events : list loc)
    (p : string) (f : features F) :
  let ps := update_player_states json_loads cfg e st h events owner in
  (p, f) ∈ ps_updates ps ->
  let pk := owner +:+ "#" +:+ p in
  let existing := default ∅ (players_table st !! (pk, "PROFILE")) in
  exists (count : Z) (profile : item F),
    py_int (state_get existing "eventCount" (AInt 0)) = Ok count
    /\ players_table (ps_store ps) !! (pk, "PROFILE") = Some profile
    /\ profile
       = profile_item e owner p existing
           (count + Z.of_nat (length (events_of h p events))) f
    /\ profile !! "eventCount"
       = Some (AInt (count + Z.of_nat (length (events_of h p events))))
    /\ profile !! "firstSeen" = Some (default (AInt (now_ms e)) (existing !! "firstSeen"))
    /\ profile !! "status" = Some (default (AStr "MONITOR") (existing !! "status"))
    /\ profile !! "lastSeen" = Some (AInt (now_ms e))
    /\ profile !! "riskScore" = Some (ANum (risk_score f))
    /\ players_table (ps_store ps) !! (pk, "FEATURES") = Some (features_item e owner p f).
Proof.
  intros ps Hin pk existing. subst ps. unfold update_player_states in *.
  destruct (update_players_persisted json_loads cfg e owner (group_by_player h events)
              (group_by_player_NoDup h events)
              {| ps_store := st; ps_heap := h; ps_updates := []; ps_interesting := [] |}
              p f Hin) as [Hnil|(ls & Hls & count & Hcount & Hprofile & Hfeatures)].
  { apply elem_of_nil in Hnil. destruct Hnil. }
  destruct (group_by_player_exact h events) as [_ Hexact].
  unfold exact_groups in Hexact. rewrite Forall_forall in Hexact.
  destruct (Hexact (p, ls) Hls) as [Hgroup _]. cbn [fst snd] in Hgroup. subst ls.
  cbn [ps_store] in Hcount, Hprofile. fold pk existing in Hcount, Hprofile, Hfeatures.
  eexists count, _. split; [exact Hcount|]. split; [exact Hprofile|].
  split; [reflexivity|]. repeat (split; [reflexivity|]). exact Hfeatures.
Qed.


End PersistedBatch.

(** A player seen before: seven events so far, first seen at time 42. *)
Definition known_player_store : store float :=
  {| players_table :=
       {[ ("t1#p1", "PROFILE") :=
            {[ "eventCount" := AInt 7; "firstSeen" := AInt 42 ]} ]};
     events_table := []; detections_table := []; calls := [] |}.

Definition shots_then_tick : list event :=
  [ weapon_fired "p1" 10 8; make_event "p1" "PLAYER_TICK" None ].

Lemma updated_players_persisted_witness :
  let ps := update_player_states rejects config64 quiet_env known_player_store
              shots_then_tick [0%nat; 1%nat] "t1" in
  exists (f : features float) (profile : item float),
    ps_updates ps = [("p1", f)]
    /\ players_table (ps_store ps) !! ("t1#p1", "PROFILE") = Some profile
    /\ profile !! "eventCount" = Some (AInt 9)
    /\ profile !! "firstSeen" = Some (AInt 42)
    /\ players_table (ps_store ps) !! ("t1#p1", "FEATURES")
       = Some (features_item quiet_env "t1" "p1" f).
Proof.
  intros ps.
  assert (Hupd : exists f, ps_updates ps = [("p1", f)])
    by (vm_compute; eexists; reflexivity).
  destruct Hupd as [f Hupd].
  assert (Hin : ("p1", f) ∈ ps_updates ps)
    by (rewrite Hupd; apply list_elem_of_singleton; reflexivity).
  destruct (@updated_players_persisted float binary64 rejects config64 quiet_env "t1"
              known_player_store shots_then_tick [0%nat; 1%nat] "p1" f Hin)
    as (count & profile & Hcount & Hprofile & _ & Hevents & Hfirst & _ & _ & _ & Hfeatures).
  vm_compute in Hcount. injection Hcount as <-.
  exists f, profile. split; [exact Hupd|]. split; [exact Hprofile|].
  split; [exact Hevents|]. split; [exact Hfirst|exact Hfeatures].
Defined.


(** ** What the batch writers store and count *)

(** The entries of [xs] with their positions, counted from [i], whose
    write to [table] does not raise. *)
Definition passing {F A} (e : env F) (table : string) (i : nat) (xs : list A)
  : list (nat * A) :=
  List.filter (fun ix => negb (batch_put_raises e table ix.1))
    (zip (seq i (length xs)) xs).

Lemma passing_cons {F A} (e : env F) (table : string) (i : nat) (x : A) (xs : list A) :
  passing e table i (x :: xs)
  = if batch_put_raises e table i then passing e table (S i) xs
    else (i, x) :: passing e table (S i) xs.
Proof.
  unfold passing. cbn [length seq zip zip_with List.filter fst].
  destruct (batch_put_raises e table i); reflexivity.
Qed.

Lemma passing_length {F A} (e : env F) (table : string) (xs : list A) :
  forall i, (length (passing e table i xs) <= length xs)%nat.
Proof.
  induction xs as [|x xs IH]; intros i; [cbn; lia|].
  rewrite passing_cons. specialize (IH (S i)).
  destruct (batch_put_raises e table i); cbn [length]; lia.
Qed.

Lemma passing_all {F A} (e : env F) (table : string) (xs : list A) :
  (forall i, batch_put_raises e table i = false) ->
  forall i, length (passing e table i xs) = length xs.
Proof.
  intros Hpass. induction xs as [|x xs IH]; intros i; [reflexivity|].
  rewrite passing_cons, Hpass. cbn [length]. rewrite IH. reflexivity.
Qed.

Section Writers.
Context `{PyFloat F}.
Variable cfg : config F.
Variable e : env F.
Variable owner : string.

Lemma store_events_from_count (h : heap) (events : list loc) :
  forall (i : nat) (st : store F) (n : Z),
    let r := store_events_from cfg e h owner i events (st, n) in
    let written := passing e "events" i events in
    events_table r.1
    = events_table st
      ++ ((fun ix => event_item cfg e owner ix.1 (heap_get h ix.2)) <$> written)
    /\ r.2 = n + Z.of_nat (length written)
    /\ players_table r.1 = players_table st
    /\ detections_table r.1 = detections_table st
    /\ length (calls r.1) = (length (calls st) + length events)%nat.
Proof.
  induction events as [|l rest IH]; intros i st n; cbv zeta.
  - cbn. rewrite app_nil_r. repeat split; lia.
  - cbn [store_events_from]. rewrite passing_cons. unfold put_event at 1 2 3 4 5.
    destruct (batch_put_raises e "events" i).
    + match goal with |- context [store_events_from _ _ _ _ _ _ (?s, ?m)] =>
        destruct (IH (S i) s m) as (Hev & Hn & Hpl & Hdet & Hcalls) end.
      rewrite Hev, Hn, Hpl, Hdet, Hcalls. cbn [log_call events_table players_table
        detections_table calls length]. rewrite length_app. cbn [length].
      repeat split; lia.
    + match goal with |- context [store_events_from _ _ _ _ _ _ (?s, ?m)] =>
        destruct (IH (S i) s m) as (Hev & Hn & Hpl & Hdet & Hcalls) end.
      rewrite Hev, Hn, Hpl, Hdet, Hcalls. cbn [log_call events_table players_table
        detections_table calls length fmap list_fmap fst snd].
      rewrite length_app, <- app_assoc. cbn [length app].
      repeat split; lia.
Qed.

Lemma store_detections_from_count (detections : list (detection F)) :
  forall (i : nat) (st : store F) (n : Z),
    let r := store_detections_from cfg e owner i detections (st, n) in
    let written := passing e "detections" i detections in
    detections_table r.1
    = detections_table st ++ ((fun ix => detection_item cfg e owner ix.1 ix.2) <$> written)
    /\ r.2 = n + Z.of_nat (length written)
    /\ players_table r.1 = players_table st
    /\ events_table r.1 = events_table st
    /\ length (calls r.1) = (length (calls st) + length detections)%nat.
Proof.
  induction detections as [|d rest IH]; intros i st n; cbv zeta.
  - cbn. rewrite app_nil_r. repeat split; lia.
  - cbn [store_detections_from]. rewrite passing_cons. unfold put_detection at 1 2 3 4 5.
    destruct (batch_put_raises e "detections" i).
    + match goal with |- context [store_detections_from _ _ _ _ _ (?s, ?m)] =>
        destruct (IH (S i) s m) as (Hdet & Hn & Hpl & Hev & Hcalls) end.
      rewrite Hev, Hn, Hpl, Hdet, Hcalls. cbn [log_call events_table players_table
        detections_table calls length]. rewrite length_app. cbn [length].
      repeat split; lia.
    + match goal with |- context [store_detections_from _ _ _ _ _ (?s, ?m)] =>
        destruct (IH (S i) s m) as (Hdet & Hn & Hpl & Hev & Hcalls) end.
      rewrite Hev, Hn, Hpl, Hdet, Hcalls. cbn [log_call events_table players_table
        detections_table calls length fmap list_fmap fst snd].
      rewrite length_app, <- app_assoc. cbn [length app].
      repeat split; lia.
Qed.

Lemma store_events_written (st : store F) (h : heap) (events : list loc) :
  let r := store_events cfg e st h events owner in
  let written := passing e "events" 0 events in
  events_table r.1
  = events_table st
    ++ ((fun ix => event_item cfg e owner ix.1 (heap_get h ix.2)) <$> written)
  /\ r.2 = Z.of_nat (length written)
  /\ players_table r.1 = players_table st
  /\ detections_table r.1 = detections_table st.
Proof.
  cbv zeta. unfold store_events.
  destruct (store_events_from_count h events 0%nat st 0) as (Hev & Hn & Hpl & Hdet & _).
  rewrite Hn. auto.
Qed.

Lemma store_detections_written (st : store F) (detections : list (detection F)) :
  let r := store_detections cfg e st detections owner in
  let written := passing e "detections" 0 detections in
  detections_table r.1
  = detections_table st ++ ((fun ix => detection_item cfg e owner ix.1 ix.2) <$> written)
  /\ r.2 = Z.of_nat (length written)
  /\ players_table r.1 = players_table st
  /\ events_table r.1 = events_table st.
Proof.
  cbv zeta. unfold store_detections.
  destruct (store_detections_from_count detections 0%nat st 0) as (Hdet & Hn & Hpl & Hev & _).
  rewrite Hn. auto.
Qed.

End Writers.

Section WriterCounts.
Context `{PyFloat F}.
Variable cfg : config F.
Variable e : env F.
Variable owner : string.

(** X10.  [store_events] appends one item per event whose write does not raise,
    in order, each built from the event and its position, and returns
    their number: between 0 and the number of events, and that number when
    no write raises.  It attempts one write per event and touches neither
    the players nor the detections table. *)
Theorem store_events_count (st : store F) (h : heap) (events : list loc) :
  let r := store_events cfg e st h events owner in
  let written := passing e "events" 0 events in
  events_table r.1
  = events_table st
    ++ ((fun ix => event_item cfg e owner ix.1 (heap_get h ix.2)) <$> written)
  /\ r.2 = Z.of_nat (length written)
  /\ 0 <= r.2 <= Z.of_nat (length events)
  /\ ((forall i, batch_put_raises e "events" i = false) -> r.2 = Z.of_nat (length events))
  /\ players_table r.1 = players_table st
  /\ detections_table r.1 = detections_table st
  /\ length (calls r.1) = (length (calls st) + length events)%nat.
Proof.
  cbv zeta. unfold store_events.
  destruct (store_events_from_count cfg e owner h events 0%nat st 0)
    as (Hev & Hn & Hpl & Hdet & Hcalls).
  pose proof (passing_length e "events" events 0%nat) as Hlen.
  rewrite Hn. repeat (split; [first [assumption|lia]|]). split; [|auto].
  intros Hpass. rewrite (passing_all e "events" events Hpass). lia.
Qed.

(** X11.  [store_detections] does the same for the detections: one item per
    detection whose write does not raise, with status OPEN, the clock as
    creation time and the owner given; the number returned is the number
    of items appended. *)
Theorem store_detections_count (st : store F) (detections : list (detection F)) :
  let r := store_detections cfg e st detections owner in
  let written := passing e "detections" 0 detections in
  detections_table r.1
  = detections_table st ++ ((fun ix => detection_item cfg e owner ix.1 ix.2) <$> written)
  /\ Forall (fun it => it !! "status" = Some (AStr "OPEN")
                       /\ it !! "createdAt" = Some (AInt (now_ms e))
                       /\ it !! "owner" = Some (AStr owner))
       ((fun ix => detection_item cfg e owner ix.1 ix.2) <$> written)
  /\ r.2 = Z.of_nat (length written)
  /\ 0 <= r.2 <= Z.of_nat (length detections)
  /\ ((forall i, batch_put_raises e "detections" i = false) ->
      r.2 = Z.of_nat (length detections))
  /\ players_table r.1 = players_table st
  /\ events_table r.1 = events_table st.
Proof.
  cbv zeta. unfold store_detections.
  destruct (store_detections_from_count cfg e owner detections 0%nat st 0)
    as (Hdet & Hn & Hpl & Hev & Hcalls).
  pose proof (passing_length e "detections" detections 0%nat) as Hlen.
  rewrite Hn. split; [exact Hdet|]. split.
  { apply Forall_fmap, Forall_forall. intros ix _. cbn. auto. }
  repeat (split; [first [assumption|lia]|]). split; [|auto].
  intros Hpass. rewrite (passing_all e "detections" detections Hpass). lia.
Qed.

End WriterCounts.

(** ** The counters of the response *)

Lemma group_append_concat (p : string) (l : loc) (groups : list (string * list loc)) :
  concat (group_append p l groups).*2 ≡ₚ concat groups.*2 ++ [l].
Proof.
  induction groups as [|[q ls] rest IH]; [reflexivity|].
  cbn [group_append]. destruct (decide (q = p)) as [->|Hne].
  - cbn. rewrite <- !app_assoc. apply Permutation_app_head, Permutation_app_comm.
  - cbn [fmap list_fmap snd concat]. change (list_fmap _ _ snd ?x) with (x.*2).
    rewrite IH, app_assoc. reflexivity.
Qed.

Lemma group_by_player_concat (h : heap) (events : list loc) :
  concat (group_by_player h events).*2 ≡ₚ events.
Proof.
  unfold group_by_player. induction events as [|l events IH] using rev_ind; [reflexivity|].
  rewrite fold_left_app. cbn [fold_left]. rewrite group_append_concat, IH. reflexivity.
Qed.

Lemma group_by_player_length (h : heap) (events : list loc) :
  (length (group_by_player h events) <= length events)%nat.
Proof.
  rewrite <- (length_fmap fst).
  unfold group_by_player. induction events as [|l events IH] using rev_ind; [cbn; lia|].
  rewrite fold_left_app. cbn [fold_left]. rewrite group_append_keys.
  rewrite length_app. cbn [length].
  destruct (bool_decide _); rewrite ?length_app; cbn [length]; lia.
Qed.

Lemma concat_sublists (groups : list (string * list loc)) (cs : list (list loc)) :
  Forall2 (fun g c => c `sublist_of` g.2) groups cs ->
  concat cs `sublist_of` concat groups.*2.
Proof.
  induction 1 as [|g c groups cs Hc _ IH]; [constructor|].
  cbn. apply sublist_app; assumption.
Qed.

Section Counters.
Context `{PyFloat F}.
Variable json_loads : string -> result meta.
Variable cfg : config F.

Lemma detect_player_length (player_id : string) (f : features F) :
  (length (detect_player cfg player_id f) <= 2)%nat.
Proof.
  rewrite detect_player_eq, length_app.
  destruct (zscore_fires cfg f), (headshot_fires cfg f); cbn; lia.
Qed.

Lemma run_detection_length (player_updates : list (string * features F)) (owner : string) :
  (length (run_detection cfg player_updates owner) <= 2 * length player_updates)%nat.
Proof.
  unfold run_detection. induction player_updates as [|[p f] rest IH]; [cbn; lia|].
  cbn [flat_map]. rewrite length_app. pose proof (detect_player_length p f).
  cbn [length]. lia.
Qed.

(** The keys that the loop adds to [player_updates] are a subsequence of
    the keys of the groups. *)
Lemma update_players_keys (e : env F) (owner : string) (groups : list (string * list loc)) :
  forall ps : players_state (F := F),
    exists keys,
      (ps_updates (fold_left (update_player json_loads cfg e owner) groups ps)).*1
      = (ps_updates ps).*1 ++ keys
      /\ keys `sublist_of` groups.*1.
Proof.
  induction groups as [|[p ls] rest IH]; intros ps; cbn [fold_left].
  - exists []. rewrite app_nil_r. split; [reflexivity|constructor].
  - destruct (IH (update_player json_loads cfg e owner ps (p, ls))) as (keys & Heq & Hsub).
    destruct (update_player_persisted json_loads cfg e owner ps p ls)
      as [Hsame|(f & Hupd & _)].
    + exists keys. rewrite Heq, Hsame. split; [reflexivity|].
      cbn. apply sublist_cons. exact Hsub.
    + exists (p :: keys). rewrite Heq, Hupd, fmap_app, <- app_assoc. split; [reflexivity|].
      cbn. apply sublist_skip. exact Hsub.
Qed.

Lemma update_players_interesting_NoDup (e : env F) (owner : string) (st : store F)
    (h : heap) (events : list loc) :
  NoDup events ->
  let ps := update_player_states json_loads cfg e st h events owner in
  NoDup (ps_interesting ps) /\ forall l, l ∈ ps_interesting ps -> l ∈ events.
Proof.
  intros Hnodup. cbv zeta. unfold update_player_states.
  destruct (update_players_spec json_loads cfg e owner h (group_by_player h events)
              {| ps_store := st; ps_heap := h; ps_updates := []; ps_interesting := [] |}
              (evolves_refl json_loads cfg h))
    as (_ & cs & _ & Hint & _ & Hcontrib & _).
  rewrite Hint. cbn [ps_interesting app].
  assert (Hsub : concat cs `sublist_of` concat (group_by_player h events).*2).
  { apply concat_sublists. eapply Forall2_impl; [exact Hcontrib|].
    intros g c. apply contribution_sublist. }
  assert (Hgroups : NoDup (concat (group_by_player h events).*2))
    by (rewrite group_by_player_concat; exact Hnodup).
  split; [eapply sublist_NoDup; eassumption|].
  intros l Hl. rewrite <- (group_by_player_concat h events).
  eapply elem_of_sublist; eassumption.
Qed.

End Counters.

Lemma feedback_NoDup (h : heap) (ids : gset string) (events interesting : list loc) :
  NoDup events -> NoDup interesting ->
  let final := fold_left (feedback h ids) events interesting in
  NoDup final /\ forall l, l ∈ final -> l ∈ interesting \/ l ∈ events.
Proof.
  intros Hevents Hint. cbv zeta.
  destruct (feedback_spec h ids events interesting) as (added & -> & Hsub & Hfresh & _).
  split.
  - apply NoDup_app. split; [exact Hint|]. split; [|exact (sublist_NoDup _ _ Hevents Hsub)].
    intros l Hl Hadded.
    apply list_elem_of_lookup in Hl as [i Hi]. apply list_elem_of_lookup in Hadded as [j Hj].
    pose proof (lookup_lt_Some _ _ _ Hi) as Hlt.
    apply (Hfresh (length interesting) (appended_fresh_init h interesting)
             i (length interesting + j)%nat l l); [lia|lia| | |reflexivity].
    + rewrite lookup_app_l by exact Hlt. exact Hi.
    + rewrite lookup_app_r by lia.
      replace (length interesting + j - length interesting)%nat with j by lia. exact Hj.
  - intros l Hl. apply elem_of_app in Hl as [Hl|Hl]; [left; exact Hl|right].
    eapply elem_of_sublist; eassumption.
Qed.

Section BatchCounters.
Context `{PyFloat F}.
Variable json_loads : string -> result meta.
Variable cfg : config F.
Variable json_loads_body : string -> result body_json.

(** The batch without the tests for an empty list: on an empty list a
    writer stores nothing and returns 0. *)
Lemma process_events_unfold (e : env F) (st : store F) (batch : list event) :
  process_events json_loads cfg e st batch
  = let ps := players_after json_loads cfg e st batch in
    let owner := batch_owner batch in
    let detections := run_detection cfg (ps_updates ps) owner in
    let interesting :=
      fold_left (feedback (ps_heap ps) (detection_ids detections))
        (seq 0 (length batch)) (ps_interesting ps) in
    let se := store_events cfg e (ps_store ps) (ps_heap ps) interesting owner in
    let sd := store_detections cfg e se.1 detections owner in
    {| out_heap := ps_heap ps;
       out_player_updates := ps_updates ps;
       out_detections := detections;
       out_interesting := interesting;
       out_events_stored := se.2;
       out_detections_stored := sd.2;
       out_store := sd.1 |}.
Proof.
  unfold process_events, players_after, batch_owner, detection_ids. cbv zeta.
  set (ps := update_player_states _ _ _ _ _ _ _).
  set (owner := default "unknown" _).
  set (detections := run_detection _ _ _).
  set (interesting := fold_left _ _ _).
  destruct interesting as [|l ints].
  - change (store_events cfg e (ps_store ps) (ps_heap ps) [] owner) with (ps_store ps, 0).
    cbn [fst snd]. destruct detections as [|d ds]; [reflexivity|].
    destruct (store_detections cfg e (ps_store ps) (d :: ds) owner) as [st2 n2].
    reflexivity.
  - destruct (store_events cfg e (ps_store ps) (ps_heap ps) (l :: ints) owner) as [st1 n1].
    cbn [fst snd]. destruct detections as [|d ds]; [reflexivity|].
    destruct (store_detections cfg e st1 (d :: ds) owner) as [st2 n2].
    reflexivity.
Qed.

Lemma out_interesting_NoDup (e : env F) (st : store F) (batch : list event) :
  let o := process_events json_loads cfg e st batch in
  NoDup (out_interesting o)
  /\ forall l, l ∈ out_interesting o -> (l < length batch)%nat.
Proof.
  cbv zeta.
  destruct (process_events_parts json_loads cfg e st batch) as (_ & _ & _ & ->).
  destruct (update_players_interesting_NoDup json_loads cfg e (batch_owner batch) st batch
              (seq 0 (length batch)) (NoDup_seq _ _)) as [Hnodup Hin].
  fold (players_after json_loads cfg e st batch) in Hnodup, Hin.
  destruct (feedback_NoDup (ps_heap (players_after json_loads cfg e st batch))
              (detection_ids (out_detections (process_events json_loads cfg e st batch)))
              (seq 0 (length batch))
              (ps_interesting (players_after json_loads cfg e st batch))
              (NoDup_seq _ _) Hnodup) as [Hfinal Hfrom].
  split; [exact Hfinal|].
  intros l Hl. destruct (Hfrom l Hl) as [Hl'|Hl']; [apply Hin in Hl'|];
    apply elem_of_seq in Hl'; lia.
Qed.

End BatchCounters.

Section ResponseCounters.
Context `{PyFloat F}.
Variable json_loads : string -> result meta.
Variable cfg : config F.
Variable json_loads_body : string -> result body_json.

(** X12.  The counters of the response to a non-empty batch are consistent.
    No event is twice in the final interesting list and no player twice in
    [player_updates]; so eventsStored and eventsSkipped are not negative
    and add up to at most eventsReceived, playersUpdated is at most
    eventsReceived, and detectionsCreated is at most twice playersUpdated.
    When no write of a batch writer raises, eventsStored plus
    eventsSkipped is eventsReceived and detectionsCreated is the number of
    detections. *)
Theorem response_counters_consistent (e : env F) (st : store F) (context : option string)
    (first : event) (others : list event) :
  let batch := first :: others in
  let o := process_events json_loads cfg e st batch in
  let r := (lambda_handler json_loads cfg json_loads_body e
              (BodyObj (Some batch)) context st).1 in
  let received := Z.of_nat (length batch) in
  exists stored skipped players created : Z,
    body r !! "eventsReceived" = Some (RInt received)
    /\ body r !! "eventsStored" = Some (RInt stored)
    /\ body r !! "eventsSkipped" = Some (RInt skipped)
    /\ body r !! "playersUpdated" = Some (RInt players)
    /\ body r !! "detectionsCreated" = Some (RInt created)
    /\ NoDup (out_interesting o)
    /\ NoDup (out_player_updates o).*1
    /\ 0 <= stored /\ 0 <= skipped /\ stored + skipped <= received
    /\ 0 <= players <= received
    /\ 0 <= created <= 2 * players
    /\ ((forall table i, batch_put_raises e table i = false) ->
        stored + skipped = received
        /\ created = Z.of_nat (length (out_detections o))).
Proof.
  intros batch o r received.
  exists (out_events_stored o),
         (received - Z.of_nat (length (out_interesting o))),
         (Z.of_nat (length (out_player_updates o))),
         (out_detections_stored o).
  assert (Hbody : body r
    = {[ "success" := RBool true;
         "eventsReceived" := RInt received;
         "eventsStored" := RInt (out_events_stored o);
         "eventsSkipped" := RInt (received - Z.of_nat (length (out_interesting o)));
         "playersUpdated" := RInt (Z.of_nat (length (out_player_updates o)));
         "detectionsCreated" := RInt (out_detections_stored o);
         "processingTimeMs" := RNum (processing_time_ms e);
         "requestId" := RStr (default (request_uuid e) context) ]}).
  { subst r batch. rewrite lambda_handler_batch. reflexivity. }
  rewrite Hbody. clear Hbody.
  split; [rewrite lookup_insert_ne by discriminate; apply lookup_insert_eq|].
  split; [do 2 (rewrite lookup_insert_ne by discriminate); apply lookup_insert_eq|].
  split; [do 3 (rewrite lookup_insert_ne by discriminate); apply lookup_insert_eq|].
  split; [do 4 (rewrite lookup_insert_ne by discriminate); apply lookup_insert_eq|].
  split; [do 5 (rewrite lookup_insert_ne by discriminate); apply lookup_insert_eq|].
  destruct (out_interesting_NoDup json_loads cfg e st batch) as [Hnodup Hbound].
  fold o in Hnodup, Hbound.
  assert (Hlen : (length (out_interesting o) <= length batch)%nat).
  { assert (Hsub : out_interesting o ⊆+ seq 0 (length batch)).
    { apply NoDup_submseteq; [exact Hnodup|].
      intros l Hl. apply elem_of_seq. specialize (Hbound l Hl). lia. }
    apply submseteq_length in Hsub. rewrite length_seq in Hsub. exact Hsub. }
  assert (Ho : o = process_events json_loads cfg e st batch) by reflexivity.
  rewrite process_events_unfold in Ho. cbv zeta in Ho.
  set (ps := players_after json_loads cfg e st batch) in *.
  set (detections := run_detection cfg (ps_updates ps) (batch_owner batch)) in *.
  set (interesting := fold_left _ _ _) in Ho.
  assert (Hint : out_interesting o = interesting) by (rewrite Ho; reflexivity).
  assert (Hdet : out_detections o = detections) by (rewrite Ho; reflexivity).
  assert (Hupd : out_player_updates o = ps_updates ps) by (rewrite Ho; reflexivity).
  destruct (store_events_written cfg e (batch_owner batch) (ps_store ps) (ps_heap ps)
              interesting) as (_ & Hstored & _).
  set (se := store_events cfg e (ps_store ps) (ps_heap ps) interesting (batch_owner batch)) in *.
  destruct (store_detections_written cfg e (batch_owner batch) se.1 detections)
    as (_ & Hcreated & _).
  set (sd := store_detections cfg e se.1 detections (batch_owner batch)) in *.
  pose proof (passing_length e "events" interesting 0%nat) as Hle.
  pose proof (passing_length e "detections" detections 0%nat) as Hle'.
  assert (Hes : out_events_stored o = se.2) by (rewrite Ho; reflexivity).
  assert (Hds : out_detections_stored o = sd.2) by (rewrite Ho; reflexivity).
  destruct (update_players_keys json_loads cfg e (batch_owner batch)
              (group_by_player batch (seq 0 (length batch)))
              {| ps_store := st; ps_heap := batch; ps_updates := []; ps_interesting := [] |})
    as (keys & Hkeys & Hsub).
  change (fold_left _ _ _) with ps in Hkeys. cbn [ps_updates fmap list_fmap app] in Hkeys.
  assert (Hplayers : (length (ps_updates ps) <= length batch)%nat).
  { rewrite <- (length_fmap fst), Hkeys.
    etransitivity; [apply sublist_length; exact Hsub|].
    rewrite length_fmap.
    etransitivity; [apply group_by_player_length|]. rewrite length_seq. lia. }
  pose proof (run_detection_length cfg (ps_updates ps) (batch_owner batch)) as Hdets.
  fold detections in Hdets.
  rewrite Hes, Hds, Hupd, Hint, Hstored, Hcreated in *. clear Ho.
  split; [exact Hnodup|].
  split; [rewrite Hkeys; exact (sublist_NoDup _ _ (group_by_player_NoDup _ _) Hsub)|].
  subst received. repeat (split; [lia|]).
  intros Hpass.
  rewrite (passing_all e "events" interesting (Hpass "events")).
  rewrite (passing_all e "detections" detections (Hpass "detections")).
  rewrite Hdet. lia.
Qed.

End ResponseCounters.

(** ** The tenant of the stored rows *)

Lemma elem_of_passing {F A} (e : env F) (table : string) (xs : list A) (ix : nat * A) :
  forall i, ix ∈ passing e table i xs -> ix.2 ∈ xs.
Proof.
  induction xs as [|x xs IH]; intros i; [intros Hin; apply elem_of_nil in Hin; destruct Hin|].
  rewrite passing_cons. destruct (batch_put_raises e table i).
  - intros Hin. apply elem_of_cons. right. exact (IH _ Hin).
  - intros [->|Hin]%elem_of_cons; apply elem_of_cons; [left; reflexivity|right].
    exact (IH _ Hin).
Qed.

Section Tenant.
Context `{PyFloat F}.
Variable json_loads : string -> result meta.
Variable cfg : config F.

(** X13.  Every row that a batch appends to the events table or to the
    detections table is filed under the owner of the first event of the
    batch ("unknown" if it has none), whatever the owner of the event it
    holds: the row of an interesting event carries that owner, the event's
    own player id and the key owner#player, and the row of a detection
    carries that owner and the detection's player. *)
Theorem rows_filed_under_batch_owner (e : env F) (st : store F) (batch : list event) :
  let o := process_events json_loads cfg e st batch in
  let owner := batch_owner batch in
  exists event_rows detection_rows,
    events_table (out_store o) = events_table st ++ event_rows
    /\ detections_table (out_store o) = detections_table st ++ detection_rows
    /\ Forall (fun it =>
         exists l, l ∈ out_interesting o
           /\ it !! "owner" = Some (AStr owner)
           /\ it !! "playerId" = Some (AStr (player_of batch l))
           /\ it !! "pk" = Some (AStr (owner +:+ "#" +:+ player_of batch l)))
         event_rows
    /\ Forall (fun it =>
         exists d, d ∈ out_detections o
           /\ it !! "owner" = Some (AStr owner)
           /\ it !! "playerId" = Some (AStr (d_playerId d))
           /\ it !! "pk" = Some (AStr (owner +:+ "#" +:+ d_playerId d)))
         detection_rows.
Proof.
  intros o owner.
  assert (Ho : o = process_events json_loads cfg e st batch) by reflexivity.
  rewrite process_events_unfold in Ho. cbv zeta in Ho. fold owner in Ho.
  set (ps := players_after json_loads cfg e st batch) in *.
  set (detections := run_detection cfg (ps_updates ps) owner) in *.
  set (interesting := fold_left _ _ _) in Ho.
  destruct (store_events_written cfg e owner (ps_store ps) (ps_heap ps) interesting)
    as (Hev & _ & _ & Hdet).
  set (se := store_events cfg e (ps_store ps) (ps_heap ps) interesting owner) in *.
  destruct (store_detections_written cfg e owner se.1 detections)
    as (Hdet' & _ & _ & Hev').
  set (sd := store_detections cfg e se.1 detections owner) in *.
  destruct (update_players_tables json_loads cfg e owner
              (group_by_player batch (seq 0 (length batch)))
              {| ps_store := st; ps_heap := batch; ps_updates := []; ps_interesting := [] |})
    as [Hev0 Hdet0].
  change (fold_left _ _ _) with ps in Hev0, Hdet0. cbn [ps_store] in Hev0, Hdet0.
  eexists _, _. rewrite Ho. cbn [out_store out_interesting out_detections].
  split; [rewrite Hev', Hev, Hev0; reflexivity|].
  split; [rewrite Hdet', Hdet, Hdet0; reflexivity|]. split.
  - apply Forall_fmap, Forall_forall. intros [i l] Hin.
    apply elem_of_passing in Hin. cbn [fst snd] in Hin |- *. exists l.
    split; [exact Hin|].
    assert (Hplayer : default "unknown" (ev_playerId (heap_get (ps_heap ps) l))
                      = player_of batch l).
    { apply (player_of_evolves json_loads cfg batch (ps_heap ps) l).
      apply players_after_evolves. }
    unfold event_item. cbv zeta. cbn [fst snd]. rewrite Hplayer. auto.
  - apply Forall_fmap, Forall_forall. intros [i d] Hin.
    apply elem_of_passing in Hin. cbn [fst snd] in Hin |- *. exists d.
    split; [exact Hin|]. cbn. auto.
Qed.

End Tenant.

(** ** Detection on a store that only this handler has written *)

(** An item without any of the keys that [extract_features] reads. *)
Definition lacks_features {F} (it : item F) : Prop :=
  Forall (fun k => it !! k = None) feature_keys.

(** No PROFILE item of the store holds a feature key: so it is of the
    empty store, and of every store that only this handler has written. *)
Definition profiles_lack_features {F} (st : store F) : Prop :=
  forall pk it, players_table st !! (pk, "PROFILE") = Some it -> lacks_features it.

Section NoHistory.
Context `{PyFloat F}.
Variable json_loads : string -> result meta.
Variable cfg : config F.

(** [int(0.0 + 1)] is 1. *)
Definition counts_to_one : Prop := to_int (fadd (of_int 0) (of_int 1)) = Some 1.

Lemma merge_features_lacking (it : item F) (c : counters) :
  lacks_features it -> merge_features it c = merge_features ∅ c.
Proof.
  intros Hlacks.
  assert (Hget : forall key dflt, key ∈ feature_keys ->
            state_get it key dflt = state_get ∅ key dflt).
  { intros key dflt Hkey. unfold lacks_features in Hlacks. rewrite Forall_forall in Hlacks.
    unfold state_get. rewrite (Hlacks key Hkey), lookup_empty. reflexivity. }
  unfold merge_features, welford.
  rewrite !Hget by (apply list_elem_of_In; cbn; tauto). reflexivity.
Qed.

Lemma profile_item_lacks (e : env F) (owner player_id : string) (existing : item F)
    (count : Z) (f : features F) :
  lacks_features (profile_item e owner player_id existing count f).
Proof.
  unfold lacks_features. apply Forall_forall. intros key Hkey.
  apply (not_elem_of_dom (D := gset string)). rewrite profile_item_dom.
  pose proof feature_keys_not_profile as Hall. rewrite Forall_forall in Hall.
  apply Hall. exact Hkey.
Qed.

Lemma first_sample_count (c : counters) (f : features F) :
  counts_to_one -> merge_features ∅ c = Ok f -> accuracySampleCount f <= 1.
Proof.
  intros Hone Hm.
  apply merge_features_welford in Hm. rename Hm into Hw.
  unfold welford, state_get in Hw. rewrite !lookup_empty in Hw.
  cbn [from_option Datatypes.id py_float py_int mbind result_bind] in Hw.
  destruct (0 <? shots_fired c).
  - destruct (int_div _ _) as [x|]; [|discriminate Hw].
    cbn [mbind result_bind] in Hw.
    destruct (fis_zero _); [discriminate Hw|].
    unfold int_of_float in Hw. rewrite Hone in Hw. cbn in Hw.
    injection Hw as <- _ _ _. lia.
  - injection Hw as <- _ _ _. lia.
Qed.

(** What the loop over the players keeps when no profile holds features. *)
Definition without_history (ps : players_state (F := F)) : Prop :=
  profiles_lack_features (ps_store ps)
  /\ Forall (fun u => accuracySampleCount u.2 <= 1) (ps_updates ps).

Lemma update_player_without_history (e : env F) (owner : string)
    (ps : players_state (F := F)) (group : string * list loc) :
  counts_to_one -> without_history ps ->
  without_history (update_player json_loads cfg e owner ps group).
Proof.
  intros Hone [Hstore Hupd]. destruct group as [p ls]. unfold update_player.
  destruct (get_item_raises e _ "PROFILE"); [split; assumption|].
  cbn [log_call players_table].
  set (pk := owner +:+ "#" +:+ p).
  assert (Hexisting : lacks_features (default ∅ (players_table (ps_store ps) !! (pk, "PROFILE")))).
  { destruct (players_table (ps_store ps) !! (pk, "PROFILE")) as [it|] eqn:Hit; cbn.
    - exact (Hstore _ _ Hit).
    - apply Forall_forall. intros k _. apply lookup_empty. }
  destruct (extract_features _ _ _ _ _) as [h' [[f ints]|ex]] eqn:Hrun; [|split; assumption].
  apply extract_features_spec in Hrun as (done & _ & _ & _ & _ & _ & Hmerge).
  rewrite (merge_features_lacking _ _ Hexisting) in Hmerge.
  pose proof (first_sample_count _ _ Hone Hmerge) as Hcount.
  destruct (py_int _) as [count|ex]; [|split; assumption].
  destruct (put_item_raises e _ "PROFILE"); [split; assumption|].
  assert (Hstore' : forall pk' it,
            <[(pk, "PROFILE") := profile_item e owner p
                (default ∅ (players_table (ps_store ps) !! (pk, "PROFILE")))
                (count + Z.of_nat (length ls)) f]> (players_table (ps_store ps))
              !! (pk', "PROFILE") = Some it -> lacks_features it).
  { intros pk' it. destruct (decide (pk' = pk)) as [->|Hne].
    - rewrite lookup_insert_eq. intros Hit. injection Hit as <-. apply profile_item_lacks.
    - rewrite lookup_insert_ne by congruence. apply Hstore. }
  destruct (put_item_raises e _ "FEATURES").
  - split; [exact Hstore'|exact Hupd].
  - split.
    + intros pk' it. cbn [ps_store put_player log_call players_table].
      rewrite lookup_insert_ne by congruence. apply Hstore'.
    + cbn [ps_updates]. apply Forall_app. split; [exact Hupd|].
      constructor; [exact Hcount|constructor].
Qed.

Lemma update_players_without_history (e : env F) (owner : string)
    (groups : list (string * list loc)) :
  counts_to_one ->
  forall ps : players_state (F := F),
    without_history ps ->
    without_history (fold_left (update_player json_loads cfg e owner) groups ps).
Proof.
  intros Hone. induction groups as [|g rest IH]; intros ps Hps; [exact Hps|].
  cbn [fold_left]. apply IH. apply update_player_without_history; assumption.
Qed.

Lemma run_detection_below_floor (player_updates : list (string * features F))
    (owner : string) :
  2 <= MIN_SAMPLES_FOR_DETECTION cfg ->
  Forall (fun u => accuracySampleCount u.2 <= 1) player_updates ->
  run_detection cfg player_updates owner = [].
Proof.
  intros Hmin Hall. unfold run_detection.
  induction Hall as [|[p f] rest Hf _ IH]; [reflexivity|].
  cbn [flat_map]. rewrite IH, app_nil_r. unfold detect_player.
  cbn [snd] in Hf.
  destruct (Z.ltb_spec (accuracySampleCount f) (MIN_SAMPLES_FOR_DETECTION cfg));
    [reflexivity|lia].
Qed.

End NoHistory.

Lemma feedback_no_detection (h : heap) (events interesting : list loc) :
  fold_left (feedback h ∅) events interesting = interesting.
Proof.
  induction events as [|l rest IH]; [reflexivity|].
  cbn [fold_left]. unfold feedback at 2.
  destruct (ev_playerId (heap_get h l)) as [p|]; [|exact IH].
  rewrite bool_decide_eq_false_2 by apply not_elem_of_empty. exact IH.
Qed.

Section NoDetection.
Context `{PyFloat F}.
Variable json_loads : string -> result meta.
Variable cfg : config F.

(** X14.  [update_player_states] reads the PROFILE item only, and a PROFILE item
    that this handler wrote holds no feature key.  So on the empty store,
    and on any store in which no PROFILE item holds a feature key, every
    batch leaves the sample count of each updated player at 0 or 1: with
    a sample floor of 2 or more (the default is 100) no batch yields a
    detection of either type, the feedback loop adds no event, nothing is
    written to the detections table, and the store it leaves is again such
    a store. *)
Theorem no_detection_without_history (e : env F) (st : store F) (batch : list event) :
  2 <= MIN_SAMPLES_FOR_DETECTION cfg ->
  to_int (fadd (of_int 0) (of_int 1)) = Some 1 ->
  profiles_lack_features st ->
  let o := process_events json_loads cfg e st batch in
  out_detections o = []
  /\ out_detections_stored o = 0
  /\ detections_table (out_store o) = detections_table st
  /\ out_interesting o = ps_interesting (players_after json_loads cfg e st batch)
  /\ Forall (fun u => accuracySampleCount u.2 <= 1) (out_player_updates o)
  /\ profiles_lack_features (out_store o).
Proof.
  intros Hmin Hone Hst o.
  assert (Ho : o = process_events json_loads cfg e st batch) by reflexivity.
  rewrite process_events_unfold in Ho. cbv zeta in Ho.
  set (owner := batch_owner batch) in *.
  set (ps := players_after json_loads cfg e st batch) in *.
  destruct (update_players_without_history json_loads cfg e owner
              (group_by_player batch (seq 0 (length batch))) Hone
              {| ps_store := st; ps_heap := batch; ps_updates := []; ps_interesting := [] |})
    as [Hstore Hupd]; [split; [exact Hst|constructor]|].
  change (fold_left _ _ _) with ps in Hstore, Hupd.
  pose proof (run_detection_below_floor cfg (ps_updates ps) owner Hmin Hupd) as Hnone.
  rewrite Hnone in Ho.
  change (detection_ids []) with (∅ : gset string) in Ho.
  rewrite feedback_no_detection in Ho.
  destruct (store_events_written cfg e owner (ps_store ps) (ps_heap ps) (ps_interesting ps))
    as (_ & _ & Hplayers & Hdet).
  destruct (update_players_tables json_loads cfg e owner
              (group_by_player batch (seq 0 (length batch)))
              {| ps_store := st; ps_heap := batch; ps_updates := []; ps_interesting := [] |})
    as [_ Hdet0].
  change (fold_left _ _ _) with ps in Hdet0. cbn [ps_store] in Hdet0.
  rewrite Ho. cbn [out_detections out_detections_stored out_store out_interesting
                   out_player_updates store_detections store_detections_from fst snd].
  repeat (split; [first [reflexivity|assumption|congruence]|]).
  intros pk it. rewrite Hplayers. apply Hstore.
Qed.

End NoDetection.

Lemma no_detection_without_history_witness :
  let o := process_events (F := float) rejects config64 quiet_env empty_store sharp_burst in
  out_detections o = []
  /\ out_interesting o = [0%nat]
  /\ profiles_lack_features (out_store o).
Proof.
  intros o.
  destruct (@no_detection_without_history float binary64 rejects config64 quiet_env
              empty_store sharp_burst)
    as (Hnone & _ & _ & Hint & _ & Hstore).
  - vm_compute. discriminate.
  - vm_compute. reflexivity.
  - intros pk it Hit. cbn in Hit. rewrite lookup_empty in Hit. discriminate Hit.
  - split; [exact Hnone|]. split; [|exact Hstore].
    fold o in Hint. rewrite Hint. vm_compute. reflexivity.
Defined.

(** ** The reads of a batch *)

Definition is_get (c : call) : bool :=
  match c with get_item _ _ _ => true | put_item _ _ _ => false end.

Lemma filter_none {A} (f : A -> bool) (l : list A) :
  Forall (fun x => f x = false) l -> List.filter f l = [].
Proof.
  induction 1 as [|x l Hx _ IH]; [reflexivity|]. cbn. rewrite Hx. exact IH.
Qed.

Section Reads.
Context `{PyFloat F}.
Variable json_loads : string -> result meta.
Variable cfg : config F.
Variable e : env F.
Variable owner : string.

Lemma update_player_calls (ps : players_state (F := F)) (p : string) (ls : list loc) :
  exists puts,
    calls (ps_store (update_player json_loads cfg e owner ps (p, ls)))
    = calls (ps_store ps) ++ get_item "players" (owner +:+ "#" +:+ p) "PROFILE" :: puts
    /\ Forall (fun c => is_get c = false) puts.
Proof.
  unfold update_player.
  destruct (get_item_raises e _ "PROFILE"); [exists []; split; [reflexivity|constructor]|].
  destruct (extract_features _ _ _ _ _) as [h' [[f ints]|ex]];
    [|exists []; split; [reflexivity|constructor]].
  destruct (py_int _) as [count|ex]; [|exists []; split; [reflexivity|constructor]].
  destruct (put_item_raises e _ "PROFILE").
  { eexists [_]. cbn. rewrite <- app_assoc. split; [reflexivity|repeat constructor]. }
  destruct (put_item_raises e _ "FEATURES");
    eexists [_; _]; cbn; rewrite <- !app_assoc; (split; [reflexivity|repeat constructor]).
Qed.

Lemma update_players_calls (groups : list (string * list loc)) :
  forall ps : players_state (F := F),
    exists trace,
      calls (ps_store (fold_left (update_player json_loads cfg e owner) groups ps))
      = calls (ps_store ps) ++ trace
      /\ List.filter is_get trace
         = (fun p => get_item "players" (owner +:+ "#" +:+ p) "PROFILE") <$> groups.*1.
Proof.
  induction groups as [|[p ls] rest IH]; intros ps; cbn [fold_left].
  - exists []. rewrite app_nil_r. auto.
  - destruct (IH (update_player json_loads cfg e owner ps (p, ls))) as (trace & Heq & Hgets).
    destruct (update_player_calls ps p ls) as (puts & Hstep & Hputs).
    exists ((get_item "players" (owner +:+ "#" +:+ p) "PROFILE" :: puts) ++ trace).
    rewrite Heq, Hstep, <- app_assoc. split; [reflexivity|].
    rewrite List.filter_app. cbn [List.filter is_get].
    rewrite (filter_none _ _ Hputs), Hgets. reflexivity.
Qed.

Lemma store_events_from_calls (h : heap) (events : list loc) :
  forall (i : nat) (st : store F) (n : Z),
    exists puts,
      calls (store_events_from cfg e h owner i events (st, n)).1 = calls st ++ puts
      /\ Forall (fun c => is_get c = false) puts.
Proof.
  induction events as [|l rest IH]; intros i st n.
  - exists []. cbn. rewrite app_nil_r. auto.
  - cbn [store_events_from]. unfold put_event at 1.
    destruct (batch_put_raises e "events" i);
      match goal with |- context [store_events_from _ _ _ _ _ _ (?s, ?m)] =>
        destruct (IH (S i) s m) as (puts & Heq & Hputs) end;
      rewrite Heq; cbn [calls log_call]; rewrite <- app_assoc;
      eexists (_ :: puts); (split; [reflexivity|constructor; [reflexivity|exact Hputs]]).
Qed.

Lemma store_detections_from_calls (detections : list (detection F)) :
  forall (i : nat) (st : store F) (n : Z),
    exists puts,
      calls (store_detections_from cfg e owner i detections (st, n)).1 = calls st ++ puts
      /\ Forall (fun c => is_get c = false) puts.
Proof.
  induction detections as [|d rest IH]; intros i st n.
  - exists []. cbn. rewrite app_nil_r. auto.
  - cbn [store_detections_from]. unfold put_detection at 1.
    destruct (batch_put_raises e "detections" i);
      match goal with |- context [store_detections_from _ _ _ _ _ (?s, ?m)] =>
        destruct (IH (S i) s m) as (puts & Heq & Hputs) end;
      rewrite Heq; cbn [calls log_call]; rewrite <- app_assoc;
      eexists (_ :: puts); (split; [reflexivity|constructor; [reflexivity|exact Hputs]]).
Qed.

End Reads.

Section BatchReads.
Context `{PyFloat F}.
Variable json_loads : string -> result meta.
Variable cfg : config F.

(** X16.  A batch reads the store once per distinct player id of its
    events (a missing id counting as "unknown"), in the order in which the
    players first appear in the batch, and each read is of the PROFILE
    item of the batch owner's key for that player: no other item, and in
    particular no FEATURES item, is ever read.  All other calls are
    writes. *)
Theorem one_profile_read_per_player (e : env F) (st : store F) (batch : list event) :
  let o := process_events json_loads cfg e st batch in
  let owner := batch_owner batch in
  let players := first_seen (player_of batch <$> seq 0 (length batch)) in
  NoDup players
  /\ (forall p, p ∈ players <-> exists l, (l < length batch)%nat /\ player_of batch l = p)
  /\ exists trace,
       calls (out_store o) = calls st ++ trace
       /\ List.filter is_get trace
          = (fun p => get_item "players" (owner +:+ "#" +:+ p) "PROFILE") <$> players.
Proof.
  intros o owner players.
  split; [apply first_seen_NoDup|]. split.
  { intros p. subst players. rewrite elem_of_first_seen, list_elem_of_fmap.
    split; intros (l & Hl1 & Hl2).
    - exists l. apply elem_of_seq in Hl2. split; [lia|congruence].
    - exists l. split; [congruence|]. apply elem_of_seq. lia. }
  subst players. rewrite <- group_by_player_keys.
  assert (Ho : o = process_events json_loads cfg e st batch) by reflexivity.
  rewrite process_events_unfold in Ho. cbv zeta in Ho. fold owner in Ho.
  set (ps := players_after json_loads cfg e st batch) in *.
  set (detections := run_detection cfg (ps_updates ps) owner) in *.
  set (interesting := fold_left _ _ _) in Ho.
  destruct (update_players_calls json_loads cfg e owner
              (group_by_player batch (seq 0 (length batch)))
              {| ps_store := st; ps_heap := batch; ps_updates := []; ps_interesting := [] |})
    as (trace & Htrace & Hgets).
  change (fold_left _ _ _) with ps in Htrace. cbn [ps_store] in Htrace.
  destruct (store_events_from_calls cfg e owner (ps_heap ps) interesting 0%nat (ps_store ps) 0)
    as (puts1 & Hputs1 & Hno1).
  change (store_events_from cfg e (ps_heap ps) owner 0 interesting (ps_store ps, 0))
    with (store_events cfg e (ps_store ps) (ps_heap ps) interesting owner) in Hputs1.
  set (se := store_events cfg e (ps_store ps) (ps_heap ps) interesting owner) in *.
  destruct (store_detections_from_calls cfg e owner detections 0%nat se.1 0)
    as (puts2 & Hputs2 & Hno2).
  change (store_detections_from cfg e owner 0 detections (se.1, 0))
    with (store_detections cfg e se.1 detections owner) in Hputs2.
  exists (trace ++ puts1 ++ puts2). rewrite Ho. cbn [out_store].
  rewrite Hputs2, Hputs1, Htrace, <- !app_assoc. split; [reflexivity|].
  rewrite !List.filter_app, (filter_none _ _ Hno1), (filter_none _ _ Hno2), !app_nil_r.
  exact Hgets.
Qed.

End BatchReads.

(** ** Running [extract_features] again on the events it has written to *)

Section Rerun.
Context `{PyFloat F}.
Variable json_loads : string -> result meta.
Variable cfg : config F.

(** Every event of [events] that has a tag carries it already. *)
Definition saturated (h : heap) (events : list loc) : Prop :=
  forall l r, l ∈ events -> tag_of json_loads cfg (heap_get h l) = Some r ->
    heap_get h l = set_reason r (heap_get h l).

Lemma heap_set_reason_id (h : heap) (l : loc) (r : reason) :
  heap_get h l = set_reason r (heap_get h l) -> heap_set_reason h l r = h.
Proof.
  unfold heap_set_reason. intros <-. unfold heap_get.
  destruct (h !! l) as [evt|] eqn:Hl; cbn.
  - apply list_insert_id. exact Hl.
  - apply list_insert_ge. apply lookup_ge_None. exact Hl.
Qed.

Lemma scan_events_saturated (events : list loc) :
  forall (st st' : scan_state) (raised : option exn),
    saturated (st_heap st) events ->
    scan_events json_loads cfg st events = (st', raised) ->
    st_heap st' = st_heap st.
Proof.
  induction events as [|l rest IH]; intros st st' raised Hsat Hscan.
  - injection Hscan as <- _. reflexivity.
  - cbn [scan_events] in Hscan. rewrite scan_event_classify in Hscan.
    destruct (classify json_loads cfg (heap_get (st_heap st) l)) as [v|ex] eqn:Hc;
      cbn [mbind result_bind] in Hscan; [|injection Hscan as <- _; reflexivity].
    assert (Hheap : st_heap (apply_verdict st l v) = st_heap st).
    { unfold apply_verdict; cbn [st_heap]. destruct (verdict_tag v) as [r|] eqn:Hr; [|reflexivity].
      apply heap_set_reason_id. apply Hsat; [apply elem_of_cons; auto|].
      unfold tag_of, event_verdict. rewrite Hc. exact Hr. }
    rewrite <- Hheap. apply (IH _ _ raised); [|exact Hscan].
    rewrite Hheap. intros l' r Hl'. apply Hsat. apply elem_of_cons. auto.
Qed.

Lemma counts_after_evolves (h0 h : heap) (events : list loc) (c : counters) :
  evolves json_loads cfg h0 h ->
  counts_after json_loads cfg h events c = counts_after json_loads cfg h0 events c.
Proof.
  intros Hev. unfold counts_after. revert c.
  induction events as [|l rest IH]; intros c; [reflexivity|].
  cbn [fold_left]. rewrite IH. unfold event_verdict.
  rewrite (evolves_classify json_loads cfg h0 h l Hev). reflexivity.
Qed.

(** X17.  [extract_features] reads no ['_interesting_reason']: given again the
    events it has just written to, it returns the same features and the
    same interesting events, and leaves every event as it is. *)
Theorem extract_features_rerun (h : heap) (events : list loc) (existing : item F)
    (h' : heap) (f : features F) (interesting : list loc) :
  extract_features json_loads cfg h events existing = (h', Ok (f, interesting)) ->
  extract_features json_loads cfg h' events existing = (h', Ok (f, interesting)).
Proof.
  intros Hrun.
  apply extract_features_spec in Hrun as (done & Hev & Htag & Hok & -> & -> & Hmerge).
  assert (Hsat : saturated h' events).
  { intros l r Hl Hr.
    rewrite (tag_of_erase json_loads cfg _ _ (evolves_erase json_loads cfg h h' l Hev)) in Hr.
    rewrite (Htag l r Hl Hr). reflexivity. }
  unfold extract_features.
  destruct (scan_events json_loads cfg
              {| st_heap := h'; st_counts := no_counts; st_interesting := [] |} events)
    as [st raised] eqn:Hscan.
  pose proof (scan_events_saturated events
                {| st_heap := h'; st_counts := no_counts; st_interesting := [] |}
                st raised Hsat Hscan) as Hheap.
  cbn [st_heap] in Hheap.
  apply (scan_events_inv json_loads cfg events _ _ _ h' []) in Hscan;
    [|apply evolves_refl|intros l r Hin; apply elem_of_nil in Hin; destruct Hin].
  destruct Hscan as (done & _ & _ & Hint & Hcnt & _ & Hraised).
  cbn [st_interesting st_counts app] in Hint, Hcnt.
  destruct raised as [ex|].
  - destruct Hraised as (l & rest & -> & Hl). exfalso.
    rewrite Forall_forall in Hok.
    assert (Hin : l ∈ done ++ l :: rest) by (apply elem_of_app; right; apply elem_of_cons; auto).
    specialize (Hok l Hin).
    rewrite <- (evolves_classify json_loads cfg h h' l Hev), Hl in Hok. discriminate Hok.
  - subst done. rewrite Hheap, Hcnt, Hint.
    rewrite (counts_after_evolves h h' events no_counts Hev), Hmerge.
    rewrite (kept_evolves json_loads cfg h h' events Hev). reflexivity.
Qed.

End Rerun.

Lemma extract_features_rerun_witness :
  match extract_features (F := float) rejects config64 sharp_burst [0%nat] ∅ with
  | (h', Ok (f, interesting)) =>
      extract_features rejects config64 h' [0%nat] ∅ = (h', Ok (f, interesting))
      /\ ev_interesting_reason (heap_get h' 0%nat) = Some (high_accuracy 9 10)
  | (_, Raise _) => False
  end.
Proof.
  destruct (extract_features (F := float) rejects config64 sharp_burst [0%nat] ∅)
    as [h' [[f interesting]|ex]] eqn:Hrun; [|vm_compute in Hrun; discriminate Hrun].
  split.
  - exact (@extract_features_rerun float binary64 rejects config64
             sharp_burst [0%nat] ∅ h' f interesting Hrun).
  - vm_compute in Hrun. injection Hrun as <- _ _. reflexivity.
Defined.

(** ** Which players are updated, and with which features *)

Section Insensitive.
Context `{PyFloat F}.
Variable json_loads : string -> result meta.
Variable cfg : config F.

(** Two heaps that hold the same events up to ['_interesting_reason']. *)
Definition same_events (h1 h2 : heap) : Prop :=
  forall l, erase_reason (heap_get h1 l) = erase_reason (heap_get h2 l).

Lemma erase_heap_set_reason (h : heap) (l l' : loc) (r : reason) :
  erase_reason (heap_get (heap_set_reason h l r) l') = erase_reason (heap_get h l').
Proof.
  rewrite heap_get_set_reason.
  destruct (decide (l = l' /\ (l < length h)%nat)) as [[-> _]|_]; reflexivity.
Qed.

Lemma apply_verdict_same_events (st1 st2 : scan_state) (l : loc) (v : verdict) :
  same_events (st_heap st1) (st_heap st2) ->
  same_events (st_heap (apply_verdict st1 l v)) (st_heap (apply_verdict st2 l v)).
Proof.
  intros Hsame l'. unfold apply_verdict; cbn [st_heap].
  destruct (verdict_tag v) as [r|]; [|apply Hsame].
  rewrite !erase_heap_set_reason. apply Hsame.
Qed.

Lemma scan_events_same_events (events : list loc) :
  forall st1 st2 : scan_state,
    same_events (st_heap st1) (st_heap st2) ->
    st_counts st1 = st_counts st2 -> st_interesting st1 = st_interesting st2 ->
    let r1 := scan_events json_loads cfg st1 events in
    let r2 := scan_events json_loads cfg st2 events in
    st_counts r1.1 = st_counts r2.1
    /\ st_interesting r1.1 = st_interesting r2.1
    /\ r1.2 = r2.2.
Proof.
  induction events as [|l rest IH]; intros st1 st2 Hsame Hc Hi; cbv zeta; [cbn; auto|].
  cbn [scan_events]. rewrite !scan_event_classify.
  rewrite (classify_erase json_loads cfg _ _ (Hsame l)).
  destruct (classify json_loads cfg (heap_get (st_heap st2) l)) as [v|ex];
    cbn [mbind result_bind]; [|cbn; auto].
  apply IH.
  - apply apply_verdict_same_events. exact Hsame.
  - unfold apply_verdict; cbn [st_counts]. rewrite Hc. reflexivity.
  - unfold apply_verdict; cbn [st_interesting]. rewrite Hi. reflexivity.
Qed.

(** What [extract_features] returns or raises does not depend on the
    reasons already written into the events. *)
Lemma extract_features_same_events (h1 h2 : heap) (events : list loc) (existing : item F) :
  same_events h1 h2 ->
  (extract_features json_loads cfg h1 events existing).2
  = (extract_features json_loads cfg h2 events existing).2.
Proof.
  intros Hsame. unfold extract_features.
  pose proof (scan_events_same_events events
                {| st_heap := h1; st_counts := no_counts; st_interesting := [] |}
                {| st_heap := h2; st_counts := no_counts; st_interesting := [] |}
                Hsame eq_refl eq_refl) as (Hc & Hi & Hr).
  destruct (scan_events _ _ _ events) as [st1 raised1].
  destruct (scan_events _ _ _ events) as [st2 raised2].
  cbn [fst snd] in Hc, Hi, Hr. subst raised2.
  destruct raised1 as [ex|]; [reflexivity|]. cbn [snd]. rewrite Hc, Hi. reflexivity.
Qed.

End Insensitive.

Section UpdatedPlayers.
Context `{PyFloat F}.
Variable json_loads : string -> result meta.
Variable cfg : config F.
Variable e : env F.
Variable owner : string.

(** The iteration over the events [ls] of player [p] records [f]: the
    three store calls pass, the stored event count is a number, and
    [extract_features] returns [f] on those events, taken as the request
    gave them, and the PROFILE item of [st]. *)
Definition records (h0 : heap) (st : store F) (p : string) (ls : list loc) (f : features F)
  : Prop :=
  let existing :=
    default ∅ (players_table st !! (owner +:+ "#" +:+ p, "PROFILE")) in
  store_calls_pass e owner p
  /\ is_ok (py_int (state_get existing "eventCount" (AInt 0))) = true
  /\ exists interesting,
       (extract_features json_loads cfg h0 ls existing).2 = Ok (f, interesting).

Lemma evolves_same_events (h0 h : heap) :
  evolves json_loads cfg h0 h -> same_events h h0.
Proof. intros Hev l. apply (evolves_erase json_loads cfg). exact Hev. Qed.

Lemma update_player_records (h0 : heap) (ps : players_state (F := F)) (p : string)
    (ls : list loc) (q : string) (f : features F) :
  evolves json_loads cfg h0 (ps_heap ps) ->
  (q, f) ∈ ps_updates (update_player json_loads cfg e owner ps (p, ls))
  <-> (q, f) ∈ ps_updates ps \/ (q = p /\ records h0 (ps_store ps) p ls f).
Proof.
  intros Hev. unfold records, store_calls_pass.
  rewrite <- (extract_features_same_events json_loads cfg (ps_heap ps) h0)
    by (apply evolves_same_events; exact Hev).
  unfold update_player.
  destruct (get_item_raises e _ "PROFILE");
    [cbn [ps_updates]; split; [auto|intros [?|(_ & (? & _) & _)]; [assumption|discriminate]]|].
  cbn [log_call players_table].
  destruct (extract_features _ _ _ _ _) as [h' [[f' ints]|ex]]; cbn [snd];
    [|cbn [ps_updates]; split;
      [auto|intros [?|(_ & _ & _ & ? & ?)]; [assumption|discriminate]]].
  destruct (py_int _) as [count|ex]; cbn [is_ok];
    [|cbn [ps_updates]; split; [auto|intros [?|(_ & _ & ? & _)]; [assumption|discriminate]]].
  destruct (put_item_raises e _ "PROFILE");
    [cbn [ps_updates]; split;
      [auto|intros [?|(_ & (_ & ? & _) & _)]; [assumption|discriminate]]|].
  destruct (put_item_raises e _ "FEATURES");
    [cbn [ps_updates]; split;
      [auto|intros [?|(_ & (_ & _ & ?) & _)]; [assumption|discriminate]]|].
  cbn [ps_updates]. rewrite elem_of_app, list_elem_of_singleton. split.
  - intros [Hin|Heq]; [left; exact Hin|]. injection Heq as -> ->.
    right. split; [reflexivity|]. split; [auto|]. split; [reflexivity|].
    exists ints. reflexivity.
  - intros [Hin|(-> & _ & _ & ints' & Heq)]; [left; exact Hin|].
    injection Heq as -> _. right. reflexivity.
Qed.

Lemma records_frame (h0 : heap) (st1 st2 : store F) (p : string) (ls : list loc)
    (f : features F) :
  players_table st1 !! (owner +:+ "#" +:+ p, "PROFILE")
  = players_table st2 !! (owner +:+ "#" +:+ p, "PROFILE") ->
  records h0 st1 p ls f <-> records h0 st2 p ls f.
Proof. intros Heq. unfold records. rewrite Heq. reflexivity. Qed.

Lemma update_players_records (h0 : heap) (groups : list (string * list loc)) :
  NoDup groups.*1 ->
  forall (ps : players_state (F := F)) (q : string) (f : features F),
    evolves json_loads cfg h0 (ps_heap ps) ->
    (q, f) ∈ ps_updates (fold_left (update_player json_loads cfg e owner) groups ps)
    <-> (q, f) ∈ ps_updates ps
        \/ exists ls, (q, ls) ∈ groups /\ records h0 (ps_store ps) q ls f.
Proof.
  induction groups as [|[p ls] rest IH]; intros Hnodup ps q f Hev.
  - cbn [fold_left]. split; [auto|]. intros [Hin|(ls & Hls & _)]; [exact Hin|].
    apply elem_of_nil in Hls. destruct Hls.
  - cbn in Hnodup. apply NoDup_cons in Hnodup as [Hfresh Hnodup]. cbn [fold_left].
    pose proof (update_player_spec json_loads cfg h0 e owner ps (p, ls) Hev) as [Hev1 _].
    cbv zeta in Hev1.
    rewrite (IH Hnodup _ q f Hev1), (update_player_records h0 ps p ls q f Hev).
    split.
    + intros [[Hin|[-> Hrec]]|(ls' & Hls' & Hrec)].
      * left. exact Hin.
      * right. exists ls. split; [apply elem_of_cons; auto|exact Hrec].
      * right. exists ls'. split; [apply elem_of_cons; auto|].
        eapply records_frame; [|exact Hrec]. symmetry.
        apply update_player_frame. intros Heq. apply pk_inj in Heq. subst q.
        apply Hfresh. apply list_elem_of_fmap. exists (p, ls'). auto.
    + intros [Hin|(ls' & Hls' & Hrec)]; [left; left; exact Hin|].
      apply elem_of_cons in Hls' as [Heq|Hls'].
      * injection Heq as -> ->. left. right. auto.
      * right. exists ls'. split; [exact Hls'|].
        eapply records_frame; [|exact Hrec].
        apply update_player_frame. intros Heq. apply pk_inj in Heq. subst q.
        apply Hfresh. apply list_elem_of_fmap. exists (p, ls'). auto.
Qed.

(** X18.  [player_updates] holds player [p] with the features [f] exactly when
    the batch has an event of [p], none of the three store calls for [p]
    raises, the event count stored for [p] is a number, and
    [extract_features] returns [f] on the events of [p] alone, as the
    request gave them, with the PROFILE item that the store held before
    the batch.  So what is recorded for a player does not depend on the
    other players of the batch, on their events or on their failures. *)
Theorem player_updates_characterised (st : store F) (h : heap) (events : list loc)
    (p : string) (f : features F) :
  let ps := update_player_states json_loads cfg e st h events owner in
  let existing :=
    default ∅ (players_table st !! (owner +:+ "#" +:+ p, "PROFILE")) in
  (p, f) ∈ ps_updates ps
  <-> events_of h p events <> []
      /\ store_calls_pass e owner p
      /\ is_ok (py_int (state_get existing "eventCount" (AInt 0))) = true
      /\ exists interesting,
           (extract_features json_loads cfg h (events_of h p events) existing).2
           = Ok (f, interesting).
Proof.
  cbv zeta. unfold update_player_states.
  rewrite (update_players_records h (group_by_player h events)
             (group_by_player_NoDup h events) _ p f)
    by apply evolves_refl.
  cbn [ps_updates ps_store].
  destruct (group_by_player_exact h events) as [Hcover Hexact].
  unfold exact_groups in Hexact. rewrite Forall_forall in Hexact.
  split.
  - intros [Hin|(ls & Hls & Hrec)]; [apply elem_of_nil in Hin; destruct Hin|].
    destruct (Hexact _ Hls) as [Hgroup Hne]. cbn [fst snd] in Hgroup, Hne. subst ls.
    split; [exact Hne|exact Hrec].
  - intros (Hne & Hrec). right. exists (events_of h p events). split; [|exact Hrec].
    assert (Hp : p ∈ (group_by_player h events).*1).
    { destruct (events_of h p events) as [|l ls] eqn:Hev; [congruence|].
      assert (Hl : l ∈ events_of h p events) by (rewrite Hev; apply elem_of_cons; auto).
      unfold events_of in Hl. apply list_elem_of_In, filter_In in Hl as [Hl Hpl].
      apply bool_decide_eq_true in Hpl. rewrite <- Hpl. apply Hcover.
      apply list_elem_of_In. exact Hl. }
    apply list_elem_of_fmap in Hp as ([p' ls] & -> & Hg).
    destruct (Hexact _ Hg) as [Hgroup _]. cbn [fst snd] in Hgroup |- *.
    rewrite <- Hgroup. exact Hg.
Qed.

End UpdatedPlayers.

(** ** Metadata that does not decode, or not to a mapping *)

Definition is_mapping (m : meta) : bool :=
  match m with MDict _ => true | _ => false end.

(** The two action types whose branch calls [metadata.get]. *)
Definition reads_metadata (evt : event) : bool :=
  bool_decide (ev_actionType evt = Some "WEAPON_FIRED")
  || bool_decide (ev_actionType evt = Some "PLAYER_ATTACK").

(** A decoder that makes an empty mapping of every text. *)
Definition decodes_empty : string -> result meta := fun _ => Ok (MDict ∅).

Section Iteration.
Context `{PyFloat F}.
Variable json_loads : string -> result meta.
Variable cfg : config F.

Lemma decode_metadata_text (decoder : string -> result meta) (evt : event) (s : string) :
  ev_metadata evt = Some (MStr s) ->
  decode_metadata decoder evt
  = match decoder s with
    | Ok decoded => Ok decoded
    | Raise JSONDecodeError | Raise TypeError => Ok (MDict ∅)
    | Raise ex => Raise ex
    end.
Proof. unfold decode_metadata. intros ->. reflexivity. Qed.

(** A [JSONDecodeError] is caught: the iteration goes on as if the text
    had decoded to an empty mapping. *)
Lemma scan_event_undecodable (st : scan_state) (l : loc) (s : string) :
  ev_metadata (heap_get (st_heap st) l) = Some (MStr s) ->
  json_loads s = Raise JSONDecodeError ->
  scan_event json_loads cfg st l = scan_event decodes_empty cfg st l.
Proof.
  intros Hmeta Hs. unfold scan_event.
  rewrite !(decode_metadata_text _ _ s Hmeta), Hs. reflexivity.
Qed.

(** Any other exception of [json.loads] ends the iteration, whatever the
    action type. *)
Lemma scan_event_decoder_raises (st : scan_state) (l : loc) (s : string) (ex : exn) :
  ev_metadata (heap_get (st_heap st) l) = Some (MStr s) ->
  json_loads s = Raise ex -> ex <> JSONDecodeError -> ex <> TypeError ->
  scan_event json_loads cfg st l = Raise ex.
Proof.
  intros Hmeta Hs Hjson Htype. unfold scan_event.
  rewrite (decode_metadata_text _ _ s Hmeta), Hs.
  destruct ex; try reflexivity; contradiction.
Qed.

(** [metadata.get] on a value that is not a mapping. *)
Lemma scan_event_not_mapping (st : scan_state) (l : loc) (m : meta) :
  decode_metadata json_loads (heap_get (st_heap st) l) = Ok m ->
  is_mapping m = false ->
  reads_metadata (heap_get (st_heap st) l) = true ->
  scan_event json_loads cfg st l = Raise AttributeError.
Proof.
  intros Hmeta Hm Hreads. unfold scan_event. rewrite Hmeta. cbn [mbind result_bind].
  assert (Hget : forall key dflt, meta_get m key dflt = Raise AttributeError)
    by (intros key dflt; destruct m; try reflexivity; discriminate Hm).
  unfold reads_metadata in Hreads. apply orb_prop in Hreads as [Hact|Hact];
    apply bool_decide_eq_true in Hact; rewrite Hact; cbn [default].
  - destruct (bool_decide _) eqn:Ealways; [vm_compute in Ealways; discriminate Ealways|].
    destruct (String.eqb _ "WEAPON_FIRED") eqn:Efired;
      [|vm_compute in Efired; discriminate Efired].
    rewrite (Hget "shots"). reflexivity.
  - destruct (bool_decide _) eqn:Ealways; [vm_compute in Ealways; discriminate Ealways|].
    destruct (String.eqb _ "WEAPON_FIRED") eqn:Efired;
      [vm_compute in Efired; discriminate Efired|].
    destruct (String.eqb _ "PLAYER_ATTACK") eqn:Eattack;
      [|vm_compute in Eattack; discriminate Eattack].
    rewrite Hget. reflexivity.
Qed.

(** On any other action type the decoded value is not used. *)
Lemma scan_event_unread (st : scan_state) (l : loc) (m : meta) :
  decode_metadata json_loads (heap_get (st_heap st) l) = Ok m ->
  reads_metadata (heap_get (st_heap st) l) = false ->
  scan_event json_loads cfg st l
  = Ok (if bool_decide (default "" (ev_actionType (heap_get (st_heap st) l))
                        ∈ ALWAYS_STORE_EVENTS)
        then
          let st1 := append_interesting st l in
          if is_kill (heap_get (st_heap st) l)
          then with_counts st1 (add_kill (st_counts st1)) else st1
        else st).
Proof.
  intros Hmeta Hreads. unfold scan_event, is_kill. rewrite Hmeta. cbn [mbind result_bind].
  set (evt := heap_get (st_heap st) l) in *.
  unfold reads_metadata in Hreads. apply orb_false_elim in Hreads as [Hfired Hattack].
  apply bool_decide_eq_false in Hfired, Hattack.
  destruct (bool_decide _).
  { cbv zeta. destruct (String.eqb _ "PLAYER_KILLED"); reflexivity. }
  destruct (String.eqb _ "WEAPON_FIRED") eqn:Efired.
  { apply String.eqb_eq in Efired. destruct (ev_actionType evt) as [a|];
      cbn in Efired; [subst a; contradiction|discriminate Efired]. }
  destruct (String.eqb _ "PLAYER_ATTACK") eqn:Eattack; [|reflexivity].
  apply String.eqb_eq in Eattack. destruct (ev_actionType evt) as [a|];
    cbn in Eattack; [subst a; contradiction|discriminate Eattack].
Qed.

End Iteration.

Lemma elem_of_concat {A} (x : A) (ls : list (list A)) :
  x ∈ concat ls <-> exists l, x ∈ l /\ l ∈ ls.
Proof.
  rewrite list_elem_of_In, in_concat. split; intros (l & H1 & H2); exists l;
    rewrite ?list_elem_of_In in *; auto.
Qed.

Section SkippedPlayers.
Context `{PyFloat F}.
Variable json_loads : string -> result meta.
Variable cfg : config F.
Variable e : env F.
Variable owner : string.

Lemma same_events_evolves (h0 h1 h2 : heap) :
  evolves json_loads cfg h0 h1 -> evolves json_loads cfg h0 h2 -> same_events h1 h2.
Proof.
  intros H1 H2 l.
  rewrite (evolves_same_events json_loads cfg h0 h1 H1 l).
  symmetry. apply (evolves_same_events json_loads cfg h0 h2 H2 l).
Qed.

(** How an iteration ends depends on the events of its group, reasons
    apart, and on the PROFILE item of its player. *)
Lemma ending_of_frame (ps1 ps2 : players_state (F := F)) (g : string * list loc) :
  same_events (ps_heap ps1) (ps_heap ps2) ->
  players_table (ps_store ps1) !! (owner +:+ "#" +:+ g.1, "PROFILE")
  = players_table (ps_store ps2) !! (owner +:+ "#" +:+ g.1, "PROFILE") ->
  ending_of json_loads cfg e owner ps1 g = ending_of json_loads cfg e owner ps2 g.
Proof.
  intros Hsame Hprofile. unfold ending_of. rewrite Hprofile.
  rewrite (extract_features_same_events json_loads cfg (ps_heap ps1) (ps_heap ps2))
    by exact Hsame.
  reflexivity.
Qed.

(** An event whose iteration raises ends the iteration of its player
    before anything is kept. *)
Lemma ending_of_raises (ps : players_state (F := F)) (g : string * list loc)
    (l : loc) (ex : exn) :
  l ∈ g.2 ->
  classify json_loads cfg (heap_get (ps_heap ps) l) = Raise ex ->
  ending_of json_loads cfg e owner ps g = skipped_before_extend.
Proof.
  intros Hin Hc. unfold ending_of.
  destruct (get_item_raises e _ "PROFILE"); [reflexivity|].
  destruct (extract_features _ _ _ _ _) as [h' r] eqn:Hrun.
  apply extract_features_spec in Hrun as (done & _ & _ & Hok & Hr).
  cbn [snd]. destruct r as [[f ints]|ex']; [|reflexivity].
  destruct Hr as (-> & _). rewrite Forall_forall in Hok.
  specialize (Hok l Hin). rewrite Hc in Hok. discriminate Hok.
Qed.

(** What an iteration adds to the two results. *)
Definition block (h0 : heap) (ps : players_state (F := F)) (g : string * list loc)
  : list loc :=
  match ending_of json_loads cfg e owner ps g with
  | skipped_before_extend => []
  | _ => kept json_loads cfg h0 g.2
  end.

Definition news (ps : players_state (F := F)) (g : string * list loc)
  : list (string * features F) :=
  match ending_of json_loads cfg e owner ps g with
  | updated f => [(g.1, f)]
  | _ => []
  end.

(** Every iteration ends as it would on the state the loop started
    from. *)
Lemma update_players_alone (h0 : heap) (groups : list (string * list loc)) :
  NoDup groups.*1 ->
  forall ps : players_state (F := F),
    evolves json_loads cfg h0 (ps_heap ps) ->
    let ps' := fold_left (update_player json_loads cfg e owner) groups ps in
    ps_interesting ps' = ps_interesting ps ++ concat (block h0 ps <$> groups)
    /\ ps_updates ps' = ps_updates ps ++ concat (news ps <$> groups).
Proof.
  induction groups as [|g rest IH]; intros Hnodup ps Hev; cbv zeta.
  - cbn. rewrite !app_nil_r. auto.
  - cbn in Hnodup. apply NoDup_cons in Hnodup as [Hfresh Hnodup]. cbn [fold_left].
    pose proof (update_player_spec json_loads cfg h0 e owner ps g Hev) as [Hev1 Hend].
    cbv zeta in Hev1, Hend.
    destruct (IH Hnodup _ Hev1) as [Hint Hupd]. cbv zeta in Hint, Hupd.
    assert (Hsame : Forall (fun g' =>
              ending_of json_loads cfg e owner
                (update_player json_loads cfg e owner ps g) g'
              = ending_of json_loads cfg e owner ps g') rest).
    { apply Forall_forall. intros g' Hg'. apply ending_of_frame.
      - apply (same_events_evolves h0); assumption.
      - apply update_player_frame. intros Heq. apply pk_inj in Heq.
        apply Hfresh. rewrite <- Heq. apply list_elem_of_fmap. exists g'. auto. }
    assert (Hblocks : block h0 (update_player json_loads cfg e owner ps g) <$> rest
                      = block h0 ps <$> rest).
    { apply Forall_fmap_ext_1. eapply Forall_impl; [exact Hsame|].
      intros g' Hg'. unfold block. rewrite Hg'. reflexivity. }
    assert (Hnews : news (update_player json_loads cfg e owner ps g) <$> rest
                    = news ps <$> rest).
    { apply Forall_fmap_ext_1. eapply Forall_impl; [exact Hsame|].
      intros g' Hg'. unfold news. rewrite Hg'. reflexivity. }
    rewrite Hint, Hupd, Hblocks, Hnews. cbn [fmap list_fmap concat].
    unfold block at 2, news at 2.
    destruct (ending_of json_loads cfg e owner ps g) as [| |f].
    + destruct Hend as (-> & -> & _). auto.
    + destruct Hend as (-> & ->). rewrite <- app_assoc. auto.
    + destruct Hend as (-> & ->). rewrite <- !app_assoc. auto.
Qed.

(** The iteration of a group on the state the loop starts from. *)
Lemma update_player_alone (st : store F) (h : heap) (g : string * list loc) :
  let start := {| ps_store := st; ps_heap := h; ps_updates := []; ps_interesting := [] |} in
  ps_interesting (update_player json_loads cfg e owner start g) = block h start g
  /\ ps_updates (update_player json_loads cfg e owner start g) = news start g.
Proof.
  cbv zeta.
  pose proof (update_player_spec json_loads cfg h e owner
                {| ps_store := st; ps_heap := h; ps_updates := []; ps_interesting := [] |}
                g (evolves_refl json_loads cfg h)) as [_ Hend].
  cbv zeta in Hend. unfold block, news.
  destruct (ending_of json_loads cfg e owner _ g) as [| |f]; cbn in Hend; tauto.
Qed.

(** The players table keeps the items of a player whose iteration ends
    before its first write. *)
Lemma update_players_skip_table (h0 : heap) (groups : list (string * list loc))
    (p : string) :
  NoDup groups.*1 ->
  forall ps : players_state (F := F),
    evolves json_loads cfg h0 (ps_heap ps) ->
    (forall ls, (p, ls) ∈ groups ->
       ending_of json_loads cfg e owner ps (p, ls) = skipped_before_extend) ->
    forall sk,
      players_table (ps_store (fold_left (update_player json_loads cfg e owner) groups ps))
        !! (owner +:+ "#" +:+ p, sk)
      = players_table (ps_store ps) !! (owner +:+ "#" +:+ p, sk).
Proof.
  induction groups as [|[q ls] rest IH]; intros Hnodup ps Hev Hskip sk; [reflexivity|].
  cbn in Hnodup. apply NoDup_cons in Hnodup as [Hfresh Hnodup]. cbn [fold_left].
  pose proof (update_player_spec json_loads cfg h0 e owner ps (q, ls) Hev) as [Hev1 Hend].
  cbv zeta in Hev1, Hend.
  destruct (decide (q = p)) as [->|Hne].
  - rewrite IH; [|exact Hnodup|exact Hev1|].
    + rewrite (Hskip ls) in Hend by (apply elem_of_cons; auto).
      destruct Hend as (_ & _ & ->). reflexivity.
    + intros ls' Hls'. destruct Hfresh. apply list_elem_of_fmap. exists (p, ls'). auto.
  - rewrite IH; [|exact Hnodup|exact Hev1|].
    + apply update_player_frame. intros Heq. apply pk_inj in Heq. cbn in Heq. congruence.
    + intros ls' Hls'. rewrite <- (Hskip ls') by (apply elem_of_cons; auto).
      apply ending_of_frame.
      * apply (same_events_evolves h0); assumption.
      * apply update_player_frame. intros Heq. apply pk_inj in Heq. cbn in Heq. congruence.
Qed.

End SkippedPlayers.

(** The groups of a batch, spelled out. *)
Lemma group_by_player_eq (h : heap) (events : list loc) :
  group_by_player h events
  = (fun p => (p, events_of h p events)) <$> first_seen (player_of h <$> events).
Proof.
  rewrite <- group_by_player_keys, <- list_fmap_compose.
  destruct (group_by_player_exact h events) as [_ Hexact].
  rewrite <- (list_fmap_id (group_by_player h events)) at 1.
  apply Forall_fmap_ext_1. eapply Forall_impl; [exact Hexact|].
  intros [p ls] [Hls _]. cbn in Hls |- *. rewrite Hls. reflexivity.
Qed.

Section Metadata.
Context `{PyFloat F}.
Variable json_loads : string -> result meta.
Variable cfg : config F.

(** C6 (as amended).  A metadata string is decoded with [json.loads] for
    every event, whatever its action type.  A [JSONDecodeError] is caught:
    the iteration goes on as with an empty mapping.  Any other exception
    of [json.loads] is raised by the iteration.  A metadata that, decoded
    or as given, is not a mapping is not used on an event that is neither
    WEAPON_FIRED nor PLAYER_ATTACK, and raises [AttributeError] on one
    that is.  An event whose iteration raises makes [extract_features]
    raise, and [update_player_states] skips the whole player for the
    batch: alone or in the batch, the player gets no interesting event,
    is not recorded as updated, and no item of the player changes.  The
    batch goes on: for every player the loop keeps and records what the
    iteration of that player, run alone on the events of the player and
    on the store as the batch found it, keeps and records. *)
Theorem non_mapping_metadata_skips_player (e : env F) (owner : string) (st : store F)
    (h : heap) (events : list loc) :
  let start := {| ps_store := st; ps_heap := h; ps_updates := []; ps_interesting := [] |} in
  let alone p := update_player json_loads cfg e owner start (p, events_of h p events) in
  let players := first_seen (player_of h <$> events) in
  let ps := update_player_states json_loads cfg e st h events owner in
  (forall (st0 : scan_state) l s,
     ev_metadata (heap_get (st_heap st0) l) = Some (MStr s) ->
     (json_loads s = Raise JSONDecodeError ->
      scan_event json_loads cfg st0 l = scan_event decodes_empty cfg st0 l)
     /\ (forall ex, json_loads s = Raise ex -> ex <> JSONDecodeError -> ex <> TypeError ->
         scan_event json_loads cfg st0 l = Raise ex))
  /\ (forall (st0 : scan_state) l m,
        decode_metadata json_loads (heap_get (st_heap st0) l) = Ok m ->
        is_mapping m = false ->
        scan_event json_loads cfg st0 l
        = if reads_metadata (heap_get (st_heap st0) l)
          then Raise AttributeError
          else Ok (if bool_decide (default "" (ev_actionType (heap_get (st_heap st0) l))
                                   ∈ ALWAYS_STORE_EVENTS)
                   then
                     let st1 := append_interesting st0 l in
                     if is_kill (heap_get (st_heap st0) l)
                     then with_counts st1 (add_kill (st_counts st1)) else st1
                   else st0))
  /\ (forall l c ints ex,
        l ∈ events ->
        scan_event json_loads cfg {| st_heap := h; st_counts := c; st_interesting := ints |} l
        = Raise ex ->
        let p := player_of h l in
        ps_interesting (alone p) = []
        /\ ps_updates (alone p) = []
        /\ players_table (ps_store (alone p)) = players_table st
        /\ (p ∉ (ps_updates ps).*1)
        /\ (forall l', l' ∈ ps_interesting ps -> player_of h l' <> p)
        /\ (forall sk, players_table (ps_store ps) !! (owner +:+ "#" +:+ p, sk)
                       = players_table st !! (owner +:+ "#" +:+ p, sk)))
  /\ ps_interesting ps = concat ((fun p => ps_interesting (alone p)) <$> players)
  /\ ps_updates ps = concat ((fun p => ps_updates (alone p)) <$> players).
Proof.
  intros start alone players ps.
  assert (Hloop : ps_interesting ps = concat ((fun p => ps_interesting (alone p)) <$> players)
                  /\ ps_updates ps = concat ((fun p => ps_updates (alone p)) <$> players)).
  { subst ps. unfold update_player_states.
    destruct (update_players_alone json_loads cfg e owner h (group_by_player h events)
                (group_by_player_NoDup h events) start (evolves_refl json_loads cfg h))
      as [Hint Hupd].
    cbv zeta in Hint, Hupd. fold start. rewrite Hint, Hupd. cbn [start ps_interesting ps_updates app].
    rewrite group_by_player_eq, <- !list_fmap_compose. fold players.
    split; f_equal; apply list_fmap_ext; intros i p _; unfold compose;
      destruct (update_player_alone json_loads cfg e owner st h (p, events_of h p events))
        as [Hi Hu]; cbv zeta in Hi, Hu; fold start in Hi, Hu;
      [rewrite <- Hi|rewrite <- Hu]; reflexivity. }
  split; [|split; [|split; [|exact Hloop]]].
  - intros st0 l s Hmeta. split.
    + apply scan_event_undecodable. exact Hmeta.
    + intros ex. apply scan_event_decoder_raises. exact Hmeta.
  - intros st0 l m Hmeta Hm.
    destruct (reads_metadata (heap_get (st_heap st0) l)) eqn:Hreads.
    + exact (scan_event_not_mapping json_loads cfg st0 l m Hmeta Hm Hreads).
    + exact (scan_event_unread json_loads cfg st0 l m Hmeta Hreads).
  - intros l c ints ex Hl Hraise p.
    rewrite scan_event_classify in Hraise. cbn [st_heap] in Hraise.
    assert (Hc : classify json_loads cfg (heap_get h l) = Raise ex).
    { destruct (classify json_loads cfg (heap_get h l)) as [v|ex'];
        [discriminate Hraise|]. cbn in Hraise. injection Hraise as ->. reflexivity. }
    assert (Hin : l ∈ events_of h p events).
    { unfold events_of. apply list_elem_of_In, filter_In. split.
      - apply list_elem_of_In. exact Hl.
      - apply bool_decide_eq_true. reflexivity. }
    assert (Hend : ending_of json_loads cfg e owner start (p, events_of h p events)
                   = skipped_before_extend)
      by exact (ending_of_raises json_loads cfg e owner start (p, events_of h p events)
                  l ex Hin Hc).
    destruct (update_player_alone json_loads cfg e owner st h (p, events_of h p events))
      as [Hi Hu]. cbv zeta in Hi, Hu. fold start in Hi, Hu.
    unfold block in Hi. unfold news in Hu. rewrite Hend in Hi, Hu.
    pose proof (update_player_spec json_loads cfg h e owner start
                  (p, events_of h p events) (evolves_refl json_loads cfg h)) as [_ Hspec].
    cbv zeta in Hspec. rewrite Hend in Hspec. destruct Hspec as (_ & _ & Htable).
    destruct Hloop as [Hints Hupds].
    split; [exact Hi|]. split; [exact Hu|]. split; [exact Htable|].
    split; [|split].
    + rewrite Hupds. intros Hp. apply list_elem_of_fmap in Hp as ([q f] & Hq & Hqf).
      cbn in Hq. subst q. apply elem_of_concat in Hqf as (us & Hqf & Hus).
      apply list_elem_of_fmap in Hus as (q & -> & _).
      destruct (update_player_alone json_loads cfg e owner st h (q, events_of h q events))
        as [_ Hu']. cbv zeta in Hu'. fold start in Hu'. fold (alone q) in Hu'.
      rewrite Hu' in Hqf. unfold news in Hqf.
      destruct (ending_of json_loads cfg e owner start (q, events_of h q events))
        as [| |f'] eqn:Hq; try (apply elem_of_nil in Hqf; destruct Hqf).
      apply list_elem_of_singleton in Hqf. injection Hqf as -> _.
      rewrite Hend in Hq. discriminate Hq.
    + rewrite Hints. intros l' Hl' Hp.
      apply elem_of_concat in Hl' as (ls & Hl' & Hls).
      apply list_elem_of_fmap in Hls as (q & -> & _).
      destruct (update_player_alone json_loads cfg e owner st h (q, events_of h q events))
        as [Hi' _]. cbv zeta in Hi'. fold start in Hi'. fold (alone q) in Hi'.
      rewrite Hi' in Hl'. unfold block in Hl'.
      assert (Hq : ending_of json_loads cfg e owner start (q, events_of h q events)
                   <> skipped_before_extend).
      { intros Hq. rewrite Hq in Hl'. apply elem_of_nil in Hl'. destruct Hl'. }
      assert (Hkept : l' ∈ kept json_loads cfg h (events_of h q events))
        by (destruct (ending_of json_loads cfg e owner start (q, events_of h q events));
            [contradiction|exact Hl'|exact Hl']).
      apply elem_of_kept in Hkept as [Hkept _].
      unfold events_of in Hkept. apply list_elem_of_In, filter_In in Hkept as [_ Hkept].
      apply bool_decide_eq_true in Hkept. rewrite Hp in Hkept. subst q.
      contradiction.
    + intros sk. subst ps. unfold update_player_states. fold start.
      rewrite (update_players_skip_table json_loads cfg e owner h
                 (group_by_player h events) p (group_by_player_NoDup h events) start
                 (evolves_refl json_loads cfg h)); [reflexivity|].
      intros ls Hls. destruct (group_by_player_exact h events) as [_ Hexact].
      unfold exact_groups in Hexact. rewrite Forall_forall in Hexact.
      destruct (Hexact _ Hls) as [Heq _]. cbn [fst snd] in Heq. rewrite Heq. exact Hend.
Qed.

End Metadata.

(** A session start of p1, followed by a shot of p1 whose metadata is
    [m]. *)
Definition session_then_shot (m : option meta) : list event :=
  [ make_event "p1" "SESSION_START" None; make_event "p1" "WEAPON_FIRED" m ].

(** C6, as stated, fails: with a null metadata on the shot, the session
    start of the same player is lost as well.  Coercing the metadata to an
    empty mapping, or skipping the shot alone, would each keep event 0 and
    update p1; the code keeps nothing and updates nobody, though it still
    answers 200. *)
Lemma null_metadata_drops_whole_player :
  let run := process_events rejects config64 quiet_env empty_store in
  out_interesting (run (session_then_shot (Some MNull))) = []
  /\ (out_player_updates (run (session_then_shot (Some MNull)))).*1 = []
  /\ players_table (out_store (run (session_then_shot (Some MNull)))) = ∅
  /\ out_interesting (run (session_then_shot (Some (MDict ∅)))) = [0%nat]
  /\ (out_player_updates (run (session_then_shot (Some (MDict ∅))))).*1 = ["p1"]
  /\ out_interesting (run [make_event "p1" "SESSION_START" None]) = [0%nat]
  /\ (out_player_updates (run [make_event "p1" "SESSION_START" None])).*1 = ["p1"]
  /\ statusCode (lambda_handler rejects config64 rejects quiet_env
                   (BodyObj (Some (session_then_shot (Some MNull)))) None empty_store).1
     = 200.
Proof. vm_compute. repeat split; reflexivity. Qed.

(** A session start of p1 whose metadata is a text, and one of p2. *)
Definition two_starts : list event :=
  [ make_event "p1" "SESSION_START" (Some (MStr "[[[["));
    make_event "p2" "SESSION_START" None ].

(** With a decoder that rejects the text as not being JSON both events are
    kept and both players updated; with one that raises [RecursionError]
    on it, p1 is skipped and p2 is processed. *)
Example undecodable_metadata_skips_player :
  let o1 := process_events rejects config64 quiet_env empty_store two_starts in
  let o2 := process_events (raises_on "[[[[" RecursionError) config64 quiet_env
              empty_store two_starts in
  out_interesting o1 = [0%nat; 1%nat]
  /\ (out_player_updates o1).*1 = ["p1"; "p2"]
  /\ out_interesting o2 = [1%nat]
  /\ (out_player_updates o2).*1 = ["p2"]
  /\ dom (players_table (out_store o2))
     = ({[ ("t1#p2", "PROFILE"); ("t1#p2", "FEATURES") ]} : gset (string * string)).
Proof. vm_compute. repeat split; reflexivity. Qed.
